(** * pkg/dao/rpm.go: the RPM data access object over a relational store

    A shallow embedding of [rpmDaoImpl]: GetRpmDao, List, Search,
    PagedRpmInsert, InsertForRepository, deleteUnneeded and their helpers.

    The Go code talks to PostgreSQL through gorm.  The store is modelled as
    four tables kept as lists of rows in table order, together with two
    counters: the number of SQL statements issued so far and the number of
    UUIDs drawn so far.  A statement may fail: the [fault] oracle gives, for
    the n-th statement issued, the error the store answers with (if any); a
    failed statement leaves the tables as they were.  Go's [error] is an
    optional message, [nil] being [None]; a nil slice and an empty slice
    are both the empty list.

    What gorm and PostgreSQL do is written out where rpm.go relies on it:
    - Create of an empty slice fails with ErrEmptySlice and sends no SQL;
    - a condition [IN (?)] on an empty or nil slice selects no row;
    - ON CONFLICT ... DO NOTHING skips a row that collides with the table
      or with a row the same statement has inserted, and RowsAffected
      counts the rows inserted;
    - Limit and Offset write their clause for a positive argument and none
      for a negative one;
    - a chained call is not sent once the chain carries an error.
    Primary and foreign key violations are not modelled: UUIDs are drawn
    fresh and rpm.go deletes associations before rpms. *)

From Stdlib Require Import List String Ascii ZArith Lia Bool Arith Sorted DecimalString.
Import ListNotations.
Open Scope string_scope.
Open Scope list_scope.
Open Scope Z_scope.

Set Implicit Arguments.

#[local] Arguments Z.add : simpl never.
#[local] Arguments Z.sub : simpl never.
#[local] Arguments Z.mul : simpl never.
#[local] Arguments Z.pow : simpl never.
#[local] Arguments Z.of_nat : simpl never.
#[local] Arguments Z.to_nat : simpl never.

(** ** Go integers *)

Module GoInt.

(** [int] and [int64] are 64-bit two's complement on the platforms the
    service runs on; arithmetic wraps around. *)
Definition min_int : Z := - 2 ^ 63.
Definition max_int : Z := 2 ^ 63 - 1.

Definition wrap (z : Z) : Z := (z + 2 ^ 63) mod 2 ^ 64 - 2 ^ 63.

Definition add (a b : Z) : Z := wrap (a + b).

Definition in_range (z : Z) : Prop := min_int <= z <= max_int.

(** The Go runtime never allocates more than 2^48 bytes, so the length of
    a slice of non-empty elements stays far below 2^62. *)
Definition slice_len {A} (s : list A) : Z := Z.of_nat (List.length s).
Definition fits {A} (s : list A) : Prop := slice_len s < 2 ^ 62.

End GoInt.

(** ** Rows of the four tables and the yum package descriptor *)

Definition error := option string.

(** Modelled from the spec: models.Rpm of pkg/models, a Package with its
    opaque identifier (Base.UUID), content key and attributes. *)
Record Rpm := mkRpm {
  rpm_UUID : string;
  rpm_Name : string;
  rpm_Arch : string;
  rpm_Version : string;
  rpm_Release : string;
  rpm_Epoch : Z;
  rpm_Summary : string;
  rpm_Checksum : string
}.

(** Modelled from the spec: models.RepositoryRpm of pkg/models, a Membership
    pair of the table repositories_rpms. *)
Record RepositoryRpm := mkRepositoryRpm {
  RepositoryUUID : string;
  RpmUUID : string
}.

(** Modelled from the spec: models.Repository of pkg/models, the columns
    rpm.go reads. *)
Record Repository := mkRepository {
  repo_UUID : string;
  repo_URL : string;
  repo_Public : bool
}.

(** Modelled from the spec: models.RepositoryConfiguration of pkg/models,
    owned by one organization and referring to one repository. *)
Record RepositoryConfiguration := mkRepositoryConfiguration {
  rc_UUID : string;
  rc_OrgID : string;
  rc_RepositoryUUID : string
}.

(** yum.Package of github.com/content-services/yummy, the fields rpm.go reads. *)
Record YumPackage := mkYumPackage {
  yum_Name : string;
  yum_Arch : string;
  yum_Version : string;
  yum_Release : string;
  yum_Epoch : Z;
  yum_Checksum : string;
  yum_Summary : string
}.

(** ** The store *)

Record Tables := mkTables {
  rpms : list Rpm;
  repositories_rpms : list RepositoryRpm;
  repositories : list Repository;
  repository_configurations : list RepositoryConfiguration
}.

Record DB := mkDB {
  tables : Tables;
  statements : nat;
  uuids : nat
}.

Definition set_rpms (t : Tables) (l : list Rpm) : Tables :=
  mkTables l (repositories_rpms t) (repositories t) (repository_configurations t).

Definition set_repositories_rpms (t : Tables) (l : list RepositoryRpm) : Tables :=
  mkTables (rpms t) l (repositories t) (repository_configurations t).

(** Result of a gorm call: the value, or the error left in [db.Error]. *)
Inductive res (A : Type) : Type :=
| Ok : A -> res A
| Err : string -> res A.
Arguments Ok {A} _.
Arguments Err {A} _.

Definition ErrEmptySlice : string := "empty slice found".
Definition ErrRecordNotFound : string := "record not found".

(** Membership of a string in a slice of strings (SQL IN, Go map lookup). *)
Definition inb (a : string) (l : list string) : bool :=
  existsb (String.eqb a) l.

(** How a call ends: it returns, it panics, or the model ran out of fuel. *)
Inductive run (A : Type) : Type :=
| Done : DB -> A -> run A
| Panic : DB -> run A
| OutOfFuel : run A.
Arguments Done {A} _ _.
Arguments Panic {A} _.
Arguments OutOfFuel {A}.

(** The slice expression s[lo:hi]; out of bounds it panics ([None]). *)
Definition slice {A} (s : list A) (lo hi : Z) : option (list A) :=
  if (0 <=? lo) && (lo <=? hi) && (hi <=? GoInt.slice_len s)
  then Some (firstn (Z.to_nat (hi - lo)) (skipn (Z.to_nat lo) s))
  else None.

Section Store.

(** uuid.NewString: the identifier of the k-th draw. *)
Variable NewString : nat -> string.

(** The error, if any, the store answers the n-th statement with. *)
Variable fault : nat -> option string.

(** Issue one statement: a query computing [q] from the tables. *)
Definition query {A} (q : Tables -> A) (db : DB) : DB * res A :=
  let db' := mkDB (tables db) (S (statements db)) (uuids db) in
  match fault (statements db) with
  | Some e => (db', Err e)
  | None => (db', Ok (q (tables db)))
  end.

(** Issue one statement: a write replacing the tables by [fst (w tables)]
    and reporting [snd (w tables)] (RowsAffected). *)
Definition exec {A} (w : Tables -> Tables * A) (db : DB) : DB * res A :=
  match fault (statements db) with
  | Some e => (mkDB (tables db) (S (statements db)) (uuids db), Err e)
  | None =>
      let (t, a) := w (tables db) in
      (mkDB t (S (statements db)) (uuids db), Ok a)
  end.

(** *** INSERT INTO rpms ... ON CONFLICT (checksum) DO NOTHING *)

Definition has_checksum (c : string) (l : list Rpm) : bool :=
  existsb (fun r => String.eqb (rpm_Checksum r) c) l.

(** Rows are taken in order; a row whose checksum is already there, also
    one inserted earlier by the same statement, is skipped. *)
Fixpoint insert_rpms (rows : list Rpm) (tbl : list Rpm) : list Rpm * Z :=
  match rows with
  | [] => (tbl, 0)
  | r :: rows' =>
      if has_checksum (rpm_Checksum r) tbl then insert_rpms rows' tbl
      else let (tbl', n) := insert_rpms rows' (tbl ++ [r]) in (tbl', 1 + n)
  end.

Definition with_uuid (r : Rpm) (u : string) : Rpm :=
  mkRpm u (rpm_Name r) (rpm_Arch r) (rpm_Version r) (rpm_Release r)
        (rpm_Epoch r) (rpm_Summary r) (rpm_Checksum r).

(** Modelled from the spec: the BeforeCreate hook of models.Base (pkg/models),
    which assigns the identifier on creation; gorm runs it on every row of
    the slice before it sends the INSERT, conflicting row or not. *)
Fixpoint before_create (k : nat) (rows : list Rpm) : list Rpm :=
  match rows with
  | [] => []
  | r :: rows' => with_uuid r (NewString k) :: before_create (S k) rows'
  end.

(** db.Clauses(OnConflict{checksum, DoNothing}).Create(rows): gorm refuses
    an empty slice with ErrEmptySlice before any SQL is sent. *)
Definition create_rpms (rows : list Rpm) (db : DB) : DB * res Z :=
  match rows with
  | [] => (db, Err ErrEmptySlice)
  | _ =>
      let rows' := before_create (uuids db) rows in
      let db1 := mkDB (tables db) (statements db) (uuids db + List.length rows)%nat in
      exec (fun t => let (l, n) := insert_rpms rows' (rpms t) in (set_rpms t l, n)) db1
  end.

(** *** INSERT INTO repositories_rpms ... ON CONFLICT (repository_uuid, rpm_uuid) DO NOTHING *)

Definition same_assoc (a b : RepositoryRpm) : bool :=
  String.eqb (RepositoryUUID a) (RepositoryUUID b) && String.eqb (RpmUUID a) (RpmUUID b).

Fixpoint insert_assocs (rows : list RepositoryRpm) (tbl : list RepositoryRpm)
  : list RepositoryRpm * Z :=
  match rows with
  | [] => (tbl, 0)
  | a :: rows' =>
      if existsb (same_assoc a) tbl then insert_assocs rows' tbl
      else let (tbl', n) := insert_assocs rows' (tbl ++ [a]) in (tbl', 1 + n)
  end.

Definition create_assocs (rows : list RepositoryRpm) (db : DB) : DB * res Z :=
  match rows with
  | [] => (db, Err ErrEmptySlice)
  | _ =>
      exec (fun t => let (l, n) := insert_assocs rows (repositories_rpms t) in
                     (set_repositories_rpms t l, n)) db
  end.

(** ** GetRpmDao *)

Record rpmDaoImpl := mkRpmDao {
  pagedRpmInsertsLimit : Z
}.

Record RpmDaoOptions := mkRpmDaoOptions {
  PagedRpmInsertsLimit : option Z
}.

(** pkg/config is not part of rpm.go: its constant
    DefaultPagedRpmInsertsLimit and the configured value
    config.Get().Options.PagedRpmInsertsLimit are parameters. *)
Variable DefaultPagedRpmInsertsLimit : Z.
Variable configuredPagedRpmInsertsLimit : Z.

Definition GetRpmDao (options : option RpmDaoOptions) : rpmDaoImpl :=
  let value :=
    match options with
    | Some (mkRpmDaoOptions (Some v)) => v
    | _ => configuredPagedRpmInsertsLimit
    end in
  if value >? 0 then mkRpmDao value else mkRpmDao DefaultPagedRpmInsertsLimit.

(** ** Helpers of rpm.go *)

Definition stringInSlice (a : string) (list : list string) : bool :=
  existsb (fun b => String.eqb b a) list.

Definition FilteredConvert (yumPkgs : list YumPackage) (excludeChecksums : list string)
  : list Rpm :=
  flat_map (fun yumPkg =>
    if negb (stringInSlice (yum_Checksum yumPkg) excludeChecksums) then
      [mkRpm "" (yum_Name yumPkg) (yum_Arch yumPkg) (yum_Version yumPkg)
             (yum_Release yumPkg) (yum_Epoch yumPkg) (yum_Summary yumPkg)
             (yum_Checksum yumPkg)]
    else []) yumPkgs.

Definition prepRepositoryRpms (repo : Repository) (rpm_uuids : list string)
  : list RepositoryRpm :=
  map (fun u => mkRepositoryRpm (repo_UUID repo) u) rpm_uuids.

(** [mb] is the key set of the Go map built from [b]. *)
Definition difference (a b : list string) : list string :=
  let mb := b in
  filter (fun x => negb (inb x mb)) a.

(** ** PagedRpmInsert *)

Section Paged.

Variable r : rpmDaoImpl.
Variable pkgs : list Rpm.

Definition chunk : Z := pagedRpmInsertsLimit r.

(** The for loop, entered with the values of [i], [count] and the store. *)
Fixpoint PagedRpmInsert_loop (fuel : nat) (i count : Z) (db : DB) : run (Z * error) :=
  match fuel with
  | O => OutOfFuel
  | S fuel' =>
      if i <? GoInt.slice_len pkgs then
        let end_ :=
          if GoInt.add i chunk >? GoInt.slice_len pkgs
          then GoInt.slice_len pkgs else GoInt.add i chunk in
        match slice pkgs i end_ with
        | None => Panic db
        | Some rows =>
            match create_rpms rows db with
            | (db', Err e) => Done db' (count, Some e)
            | (db', Ok rowsAffected) =>
                PagedRpmInsert_loop fuel' (GoInt.add i chunk)
                                    (GoInt.add count rowsAffected) db'
            end
        end
      else Done db (count, None)
  end.

(** The loop is run with fuel for len(pkgs) + 1 tests of its condition: a
    positive chunk size needs no more, and any other ends the first turn. *)
Definition PagedRpmInsert (db : DB) : run (Z * error) :=
  if GoInt.slice_len pkgs =? 0 then Done db (0, None)
  else PagedRpmInsert_loop (S (List.length pkgs)) 0 0 db.

End Paged.

(** ** InsertForRepository *)

Definition zeroRepository : Repository := mkRepository "" "" false.

(** Where("UUID = ?", uuid).First(&found) *)
Definition fetchRepo (uuid : string) (db : DB) : DB * (Repository * error) :=
  match query (fun t => find (fun x => String.eqb (repo_UUID x) uuid) (repositories t)) db with
  | (db', Err e) => (db', (zeroRepository, Some e))
  | (db', Ok None) => (db', (zeroRepository, Some ErrRecordNotFound))
  | (db', Ok (Some found)) => (db', (found, None))
  end.

(** Where("checksum in (?)", checksums).Model(&Rpm{}).Pluck(column, ...) ;
    an empty list renders as IN (NULL) and selects no row. *)
Definition pluck_by_checksum (column : Rpm -> string) (checksums : list string)
  : DB -> DB * res (list string) :=
  query (fun t => map column (filter (fun x => inb (rpm_Checksum x) checksums) (rpms t))).

(** The rpm_uuid column of the rows of repositories_rpms of one repository. *)
Definition pluck_rpm_uuids_of (repoUUID : string) : DB -> DB * res (list string) :=
  query (fun t => map RpmUUID
                    (filter (fun m => String.eqb (RepositoryUUID m) repoUUID)
                            (repositories_rpms t))).

(** DELETE FROM repositories_rpms WHERE repository_uuid = ? AND rpm_uuid IN (?) *)
Definition delete_assocs (repoUUID : string) (uuids : list string) : DB -> DB * res unit :=
  exec (fun t =>
    (set_repositories_rpms t
       (filter (fun m => negb (String.eqb (RepositoryUUID m) repoUUID && inb (RpmUUID m) uuids))
               (repositories_rpms t)), tt)).

(** rpms LEFT JOIN repositories_rpms ON rpms.uuid = rpm_uuid
    WHERE repositories_rpms IS NULL AND rpms.uuid IN (?): the rpms among
    [uuids] that no row of repositories_rpms refers to. *)
Definition pluck_dangling (uuids : list string) : DB -> DB * res (list string) :=
  query (fun t => map rpm_UUID
    (filter (fun x => negb (existsb (fun m => String.eqb (rpm_UUID x) (RpmUUID m))
                                    (repositories_rpms t))
                      && inb (rpm_UUID x) uuids)
            (rpms t))).

(** DELETE FROM rpms WHERE rpms.uuid IN (?) *)
Definition delete_rpms (uuids : list string) : DB -> DB * res unit :=
  exec (fun t =>
    (set_rpms t (filter (fun x => negb (inb (rpm_UUID x) uuids)) (rpms t)), tt)).

Definition deleteUnneeded (repo : Repository) (rpm_uuids : list string) (db : DB)
  : DB * error :=
  match pluck_rpm_uuids_of (repo_UUID repo) db with
  | (db1, Err e) => (db1, Some e)
  | (db1, Ok existing_rpm_uuids) =>
      let rpmsToDelete := difference existing_rpm_uuids rpm_uuids in
      match delete_assocs (repo_UUID repo) rpmsToDelete db1 with
      | (db2, Err e) => (db2, Some e)
      | (db2, Ok _) =>
          match pluck_dangling rpmsToDelete db2 with
          | (db3, Err e) => (db3, Some e)
          | (db3, Ok dangling_rpm_uuids) =>
              if (List.length dangling_rpm_uuids =? 0)%nat then (db3, None)
              else
                match delete_rpms dangling_rpm_uuids db3 with
                | (db4, Err e) => (db4, Some e)
                | (db4, Ok _) => (db4, None)
                end
          end
      end
  end.

Definition wrapf (context : string) (e : string) : error :=
  Some (String.append context e).

Definition InsertForRepository (r : rpmDaoImpl) (repoUuid : string)
  (pkgs : list YumPackage) (db : DB) : run (Z * error) :=
  match fetchRepo repoUuid db with
  | (db1, (_, Some e)) => Done db1 (0, wrapf "failed to fetchRepo: " e)
  | (db1, (repo, None)) =>
      let checksums := map yum_Checksum pkgs in
      match pluck_by_checksum rpm_Checksum checksums db1 with
      | (db2, Err e) =>
          Done db2 (0, wrapf "failed retrieving existing checksum in rpms: " e)
      | (db2, Ok existingChecksums) =>
          let dbPkgs := FilteredConvert pkgs existingChecksums in
          match PagedRpmInsert r dbPkgs db2 with
          | OutOfFuel => OutOfFuel
          | Panic db3 => Panic db3
          | Done db3 (rowsAffected, Some e) =>
              Done db3 (rowsAffected, wrapf "failed to PagedRpmInsert: " e)
          | Done db3 (rowsAffected, None) =>
              match pluck_by_checksum rpm_UUID checksums db3 with
              | (db4, Err e) =>
                  Done db4 (rowsAffected,
                    wrapf "failed retrieving rpms.uuid for the package checksums: " e)
              | (db4, Ok rpmUuids) =>
                  match deleteUnneeded repo rpmUuids db4 with
                  | (db5, Some e) =>
                      Done db5 (rowsAffected, wrapf "failed to deleteUnneeded: " e)
                  | (db5, None) =>
                      let associations := prepRepositoryRpms repo rpmUuids in
                      match create_assocs associations db5 with
                      | (db6, Err e) =>
                          Done db6 (rowsAffected, wrapf "failed to Create: " e)
                      | (db6, Ok _) => Done db6 (rowsAffected, None)
                      end
                  end
              end
          end
      end
  end.

(** ** List *)

(** Modelled from the spec: api.RepositoryRpm of pkg/api. *)
Record ApiRepositoryRpm := mkApiRepositoryRpm {
  api_UUID : string;
  api_Name : string;
  api_Arch : string;
  api_Version : string;
  api_Release : string;
  api_Epoch : Z;
  api_Summary : string;
  api_Checksum : string
}.

(** Modelled from the spec: api.ResponseMetadata of pkg/api. *)
Record ResponseMetadata := mkResponseMetadata {
  meta_Count : Z;
  meta_Offset : Z;
  meta_Limit : Z
}.

(** Modelled from the spec: api.RepositoryRpmCollectionResponse of pkg/api,
    a page of packages; its Links are never set by rpm.go. *)
Record RepositoryRpmCollectionResponse := mkCollectionResponse {
  Data : list ApiRepositoryRpm;
  Meta : ResponseMetadata
}.

(** The zero value api.RepositoryRpmCollectionResponse{}. *)
Definition emptyCollectionResponse : RepositoryRpmCollectionResponse :=
  mkCollectionResponse [] (mkResponseMetadata 0 0 0).

(** DBErrorToApi of pkg/dao (not in rpm.go), which maps a store error to an
    API error. *)
Variable DBErrorToApi : string -> string.

Definition owned_by (orgID repositoryConfigUUID : string) (c : RepositoryConfiguration)
  : bool :=
  String.eqb (rc_OrgID c) orgID && String.eqb (rc_UUID c) repositoryConfigUUID.

(** Find(&repoConfigs) and then Count(&count) under the same condition; the
    second statement is not sent once the first has failed. *)
Definition isOwnedRepository (orgID repositoryConfigUUID : string) (db : DB)
  : DB * (bool * error) :=
  let matching := fun t =>
    filter (owned_by orgID repositoryConfigUUID) (repository_configurations t) in
  match query matching db with
  | (db1, Err e) => (db1, (false, Some e))
  | (db1, Ok _) =>
      match query (fun t => Z.of_nat (List.length (matching t))) db1 with
      | (db2, Err e) => (db2, (false, Some e))
      | (db2, Ok count) =>
          if count =? 0 then (db2, (false, None)) else (db2, (true, None))
      end
  end.

Definition modelToApiFields (x : Rpm) : ApiRepositoryRpm :=
  mkApiRepositoryRpm (rpm_UUID x) (rpm_Name x) (rpm_Arch x) (rpm_Version x)
                     (rpm_Release x) (rpm_Epoch x) (rpm_Summary x) (rpm_Checksum x).

Definition RepositoryRpmListFromModelToResponse (repoRpm : list Rpm)
  : list ApiRepositoryRpm :=
  map modelToApiFields repoRpm.

(** rpms INNER JOIN repositories_rpms ON uuid = rpm_uuid
    WHERE repository_uuid = ?: one row for each matching pair.  The query
    has no ORDER BY, so the store may return these rows in any order, and in
    another order each time; the list below has them in table order.  Which
    rows a LIMIT and an OFFSET cut out of them is therefore the model's
    choice: of the content of a window only membership in these rows and
    its length are properties of the code. *)
Definition rpms_of_repository (repoUUID : string) (t : Tables) : list Rpm :=
  flat_map (fun x =>
    flat_map (fun m =>
      if String.eqb (rpm_UUID x) (RpmUUID m) && String.eqb (RepositoryUUID m) repoUUID
      then [x] else []) (repositories_rpms t)) (rpms t).

(** gorm writes an OFFSET or a LIMIT clause for a positive argument and none
    for a negative one.  Zero is taken as gorm took it up to v1.24.2, with no
    clause (later versions write LIMIT 0); no property below depends on a
    zero limit. *)
Definition offset_rows {A} (offset : Z) (l : list A) : list A :=
  if offset >? 0 then skipn (Z.to_nat offset) l else l.

Definition limit_rows {A} (limit : Z) (l : list A) : list A :=
  if limit >? 0 then firstn (Z.to_nat limit) l else l.

(** Preload("Repository").Find(&repositoryConfig, "uuid = ?", ...): the
    configuration, then its repository; no row leaves the zero value. *)
Definition find_config_repository (repositoryConfigUUID : string) (db : DB)
  : DB * res string :=
  match query (fun t => find (fun c => String.eqb (rc_UUID c) repositoryConfigUUID)
                             (repository_configurations t)) db with
  | (db1, Err e) => (db1, Err e)
  | (db1, Ok None) => (db1, Ok "")
  | (db1, Ok (Some c)) =>
      match query (fun t => find (fun x => String.eqb (repo_UUID x) (rc_RepositoryUUID c))
                                 (repositories t)) db1 with
      | (db2, Err e) => (db2, Err e)
      | (db2, Ok None) => (db2, Ok "")
      | (db2, Ok (Some x)) => (db2, Ok (repo_UUID x))
      end
  end.

Definition List (orgID repositoryConfigUUID : string) (limit offset : Z) (db : DB)
  : DB * (RepositoryRpmCollectionResponse * Z * error) :=
  if String.eqb orgID "" then
    (db, (emptyCollectionResponse, 0, Some "orgID can not be an empty string"))
  else
    match isOwnedRepository orgID repositoryConfigUUID db with
    | (db1, (false, Some err)) =>
        (db1, (emptyCollectionResponse, 0, Some (DBErrorToApi err)))
    | (db1, (false, None)) =>
        (db1, (emptyCollectionResponse, 0,
               Some (String.append "repositoryConfigUUID = "
                       (String.append repositoryConfigUUID " is not owned"))))
    | (db1, (true, _)) =>
        match find_config_repository repositoryConfigUUID db1 with
        | (db2, Err e) => (db2, (emptyCollectionResponse, 0, Some e))
        | (db2, Ok repoUUID) =>
            match query (fun t => Z.of_nat (List.length (rpms_of_repository repoUUID t)))
                        db2 with
            | (db3, Err e) => (db3, (emptyCollectionResponse, 0, Some e))
            | (db3, Ok totalRpms) =>
                match query (fun t => limit_rows limit
                                        (offset_rows offset (rpms_of_repository repoUUID t)))
                            db3 with
                | (db4, Err e) => (db4, (emptyCollectionResponse, totalRpms, Some e))
                | (db4, Ok repoRpms) =>
                    (db4, (mkCollectionResponse
                             (RepositoryRpmListFromModelToResponse repoRpms)
                             (mkResponseMetadata totalRpms offset limit),
                           totalRpms, None))
                end
            end
        end
    end.

(** ** Search *)

(** Modelled from the spec: api.SearchRpmRequest of pkg/api, the URLs and
    the name prefix of a search. *)
Record SearchRpmRequest := mkSearchRpmRequest {
  URLs : list string;
  Search_ : string  (* the field Search *)
}.

(** Modelled from the spec: api.SearchRpmResponse of pkg/api, a name and a
    summary. *)
Record SearchRpmResponse := mkSearchRpmResponse {
  PackageName : string;
  Summary : string
}.

(** The slice [urls]: the request's URLs, each followed by itself with a
    slash appended (urls[i*2] and urls[i*2+1]). *)
Definition search_urls (requestURLs : list string) : list string :=
  flat_map (fun url => [url; String.append url "/"]) requestURLs.

(** SQL LIKE on bytes: [%] matches any run, [_] any one character and a
    backslash quotes the character after it. *)
Fixpoint like_chars (pat s : list ascii) {struct pat} : bool :=
  match pat with
  | [] => match s with [] => true | _ => false end
  | c :: pat' =>
      if Ascii.eqb c "%" then
        (fix any (s : list ascii) : bool :=
           like_chars pat' s || match s with [] => false | _ :: s' => any s' end) s
      else if Ascii.eqb c "_" then
        match s with [] => false | _ :: s' => like_chars pat' s' end
      else if Ascii.eqb c "\" then
        match pat' with
        | [] => false
        | q :: pat'' =>
            match s with [] => false | d :: s' => Ascii.eqb q d && like_chars pat'' s' end
        end
      else
        match s with [] => false | d :: s' => Ascii.eqb c d && like_chars pat' s' end
  end.

Definition like (pattern s : string) : bool :=
  like_chars (list_ascii_of_string pattern) (list_ascii_of_string s).

(** A row of rpms JOIN repositories_rpms JOIN repositories
    LEFT JOIN repository_configurations. *)
Definition joined_row : Type := Rpm * Repository * option RepositoryConfiguration.

Definition row_name (row : joined_row) : string := rpm_Name (fst (fst row)).

Definition search_join (t : Tables) : list joined_row :=
  flat_map (fun x =>
    flat_map (fun m =>
      if String.eqb (RpmUUID m) (rpm_UUID x) then
        flat_map (fun repo =>
          if String.eqb (repo_UUID repo) (RepositoryUUID m) then
            match filter (fun c => String.eqb (rc_RepositoryUUID c) (repo_UUID repo))
                         (repository_configurations t) with
            | [] => [(x, repo, None)]
            | cs => map (fun c => (x, repo, Some c)) cs
            end
          else []) (repositories t)
      else []) (repositories_rpms t)) (rpms t).

Definition search_where (orgID : string) (request : SearchRpmRequest) (urls : list string)
  (row : joined_row) : bool :=
  let '(x, repo, c) := row in
  ((match c with Some c => String.eqb (rc_OrgID c) orgID | None => false end)
   || repo_Public repo)
  && like (String.append (Search_ request) "%") (rpm_Name x)
  && inb (repo_URL repo) urls.

(** ORDER BY rpms.name ASC, names compared byte by byte: rows of equal name
    keep the order the join produced them in. *)
Fixpoint insert_by_name (row : joined_row) (l : list joined_row) : list joined_row :=
  match l with
  | [] => [row]
  | y :: l' =>
      if String.leb (row_name row) (row_name y)
      then row :: y :: l'
      else y :: insert_by_name row l'
  end.

Definition order_by_name (l : list joined_row) : list joined_row :=
  fold_right insert_by_name [] l.

(** DISTINCT ON (rpms.name): of the ordered rows, the first of each name. *)
Fixpoint distinct_on_name (prev : option string) (l : list joined_row)
  : list joined_row :=
  match l with
  | [] => []
  | row :: l' =>
      let name := row_name row in
      if match prev with Some p => String.eqb p name | None => false end
      then distinct_on_name prev l'
      else row :: distinct_on_name (Some name) l'
  end.

Definition search_select (orgID : string) (request : SearchRpmRequest)
  (urls : list string) (limit : Z) (t : Tables) : list SearchRpmResponse :=
  limit_rows limit
    (map (fun row => mkSearchRpmResponse (row_name row) (rpm_Summary (fst (fst row))))
         (distinct_on_name None
            (order_by_name (filter (search_where orgID request urls) (search_join t))))).

Definition Search (orgID : string) (request : SearchRpmRequest) (limit : Z) (db : DB)
  : DB * (list SearchRpmResponse * error) :=
  if String.eqb orgID "" then
    (db, ([], Some "orgID can not be an empty string"))
  else if (List.length (URLs request) =? 0)%nat then
    (db, ([], Some "request.URLs must contain at least 1 URL"))
  else
    let urls := search_urls (URLs request) in
    match query (search_select orgID request urls limit) db with
    | (db', Err e) => (db', ([], Some e))
    | (db', Ok dataResponse) => (db', (dataResponse, None))
    end.

End Store.

(** * Definitions used to state the properties *)

(** A store that answers every statement. *)
Definition no_fault : nat -> option string := fun _ => None.

(** A DAO whose chunk size is a positive Go [int]. *)
Definition valid_dao (r : rpmDaoImpl) : Prop :=
  0 < pagedRpmInsertsLimit r <= GoInt.max_int.

(** The limit an options value carries, if any, is a Go [int]. *)
Definition go_int_options (options : option RpmDaoOptions) : Prop :=
  match options with
  | Some (mkRpmDaoOptions (Some v)) => GoInt.in_range v
  | _ => True
  end.

(** What one INSERT of [rows] does to the rpms table of [db], and how many
    rows it adds. *)
Definition bulk_insert (NewString : nat -> string) (rows : list Rpm) (db : DB)
  : list Rpm * Z :=
  insert_rpms (before_create NewString (uuids db) rows) (rpms (tables db)).

(** The rows of the chunk that starts at index [a]. *)
Definition chunk_at (r : rpmDaoImpl) (pkgs : list Rpm) (a : nat) : list Rpm :=
  firstn (Z.to_nat (chunk r)) (skipn a pkgs).

(** ** What deleteUnneeded does to the tables *)

(** [rpmsToDelete]: what repository [R] holds and [keep] does not name. *)
Definition unneeded (R : string) (keep : list string) (t : Tables) : list string :=
  difference
    (map RpmUUID (filter (fun m => String.eqb (RepositoryUUID m) R) (repositories_rpms t)))
    keep.

Definition assocs_after (R : string) (keep : list string) (t : Tables)
  : list RepositoryRpm :=
  filter (fun m => negb (String.eqb (RepositoryUUID m) R
                         && inb (RpmUUID m) (unneeded R keep t)))
         (repositories_rpms t).

Definition dangling_after (R : string) (keep : list string) (t : Tables) : list string :=
  map rpm_UUID
    (filter (fun x => negb (existsb (fun m => String.eqb (rpm_UUID x) (RpmUUID m))
                                    (assocs_after R keep t))
                      && inb (rpm_UUID x) (unneeded R keep t))
            (rpms t)).

Definition rpms_after (R : string) (keep : list string) (t : Tables) : list Rpm :=
  filter (fun x => negb (inb (rpm_UUID x) (dangling_after R keep t))) (rpms t).

Definition delete_tables (R : string) (keep : list string) (t : Tables) : Tables :=
  mkTables (rpms_after R keep t) (assocs_after R keep t)
           (repositories t) (repository_configurations t).

(** ** What InsertForRepository does to the tables *)

(** The rpm carries one of the checksums. *)
Definition named (checksums : list string) (x : Rpm) : bool :=
  inb (rpm_Checksum x) checksums.

(** The rpms table after the packages of the manifest that are new to the
    store have been inserted, and how many were. *)
Definition new_rpms (NewString : nat -> string) (pkgs : list YumPackage) (db : DB)
  : list Rpm * Z :=
  bulk_insert NewString
    (FilteredConvert pkgs
       (map rpm_Checksum (filter (named (map yum_Checksum pkgs)) (rpms (tables db))))) db.

(** [rpmUuids]: the identifiers of the rpms the manifest names. *)
Definition wanted_uuids (pkgs : list YumPackage) (tbl : list Rpm) : list string :=
  map rpm_UUID (filter (named (map yum_Checksum pkgs)) tbl).

(** The tables a run that meets no failure leaves, for a repository found. *)
Definition reconciled (NewString : nat -> string) (pkgs : list YumPackage)
  (repo : Repository) (db : DB) : Tables :=
  let t3 := set_rpms (tables db) (fst (new_rpms NewString pkgs db)) in
  let rpmUuids := wanted_uuids pkgs (fst (new_rpms NewString pkgs db)) in
  let t5 := delete_tables (repo_UUID repo) rpmUuids t3 in
  set_repositories_rpms t5
    (fst (insert_assocs (prepRepositoryRpms repo rpmUuids) (repositories_rpms t5))).

(** The tables agree with a manifest for repository [R]: every checksum of
    the manifest is in rpms, and the associations of [R] are exactly the
    rpms the manifest names. *)
Definition settled (R : string) (checksums : list string) (t : Tables) : Prop :=
  (forall ck, In ck checksums -> has_checksum ck (rpms t) = true)
  /\ (forall m, In m (repositories_rpms t) -> RepositoryUUID m = R ->
                In (RpmUUID m) (map rpm_UUID (filter (named checksums) (rpms t))))
  /\ (forall u, In u (map rpm_UUID (filter (named checksums) (rpms t))) ->
                In (mkRepositoryRpm R u) (repositories_rpms t)).

(** ** List and Search *)

(** The error List returns for a configuration that is not owned. *)
Definition not_owned_error (repositoryConfigUUID : string) : string :=
  String.append "repositoryConfigUUID = " (String.append repositoryConfigUUID " is not owned").

(** No configuration of the store has this identifier and this organization. *)
Definition not_owned (orgID repositoryConfigUUID : string) (db : DB) : Prop :=
  forall c, In c (repository_configurations (tables db)) ->
            owned_by orgID repositoryConfigUUID c = false.

Definition name_le (a b : joined_row) : Prop := String.leb (row_name a) (row_name b) = true.
Definition name_lt (a b : joined_row) : Prop := String.ltb (row_name a) (row_name b) = true.

(** Rows of a Search answer in strictly ascending order of name. *)
Definition ascending (l : list SearchRpmResponse) : Prop :=
  StronglySorted (fun a b => String.ltb (PackageName a) (PackageName b) = true) l.

(** The ordering documented in the comment above the query,
    ORDER BY rpms.name, rpms.epoch DESC, which the built query does not
    have: names ascending and, within a name, the highest epoch first. *)
Fixpoint insert_by_name_epoch (row : joined_row) (l : list joined_row) : list joined_row :=
  match l with
  | [] => [row]
  | y :: l' =>
      if String.ltb (row_name row) (row_name y)
         || (String.eqb (row_name row) (row_name y)
             && (rpm_Epoch (fst (fst y)) <=? rpm_Epoch (fst (fst row))))
      then row :: y :: l'
      else y :: insert_by_name_epoch row l'
  end.

(** What Search would select under the documented ordering. *)
Definition search_select_documented (orgID : string) (request : SearchRpmRequest)
  (urls : list string) (limit : Z) (t : Tables) : list SearchRpmResponse :=
  limit_rows limit
    (map (fun row => mkSearchRpmResponse (row_name row) (rpm_Summary (fst (fst row))))
         (distinct_on_name None
            (fold_right insert_by_name_epoch []
               (filter (search_where orgID request urls) (search_join t))))).

(** ** Concrete stores and inputs *)

(** UUIDs drawn as "uuid-0", "uuid-1", ... *)
Definition uuid_nth (k : nat) : string :=
  String.append "uuid-" (NilZero.string_of_uint (Nat.to_uint k)).

Definition yum_pkg (name checksum : string) : YumPackage :=
  mkYumPackage name "x86_64" "1.0.0" "1" 0 checksum (String.append "Summary of " name).

Definition rpm_row (name checksum : string) : Rpm :=
  mkRpm "" name "x86_64" "1.0.0" "1" 0 (String.append "Summary of " name) checksum.

Definition manifest3 : list YumPackage :=
  [yum_pkg "bash" "SHA1:01"; yum_pkg "curl" "SHA1:02"; yum_pkg "vim" "SHA1:03"].

Definition rows3 : list Rpm :=
  [rpm_row "bash" "SHA1:01"; rpm_row "curl" "SHA1:02"; rpm_row "vim" "SHA1:03"].

Definition old_rpm : Rpm := mkRpm "u-old" "old" "noarch" "0.1" "1" 0 "Old package" "SHA1:00".

(** Two repositories; R1 holds an old package on its own and shares curl
    with R2; one configuration of organization acme. *)
Definition store0 : DB :=
  mkDB (mkTables [old_rpm;
                  mkRpm "u-curl" "curl" "x86_64" "1.0.0" "1" 0 "Summary of curl" "SHA1:02"]
                 [mkRepositoryRpm "R1" "u-old"; mkRepositoryRpm "R1" "u-curl";
                  mkRepositoryRpm "R2" "u-curl"]
                 [mkRepository "R1" "http://x" true; mkRepository "R2" "http://y/" false]
                 [mkRepositoryConfiguration "cfg-1" "acme" "R2"]) 0 0.

(** A store that fails its second statement. *)
Definition second_fails (n : nat) : option string :=
  if (n =? 1)%nat then Some "connection reset" else None.

Definition demo_rpm (uuid : string) (epoch : Z) (summary checksum : string) : Rpm :=
  mkRpm uuid "demo-lib" "x86_64" "1.0.0" "1" epoch summary checksum.

(** One public repository, stored at [url], holding one package. *)
Definition store_at (url : string) : DB :=
  mkDB (mkTables [demo_rpm "u1" 0 "Demo library" "SHA1:aa"]
                 [mkRepositoryRpm "R1" "u1"]
                 [mkRepository "R1" url true]
                 []) 0 0.

(** One public repository holding two packages named demo-lib, the one of
    epoch 1 stored before the one of epoch 2. *)
Definition store_two_epochs : DB :=
  mkDB (mkTables [demo_rpm "u1" 1 "Demo library, epoch 1" "SHA1:aa";
                  demo_rpm "u2" 2 "Demo library, epoch 2" "SHA1:bb"]
                 [mkRepositoryRpm "R1" "u1"; mkRepositoryRpm "R1" "u2"]
                 [mkRepository "R1" "http://x" true]
                 []) 0 0.

(** One private repository, configured by organization acme, holding three
    packages. *)
Definition store_three : DB :=
  mkDB (mkTables [with_uuid (rpm_row "bash" "SHA1:01") "u-bash";
                  with_uuid (rpm_row "curl" "SHA1:02") "u-curl";
                  with_uuid (rpm_row "vim" "SHA1:03") "u-vim"]
                 [mkRepositoryRpm "R1" "u-bash"; mkRepositoryRpm "R1" "u-curl";
                  mkRepositoryRpm "R1" "u-vim"]
                 [mkRepository "R1" "http://x" false]
                 [mkRepositoryConfiguration "cfg-1" "acme" "R1"]) 0 0.

(** ** Definitions for the properties of the helpers, List, Search and the write path *)

(** The row FilteredConvert makes of a package: its attributes, no UUID yet. *)
Definition rpm_of_yum (p : YumPackage) : Rpm :=
  mkRpm "" (yum_Name p) (yum_Arch p) (yum_Version p) (yum_Release p)
        (yum_Epoch p) (yum_Summary p) (yum_Checksum p).

(** The repository List reads for a configuration identifier: the
    repository of the first configuration with that identifier, the zero
    value when the configuration or its repository is missing. *)
Definition config_repository (repositoryConfigUUID : string) (t : Tables) : string :=
  match find (fun c => String.eqb (rc_UUID c) repositoryConfigUUID)
             (repository_configurations t) with
  | None => ""
  | Some c =>
      match find (fun x => String.eqb (repo_UUID x) (rc_RepositoryUUID c))
                 (repositories t) with
      | None => ""
      | Some x => repo_UUID x
      end
  end.

(** Some configuration of the store has this identifier and organization. *)
Definition owned (orgID repositoryConfigUUID : string) (db : DB) : Prop :=
  exists c, In c (repository_configurations (tables db))
            /\ owned_by orgID repositoryConfigUUID c = true.

(** The page List answers with when nothing fails. *)
Definition list_page (repositoryConfigUUID : string) (limit offset : Z) (db : DB)
  : list ApiRepositoryRpm :=
  RepositoryRpmListFromModelToResponse
    (limit_rows limit
       (offset_rows offset
          (rpms_of_repository (config_repository repositoryConfigUUID (tables db))
                              (tables db)))).

Definition list_total (repositoryConfigUUID : string) (db : DB) : Z :=
  Z.of_nat (List.length
              (rpms_of_repository (config_repository repositoryConfigUUID (tables db))
                                  (tables db))).

(** The search string has none of LIKE's special characters. *)
Definition like_literal (s : string) : bool :=
  forallb (fun c => negb (Ascii.eqb c "%" || Ascii.eqb c "_" || Ascii.eqb c "\"))
          (list_ascii_of_string s).

(** The number of chunks of [c] rows that [n] rows make. *)
Definition chunks_of (n c : nat) : nat := ((n + c - 1) / c)%nat.

(** ** What a run for one repository leaves to the others *)

(** From [t] to [t'] nothing changed outside repository [R]: the
    repositories and their configurations are the same, the associations of
    every other repository are the same, and an rpm that another repository
    is associated with is still there. *)
Definition untouched_elsewhere (R : string) (t t' : Tables) : Prop :=
  repositories t' = repositories t
  /\ repository_configurations t' = repository_configurations t
  /\ (forall m, RepositoryUUID m <> R ->
        In m (repositories_rpms t') <-> In m (repositories_rpms t))
  /\ (forall x m, In x (rpms t) -> In m (repositories_rpms t) ->
        RepositoryUUID m <> R -> RpmUUID m = rpm_UUID x -> In x (rpms t')).

(** Every association refers to an rpm of the table. *)
Definition associations_resolve (t : Tables) : Prop :=
  forall m, In m (repositories_rpms t) -> exists x, In x (rpms t) /\ rpm_UUID x = RpmUUID m.

(** The tables with [added] appended to rpms. *)
Definition after_insert (t : Tables) (added : list Rpm) : Tables :=
  set_rpms t (rpms t ++ added).

(** The tables after the insert-or-ignore of the associations of [repo]
    with [keep]. *)
Definition associate (repo : Repository) (keep : list string) (t : Tables) : Tables :=
  set_repositories_rpms t
    (fst (insert_assocs (prepRepositoryRpms repo keep) (repositories_rpms t))).

(** The tables InsertForRepository can return with, [t1] being the tables
    after its inserts into rpms: [t1] itself, or, the repository found, [t1]
    less the associations not wanted, less the rpms left dangling, and with
    the wanted associations. *)
Definition insert_stage (pkgs : list YumPackage) (repoUuid : string) (t t1 t' : Tables)
  : Prop :=
  t' = t1
  \/ exists repo, In repo (repositories t) /\ repo_UUID repo = repoUuid
       /\ (t' = set_repositories_rpms t1
                  (assocs_after repoUuid (wanted_uuids pkgs (rpms t1)) t1)
           \/ t' = delete_tables repoUuid (wanted_uuids pkgs (rpms t1)) t1
           \/ t' = associate repo (wanted_uuids pkgs (rpms t1))
                     (delete_tables repoUuid (wanted_uuids pkgs (rpms t1)) t1)).

(** * Properties *)

(** ** Go integers and slices *)

Lemma wrap_in_range (z : Z) : GoInt.in_range z -> GoInt.wrap z = z.
Proof.
  unfold GoInt.in_range, GoInt.wrap, GoInt.min_int, GoInt.max_int. intros H.
  rewrite Z.mod_small; lia.
Qed.

Lemma add_in_range (a b : Z) : GoInt.in_range (a + b) -> GoInt.add a b = a + b.
Proof. apply wrap_in_range. Qed.

Lemma firstn_all_ge {A} (n : nat) (l : list A) :
  (List.length l <= n)%nat -> firstn n l = l.
Proof.
  revert n. induction l as [|x l IH]; intros [|n] H; simpl in *; try reflexivity.
  - lia.
  - f_equal. apply IH. lia.
Qed.

(** The chunk the loop cuts at index [i] is the next [chunk] elements, or
    what is left of the slice. *)
Lemma slice_chunk {A} (s : list A) (i chunk : Z) :
  0 <= i < GoInt.slice_len s -> 0 < chunk ->
  slice s i (if i + chunk >? GoInt.slice_len s then GoInt.slice_len s else i + chunk)
  = Some (firstn (Z.to_nat chunk) (skipn (Z.to_nat i) s)).
Proof.
  unfold slice, GoInt.slice_len. intros Hi Hc.
  destruct (i + chunk >? Z.of_nat (List.length s)) eqn:E.
  - apply Z.gtb_lt in E.
    replace ((0 <=? i) && (i <=? Z.of_nat (List.length s))
             && (Z.of_nat (List.length s) <=? Z.of_nat (List.length s))) with true
      by (symmetry; rewrite !andb_true_iff, !Z.leb_le; lia).
    f_equal. rewrite !firstn_all_ge; try reflexivity; rewrite length_skipn; lia.
  - assert (i + chunk <= Z.of_nat (List.length s)) by (rewrite Z.gtb_ltb, Z.ltb_ge in E; lia).
    replace ((0 <=? i) && (i <=? i + chunk) && (i + chunk <=? Z.of_nat (List.length s)))
      with true by (symmetry; rewrite !andb_true_iff, !Z.leb_le; lia).
    do 2 f_equal. lia.
Qed.

Lemma firstn_skipn_nonempty {A} (s : list A) (a c : nat) :
  (a < List.length s)%nat -> (0 < c)%nat -> firstn c (skipn a s) <> [].
Proof.
  intros Ha Hc E. apply (f_equal (@List.length A)) in E.
  rewrite length_firstn, length_skipn in E. simpl in E. lia.
Qed.

(** ** The batched insert *)

Lemma insert_rpms_app (a b tbl : list Rpm) :
  insert_rpms (a ++ b) tbl =
  (fst (insert_rpms b (fst (insert_rpms a tbl))),
   snd (insert_rpms a tbl) + snd (insert_rpms b (fst (insert_rpms a tbl)))).
Proof.
  revert tbl. induction a as [|x a IH]; intros tbl; simpl.
  - destruct (insert_rpms b tbl); reflexivity.
  - destruct (has_checksum (rpm_Checksum x) tbl).
    + apply IH.
    + rewrite IH. destruct (insert_rpms a (tbl ++ [x])) as [t1 n1]. simpl.
      f_equal. lia.
Qed.

Lemma insert_rpms_count (rows tbl : list Rpm) :
  0 <= snd (insert_rpms rows tbl) <= Z.of_nat (List.length rows).
Proof.
  revert tbl. induction rows as [|x rows IH]; intros tbl; simpl.
  - lia.
  - destruct (has_checksum (rpm_Checksum x) tbl).
    + specialize (IH tbl). lia.
    + specialize (IH (tbl ++ [x])). destruct (insert_rpms rows (tbl ++ [x])). simpl in *. lia.
Qed.

Section BeforeCreate.

Variable NewString : nat -> string.

Lemma before_create_app (k : nat) (a b : list Rpm) :
  before_create NewString k (a ++ b) =
  before_create NewString k a ++ before_create NewString (k + List.length a) b.
Proof.
  revert k. induction a as [|x a IH]; intros k; simpl.
  - rewrite Nat.add_0_r. reflexivity.
  - rewrite IH. do 3 f_equal. lia.
Qed.

Lemma before_create_length (k : nat) (a : list Rpm) :
  List.length (before_create NewString k a) = List.length a.
Proof. revert k. induction a; intros; simpl; auto. Qed.

Lemma before_create_checksums (k : nat) (a : list Rpm) :
  map rpm_Checksum (before_create NewString k a) = map rpm_Checksum a.
Proof. revert k. induction a; intros; simpl; f_equal; auto. Qed.

End BeforeCreate.

Lemma set_rpms_same (t : Tables) : set_rpms t (rpms t) = t.
Proof. destruct t; reflexivity. Qed.

Lemma firstn_add_skipn {A} (n m : nat) (l : list A) :
  firstn (n + m) l = firstn n l ++ firstn m (skipn n l).
Proof.
  revert l. induction n as [|n IH]; intros l; simpl.
  - reflexivity.
  - destruct l as [|x l]; simpl.
    + rewrite firstn_nil. reflexivity.
    + f_equal. apply IH.
Qed.

Lemma skipn_add_skipn {A} (n m : nat) (l : list A) :
  skipn (n + m) l = skipn m (skipn n l).
Proof.
  revert l. induction n as [|n IH]; intros l; simpl.
  - reflexivity.
  - destruct l as [|x l]; simpl.
    + rewrite skipn_nil. reflexivity.
    + apply IH.
Qed.

Section PagedRpmInsertFacts.

Variable NewString : nat -> string.
Variable fault : nat -> option string.
Variable r : rpmDaoImpl.
Variable pkgs : list Rpm.

Hypothesis Hdao : valid_dao r.
Hypothesis Hfits : GoInt.fits pkgs.

Let c : nat := Z.to_nat (chunk r).

Lemma chunk_at_nonempty (a : nat) : (a < List.length pkgs)%nat -> chunk_at r pkgs a <> [].
Proof.
  intros Ha. apply firstn_skipn_nonempty; [exact Ha|].
  unfold chunk. unfold valid_dao in Hdao. lia.
Qed.

Lemma create_rpms_nonempty (rows : list Rpm) (db : DB) :
  rows <> [] ->
  create_rpms NewString fault rows db =
  match fault (statements db) with
  | Some e =>
      (mkDB (tables db) (S (statements db)) (uuids db + List.length rows), Err e)
  | None =>
      (mkDB (set_rpms (tables db) (fst (bulk_insert NewString rows db)))
            (S (statements db)) (uuids db + List.length rows),
       Ok (snd (bulk_insert NewString rows db)))
  end.
Proof.
  intros Hne. destruct rows as [|x rows]; [congruence|].
  unfold create_rpms, exec, bulk_insert. cbn [statements tables uuids].
  destruct (fault (statements db)); [reflexivity|].
  destruct (insert_rpms _ _); reflexivity.
Qed.

(** One turn of the loop at an index inside the slice: no addition wraps
    around, the slice expression is in bounds, and the chunk is not empty. *)
Lemma loop_step (fuel a : nat) (count : Z) (db : DB) :
  (a < List.length pkgs)%nat -> (a = 0%nat \/ c <= a)%nat ->
  PagedRpmInsert_loop NewString fault r pkgs (S fuel) (Z.of_nat a) count db =
  match create_rpms NewString fault (chunk_at r pkgs a) db with
  | (db', Err e) => Done db' (count, Some e)
  | (db', Ok rowsAffected) =>
      PagedRpmInsert_loop NewString fault r pkgs fuel (Z.of_nat (a + c))
                          (GoInt.add count rowsAffected) db'
  end.
Proof.
  intros Ha Hj. unfold valid_dao in Hdao. unfold GoInt.fits, GoInt.slice_len in Hfits.
  assert (Hadd : GoInt.add (Z.of_nat a) (chunk r) = Z.of_nat a + chunk r).
  { apply add_in_range. unfold GoInt.in_range, GoInt.min_int, GoInt.max_int in *.
    unfold c, chunk in *. lia. }
  cbn [PagedRpmInsert_loop]. unfold GoInt.slice_len at 1.
  replace (Z.of_nat a <? Z.of_nat (List.length pkgs)) with true
    by (symmetry; apply Z.ltb_lt; lia).
  rewrite Hadd, slice_chunk by (unfold GoInt.slice_len, chunk; lia).
  rewrite Nat2Z.id. fold (chunk_at r pkgs a).
  replace (Z.of_nat a + chunk r) with (Z.of_nat (a + c)) by (unfold c, chunk in *; lia).
  reflexivity.
Qed.

Lemma loop_exit (fuel : nat) (i count : Z) (db : DB) :
  GoInt.slice_len pkgs <= i ->
  PagedRpmInsert_loop NewString fault r pkgs (S fuel) i count db = Done db (count, None).
Proof.
  intros Hi. cbn [PagedRpmInsert_loop].
  replace (i <? GoInt.slice_len pkgs) with false by (symmetry; apply Z.ltb_ge; lia).
  reflexivity.
Qed.

(** While the store answers, the loop inserts what is left of the slice as
    one INSERT of all of it would. *)
Lemma loop_all (fuel : nat) : forall (a : nat) (count : Z) (db : DB),
  (forall n, (statements db <= n)%nat -> fault n = None) ->
  (a = 0%nat \/ c <= a)%nat ->
  0 <= count <= Z.of_nat a ->
  (List.length (skipn a pkgs) < fuel)%nat ->
  exists db',
    PagedRpmInsert_loop NewString fault r pkgs fuel (Z.of_nat a) count db =
      Done db' (count + snd (bulk_insert NewString (skipn a pkgs) db), None)
    /\ tables db' = set_rpms (tables db) (fst (bulk_insert NewString (skipn a pkgs) db))
    /\ uuids db' = (uuids db + List.length (skipn a pkgs))%nat
    /\ (statements db <= statements db')%nat.
Proof.
  induction fuel as [|fuel IH]; intros a count db Hnf Hj Hcount Hfuel; [lia|].
  destruct (Nat.lt_ge_cases a (List.length pkgs)) as [Ha|Ha].
  - rewrite loop_step by assumption.
    rewrite create_rpms_nonempty by (apply chunk_at_nonempty; exact Ha).
    rewrite (Hnf (statements db)) by lia.
    pose proof (insert_rpms_count (before_create NewString (uuids db) (chunk_at r pkgs a))
                                  (rpms (tables db))) as Hn.
    rewrite before_create_length in Hn. fold (bulk_insert NewString (chunk_at r pkgs a) db) in Hn.
    assert (Hlen : (List.length (chunk_at r pkgs a) <= c)%nat)
      by (unfold chunk_at; rewrite length_firstn; lia).
    assert (Hpos : chunk_at r pkgs a <> []) by (apply chunk_at_nonempty; exact Ha).
    assert (Hlen' : (0 < List.length (chunk_at r pkgs a))%nat)
      by (destruct (chunk_at r pkgs a); [congruence | simpl; lia]).
    assert (Hsplit : skipn a pkgs = chunk_at r pkgs a ++ skipn (a + c) pkgs).
    { unfold chunk_at. rewrite skipn_add_skipn. symmetry. apply firstn_skipn. }
    unfold GoInt.fits, GoInt.slice_len in Hfits.
    assert (Hle : (List.length (chunk_at r pkgs a) <= List.length pkgs)%nat)
      by (unfold chunk_at; rewrite length_firstn, length_skipn; lia).
    rewrite add_in_range
      by (unfold GoInt.in_range, GoInt.min_int, GoInt.max_int; lia).
    set (db1 := mkDB _ _ _).
    destruct (IH (a + c)%nat (count + snd (bulk_insert NewString (chunk_at r pkgs a) db)) db1)
      as (db' & Hrun & Htab & Huu & Hst).
    + intros n Hn'. apply Hnf. subst db1. simpl in Hn'. lia.
    + right. lia.
    + lia.
    + rewrite Hsplit, length_app in Hfuel. lia.
    + exists db'. rewrite Hrun, Htab, Huu. subst db1. cbn [tables uuids statements] in *.
      rewrite Hsplit. unfold bulk_insert. cbn [tables uuids rpms set_rpms].
      rewrite before_create_app, insert_rpms_app. cbn [fst snd].
      repeat split.
      * do 2 f_equal. lia.
      * rewrite length_app. lia.
      * lia.
  - rewrite loop_exit by (unfold GoInt.slice_len; lia).
    rewrite skipn_all2 by lia. exists db. unfold bulk_insert. simpl.
    rewrite set_rpms_same. repeat split; [do 2 f_equal; lia | lia | lia].
Qed.

(** The loop returns whatever the store answers, and a turn inside the
    slice sends a statement. *)
Lemma loop_returns (fuel : nat) : forall (a : nat) (count : Z) (db : DB),
  (a = 0%nat \/ c <= a)%nat ->
  (List.length (skipn a pkgs) < fuel)%nat ->
  exists db' n e,
    PagedRpmInsert_loop NewString fault r pkgs fuel (Z.of_nat a) count db = Done db' (n, e)
    /\ (statements db <= statements db')%nat
    /\ ((a < List.length pkgs)%nat -> (statements db < statements db')%nat).
Proof.
  induction fuel as [|fuel IH]; intros a count db Hj Hfuel; [lia|].
  destruct (Nat.lt_ge_cases a (List.length pkgs)) as [Ha|Ha].
  - rewrite loop_step by assumption.
    pose proof (chunk_at_nonempty Ha) as Hne.
    rewrite create_rpms_nonempty by exact Hne.
    destruct (fault (statements db)) as [e|].
    + do 3 eexists. split; [reflexivity|]. simpl. lia.
    + set (db1 := mkDB _ _ _).
      destruct (IH (a + c)%nat
                   (GoInt.add count (snd (bulk_insert NewString (chunk_at r pkgs a) db))) db1)
        as (db' & n & e & Hrun & Hle & _).
      * right; lia.
      * assert (Hlen : (0 < List.length (chunk_at r pkgs a))%nat)
          by (destruct (chunk_at r pkgs a); [congruence | simpl; lia]).
        unfold chunk_at in Hlen. rewrite length_firstn, length_skipn in Hlen.
        rewrite length_skipn in *. fold c in Hlen. lia.
      * exists db', n, e. split; [exact Hrun|]. subst db1. simpl in Hle. lia.
  - rewrite loop_exit by (unfold GoInt.slice_len; lia).
    do 3 eexists. split; [reflexivity|]. lia.
Qed.

(** When the store answers [k] chunks and fails the next one, the loop
    stops there, with the count of the [k] chunks and the store's error. *)
Lemma loop_fail (e : string) (k : nat) : forall (fuel a : nat) (count : Z) (db : DB),
  (a = 0%nat \/ c <= a)%nat ->
  0 <= count <= Z.of_nat a ->
  (forall j, (j < k)%nat -> fault (statements db + j) = None) ->
  fault (statements db + k) = Some e ->
  (a + k * c < List.length pkgs)%nat ->
  (k < fuel)%nat ->
  exists db',
    PagedRpmInsert_loop NewString fault r pkgs fuel (Z.of_nat a) count db =
      Done db' (count + snd (bulk_insert NewString (firstn (k * c) (skipn a pkgs)) db),
                Some e)
    /\ tables db' =
         set_rpms (tables db)
                  (fst (bulk_insert NewString (firstn (k * c) (skipn a pkgs)) db))
    /\ statements db' = (statements db + k + 1)%nat.
Proof.
  induction k as [|k IH]; intros fuel a count db Hj Hcount Hgood Hbad Hk Hfuel;
    (destruct fuel as [|fuel]; [lia|]).
  - rewrite Nat.add_0_r in Hbad.
    rewrite loop_step by (assumption || lia).
    rewrite create_rpms_nonempty by (apply chunk_at_nonempty; lia).
    rewrite Hbad. eexists. split; [|split].
    + simpl. unfold bulk_insert. simpl. do 2 f_equal. lia.
    + simpl. unfold bulk_insert. simpl. rewrite set_rpms_same. reflexivity.
    + simpl. lia.
  - assert (Ha : (a < List.length pkgs)%nat) by lia.
    rewrite loop_step by assumption.
    rewrite create_rpms_nonempty by (apply chunk_at_nonempty; exact Ha).
    pose proof (Hgood 0%nat ltac:(lia)) as Hfirst.
    rewrite Nat.add_0_r in Hfirst. rewrite Hfirst.
    pose proof (insert_rpms_count (before_create NewString (uuids db) (chunk_at r pkgs a))
                                  (rpms (tables db))) as Hn.
    rewrite before_create_length in Hn. fold (bulk_insert NewString (chunk_at r pkgs a) db) in Hn.
    assert (Hlen : (List.length (chunk_at r pkgs a) <= c)%nat)
      by (unfold chunk_at; rewrite length_firstn; lia).
    assert (Hle : (List.length (chunk_at r pkgs a) <= List.length pkgs)%nat)
      by (unfold chunk_at; rewrite length_firstn, length_skipn; lia).
    unfold GoInt.fits, GoInt.slice_len in Hfits.
    rewrite add_in_range
      by (unfold GoInt.in_range, GoInt.min_int, GoInt.max_int; lia).
    set (db1 := mkDB _ _ _).
    destruct (IH fuel (a + c)%nat (count + snd (bulk_insert NewString (chunk_at r pkgs a) db)) db1)
      as (db' & Hrun & Htab & Hst).
    + right. lia.
    + lia.
    + intros j Hjk. subst db1. simpl. rewrite <- (Hgood (S j)) by lia. f_equal. lia.
    + subst db1. simpl. rewrite <- Hbad. f_equal. lia.
    + simpl in Hk. lia.
    + lia.
    + exists db'. rewrite Hrun, Htab, Hst. subst db1. cbn [tables uuids statements].
      replace (S k * c)%nat with (c + k * c)%nat by (simpl; lia).
      rewrite firstn_add_skipn, <- skipn_add_skipn.
      change (firstn c (skipn a pkgs)) with (chunk_at r pkgs a).
      unfold bulk_insert. cbn [tables uuids rpms set_rpms].
      rewrite before_create_app, insert_rpms_app. cbn [fst snd].
      repeat split.
      * do 2 f_equal. lia.
      * lia.
Qed.

End PagedRpmInsertFacts.

Lemma slice_len_zero {A} (s : list A) : (GoInt.slice_len s =? 0) = true <-> s = [].
Proof.
  unfold GoInt.slice_len. rewrite Z.eqb_eq. destruct s; simpl; split; intros H;
    (reflexivity || discriminate || lia).
Qed.

(** While the store answers, PagedRpmInsert does what one INSERT of the whole
    slice would do, whatever the chunk size. *)
Lemma PagedRpmInsert_all (NewString : nat -> string) (fault : nat -> option string)
  (r : rpmDaoImpl) (pkgs : list Rpm) (db : DB) :
  valid_dao r -> GoInt.fits pkgs ->
  (forall n, (statements db <= n)%nat -> fault n = None) ->
  exists db',
    PagedRpmInsert NewString fault r pkgs db =
      Done db' (snd (bulk_insert NewString pkgs db), None)
    /\ tables db' = set_rpms (tables db) (fst (bulk_insert NewString pkgs db))
    /\ uuids db' = (uuids db + List.length pkgs)%nat
    /\ (statements db <= statements db')%nat.
Proof.
  intros Hdao Hfits Hnf. unfold PagedRpmInsert.
  destruct (GoInt.slice_len pkgs =? 0) eqn:E.
  - apply slice_len_zero in E. subst pkgs. exists db. unfold bulk_insert. simpl.
    rewrite set_rpms_same. repeat split; lia.
  - destruct (@loop_all NewString fault r pkgs Hdao Hfits (S (List.length pkgs)) 0%nat 0 db)
      as (db' & Hrun & Htab & Huu & Hst); try assumption.
    + left; reflexivity.
    + simpl; lia.
    + simpl; lia.
    + exists db'. cbn [skipn] in *. change (Z.of_nat 0) with 0 in Hrun.
      rewrite Hrun, Z.add_0_l. auto.
Qed.

Lemma has_checksum_app (c : string) (l1 l2 : list Rpm) :
  has_checksum c (l1 ++ l2) = has_checksum c l1 || has_checksum c l2.
Proof. apply existsb_app. Qed.

(** Rows of pairwise distinct checksums: each one is inserted unless the
    table had its checksum before the statement. *)
Lemma insert_rpms_count_NoDup (rows tbl : list Rpm) :
  NoDup (map rpm_Checksum rows) ->
  snd (insert_rpms rows tbl) =
  Z.of_nat (List.length rows)
  - Z.of_nat (List.length (filter (fun ck => has_checksum ck tbl) (map rpm_Checksum rows))).
Proof.
  revert tbl. induction rows as [|x rows IH]; intros tbl Hnd; simpl.
  - reflexivity.
  - inversion Hnd as [|? ? Hx Hnd']; subst.
    destruct (has_checksum (rpm_Checksum x) tbl) eqn:E.
    + rewrite IH by assumption. simpl. lia.
    + specialize (IH (tbl ++ [x]) Hnd').
      destruct (insert_rpms rows (tbl ++ [x])) as [t n]. simpl in *. rewrite IH.
      rewrite (filter_ext_in (fun ck => has_checksum ck (tbl ++ [x]))
                             (fun ck => has_checksum ck tbl)).
      * lia.
      * intros ck Hin. rewrite has_checksum_app. simpl.
        destruct (String.eqb (rpm_Checksum x) ck) eqn:Eq.
        -- apply String.eqb_eq in Eq. subst ck. contradiction.
        -- rewrite !orb_false_r. reflexivity.
Qed.

(** The fuel PagedRpmInsert gives its loop is enough for every chunk size:
    a chunk size of zero ends in gorm's refusal of an empty slice, a
    negative one in a slice expression out of bounds. *)
Lemma PagedRpmInsert_fuel_suffices (NewString : nat -> string)
  (fault : nat -> option string) (r : rpmDaoImpl) (pkgs : list Rpm) (db : DB) :
  GoInt.in_range (pagedRpmInsertsLimit r) -> GoInt.fits pkgs ->
  PagedRpmInsert NewString fault r pkgs db <> OutOfFuel.
Proof.
  intros Hr Hfits.
  destruct (Z_lt_le_dec 0 (pagedRpmInsertsLimit r)) as [Hpos|Hneg].
  - assert (Hdao : valid_dao r) by (unfold valid_dao, GoInt.in_range in *; lia).
    unfold PagedRpmInsert. destruct (GoInt.slice_len pkgs =? 0); [discriminate|].
    destruct (@loop_returns NewString fault r pkgs Hdao Hfits
                (S (List.length pkgs)) 0%nat 0 db) as (db' & n & e & Hrun & _).
    + left; reflexivity.
    + simpl; lia.
    + change (Z.of_nat 0) with 0 in Hrun. rewrite Hrun. discriminate.
  - unfold PagedRpmInsert. destruct (GoInt.slice_len pkgs =? 0) eqn:E; [discriminate|].
    apply Z.eqb_neq in E. cbn [PagedRpmInsert_loop]. unfold chunk.
    assert (Hlen : 0 < GoInt.slice_len pkgs) by (unfold GoInt.slice_len in *; lia).
    replace (0 <? GoInt.slice_len pkgs) with true by (symmetry; apply Z.ltb_lt; exact Hlen).
    rewrite add_in_range by (rewrite Z.add_0_l; exact Hr). rewrite Z.add_0_l.
    replace (pagedRpmInsertsLimit r >? GoInt.slice_len pkgs) with false
      by (symmetry; rewrite Z.gtb_ltb; apply Z.ltb_ge; lia).
    unfold slice. destruct (Z.eq_dec (pagedRpmInsertsLimit r) 0) as [E0|E0].
    + rewrite E0.
      replace ((0 <=? 0) && (0 <=? 0) && (0 <=? GoInt.slice_len pkgs)) with true
        by (symmetry; rewrite !andb_true_iff, !Z.leb_le; lia).
      discriminate.
    + replace ((0 <=? 0) && (0 <=? pagedRpmInsertsLimit r)
               && (pagedRpmInsertsLimit r <=? GoInt.slice_len pkgs)) with false
        by (symmetry; rewrite !andb_false_iff, !Z.leb_gt; lia).
      discriminate.
Qed.

(** *** What one INSERT adds *)

Lemma before_create_In (NewString : nat -> string) (rows : list Rpm) : forall k x,
  In x (before_create NewString k rows) ->
  exists p u, In p rows /\ x = with_uuid p u.
Proof.
  induction rows as [|p rows IH]; intros k x Hin; simpl in Hin; [contradiction|].
  destruct Hin as [<-|Hin].
  - exists p, (NewString k). split; [left|]; reflexivity.
  - destruct (IH _ _ Hin) as (q & u & Hq & E). exists q, u. split; [right|]; assumption.
Qed.

(** INSERT ... ON CONFLICT (checksum) DO NOTHING appends: the table keeps
    its rows, in place, and gains rows of new, pairwise distinct checksums,
    as many as it reports; afterwards it has the checksum of every row it
    was given. *)
Lemma insert_rpms_appends (rows : list Rpm) : forall tbl,
  exists added,
    insert_rpms rows tbl = (tbl ++ added, Z.of_nat (List.length added))
    /\ (forall x, In x added -> In x rows /\ has_checksum (rpm_Checksum x) tbl = false)
    /\ NoDup (map rpm_Checksum added)
    /\ (forall y, In y rows -> has_checksum (rpm_Checksum y) (tbl ++ added) = true).
Proof.
  induction rows as [|y rows IH]; intros tbl; simpl.
  - exists []. rewrite app_nil_r. split; [reflexivity|]. split; [intros x []|].
    split; [constructor | intros y []].
  - destruct (has_checksum (rpm_Checksum y) tbl) eqn:E.
    + destruct (IH tbl) as (added & Hrun & Hin & Hnd & Hall). exists added.
      split; [exact Hrun|]. split; [|split; [exact Hnd|]].
      * intros x Hx. destruct (Hin x Hx). auto.
      * intros z [<-|Hz]; [|apply Hall; exact Hz].
        rewrite has_checksum_app, E. reflexivity.
    + destruct (IH (tbl ++ [y])) as (added & Hrun & Hin & Hnd & Hall). exists (y :: added).
      rewrite Hrun, <- app_assoc. split; [|split; [|split]].
      * simpl. f_equal. lia.
      * intros x [<-|Hx]; [auto|]. destruct (Hin x Hx) as [Hr Hc].
        rewrite has_checksum_app in Hc. apply orb_false_iff in Hc. tauto.
      * simpl. constructor; [|exact Hnd]. intros Hy. apply in_map_iff in Hy.
        destruct Hy as (x & Ex & Hx). destruct (Hin x Hx) as [_ Hc].
        rewrite has_checksum_app in Hc. apply orb_false_iff in Hc. destruct Hc as [_ Hc].
        simpl in Hc. rewrite Ex, String.eqb_refl in Hc. discriminate.
      * intros z [<-|Hz].
        -- rewrite has_checksum_app. simpl. rewrite String.eqb_refl. simpl.
           apply orb_true_r.
        -- specialize (Hall z Hz). rewrite <- app_assoc in Hall. exact Hall.
Qed.

(** ** Claims about PagedRpmInsert and GetRpmDao *)

(** C9. PagedRpmInsert on an empty slice returns count 0 and a nil error and
    leaves the store as it was: no statement is issued, no UUID drawn, no
    table touched, whatever the DAO and the state of the store.  A slice
    that is not empty does reach the store: the call issues at least one
    statement. *)
Theorem PagedRpmInsert_empty :
  (forall NewString fault r db,
      PagedRpmInsert NewString fault r [] db = Done db (0, None))
  /\ (forall NewString fault r (pkgs : list Rpm) db,
        valid_dao r -> GoInt.fits pkgs -> pkgs <> [] ->
        exists db' n e,
          PagedRpmInsert NewString fault r pkgs db = Done db' (n, e)
          /\ (statements db < statements db')%nat).
Proof.
  split; [reflexivity|].
  intros NewString fault r pkgs db Hdao Hfits Hne. unfold PagedRpmInsert.
  destruct (GoInt.slice_len pkgs =? 0) eqn:E.
  - apply slice_len_zero in E. contradiction.
  - destruct (@loop_returns NewString fault r pkgs Hdao Hfits
                (S (List.length pkgs)) 0%nat 0 db) as (db' & n & e & Hrun & _ & Hlt).
    + left; reflexivity.
    + simpl; lia.
    + exists db', n, e. split; [exact Hrun|]. apply Hlt.
      destruct pkgs; [contradiction | simpl; lia].
Qed.

(** C2. While the store answers, PagedRpmInsert on N packages of pairwise
    distinct checksums, M of which the rpms table already holds, returns
    N - M and no error; and with any two positive chunk sizes it returns the
    same count and leaves the same tables. *)
Theorem PagedRpmInsert_count_chunk_independent (NewString : nat -> string)
  (r r' : rpmDaoImpl) (pkgs : list Rpm) (db : DB) :
  valid_dao r -> valid_dao r' -> GoInt.fits pkgs ->
  exists db1 db2 n,
    PagedRpmInsert NewString no_fault r pkgs db = Done db1 (n, None)
    /\ PagedRpmInsert NewString no_fault r' pkgs db = Done db2 (n, None)
    /\ tables db1 = tables db2
    /\ (NoDup (map rpm_Checksum pkgs) ->
        n = Z.of_nat (List.length pkgs)
            - Z.of_nat (List.length
                (filter (fun ck => has_checksum ck (rpms (tables db)))
                        (map rpm_Checksum pkgs)))).
Proof.
  intros Hr Hr' Hfits.
  destruct (@PagedRpmInsert_all NewString no_fault r pkgs db Hr Hfits)
    as (db1 & Hrun1 & Htab1 & _); [reflexivity|].
  destruct (@PagedRpmInsert_all NewString no_fault r' pkgs db Hr' Hfits)
    as (db2 & Hrun2 & Htab2 & _); [reflexivity|].
  exists db1, db2, (snd (bulk_insert NewString pkgs db)).
  repeat split; try assumption.
  - congruence.
  - intros Hnd. unfold bulk_insert.
    rewrite insert_rpms_count_NoDup by (rewrite before_create_checksums; exact Hnd).
    rewrite before_create_length, before_create_checksums. reflexivity.
Qed.

(** C8. Let the store answer the first [k] chunk inserts of a call and fail
    the next one with [e], that chunk being inside the slice.  Then
    PagedRpmInsert returns [e] together with the count of the [k] chunks
    completed before the failure, and that count is the number of rows rpms
    has gained: the rows that were there stay in place, every row added is a
    row of those [k] chunks (with the identifier it was given) whose checksum
    rpms did not have, no two rows added have the same checksum, every
    checksum of those [k] chunks is in rpms, and no other table changes.
    The count and the tables are also what the call returns and leaves on
    just those packages when nothing fails.  Exactly [k + 1] statements were
    issued: no chunk after the failing one is sent. *)
Theorem PagedRpmInsert_stops_at_failing_chunk (NewString : nat -> string)
  (fault : nat -> option string) (r : rpmDaoImpl) (pkgs : list Rpm) (db : DB)
  (k : nat) (e : string) :
  valid_dao r -> GoInt.fits pkgs ->
  (k * Z.to_nat (pagedRpmInsertsLimit r) < List.length pkgs)%nat ->
  (forall j, (j < k)%nat -> fault (statements db + j)%nat = None) ->
  fault (statements db + k)%nat = Some e ->
  exists db' db_k added,
    PagedRpmInsert NewString fault r pkgs db = Done db' (Z.of_nat (List.length added), Some e)
    /\ PagedRpmInsert NewString no_fault r
         (firstn (k * Z.to_nat (pagedRpmInsertsLimit r)) pkgs) db
       = Done db_k (Z.of_nat (List.length added), None)
    /\ tables db' = tables db_k
    /\ statements db' = (statements db + k + 1)%nat
    /\ tables db' = mkTables (rpms (tables db) ++ added) (repositories_rpms (tables db))
                             (repositories (tables db))
                             (repository_configurations (tables db))
    /\ (forall x, In x added ->
          has_checksum (rpm_Checksum x) (rpms (tables db)) = false
          /\ exists p u, In p (firstn (k * Z.to_nat (pagedRpmInsertsLimit r)) pkgs)
                         /\ x = with_uuid p u)
    /\ NoDup (map rpm_Checksum added)
    /\ (forall p, In p (firstn (k * Z.to_nat (pagedRpmInsertsLimit r)) pkgs) ->
          has_checksum (rpm_Checksum p) (rpms (tables db')) = true).
Proof.
  intros Hdao Hfits Hk Hgood Hbad.
  set (done := firstn (k * Z.to_nat (pagedRpmInsertsLimit r)) pkgs).
  assert (Hfits' : GoInt.fits done).
  { unfold GoInt.fits, GoInt.slice_len in *. subst done. rewrite length_firstn. lia. }
  destruct (@PagedRpmInsert_all NewString no_fault r done db Hdao Hfits')
    as (db_k & Hrun_k & Htab_k & _); [reflexivity|].
  destruct (@loop_fail NewString fault r pkgs Hdao Hfits e k
              (S (List.length pkgs)) 0%nat 0 db)
    as (db' & Hrun & Htab & Hst); try assumption.
  - left; reflexivity.
  - simpl; lia.
  - unfold valid_dao in Hdao. nia.
  - cbn [skipn] in *. change (Z.of_nat 0) with 0 in Hrun. unfold chunk in *.
    fold done in Hrun, Htab. rewrite Z.add_0_l in Hrun.
    unfold bulk_insert in Hrun, Htab, Hrun_k, Htab_k.
    destruct (insert_rpms_appends (before_create NewString (uuids db) done)
                                  (rpms (tables db)))
      as (added & Hins & Hin & Hnd & Hall).
    rewrite Hins in Hrun, Htab, Hrun_k, Htab_k. cbn [fst snd] in Hrun, Htab, Hrun_k, Htab_k.
    exists db', db_k, added.
    split.
    { unfold PagedRpmInsert.
      replace (GoInt.slice_len pkgs =? 0) with false
        by (symmetry; apply Z.eqb_neq; unfold GoInt.slice_len; lia).
      exact Hrun. }
    split; [exact Hrun_k|]. split; [congruence|]. split; [exact Hst|].
    split; [rewrite Htab; reflexivity|]. split; [|split; [exact Hnd|]].
    + intros x Hx. destruct (Hin x Hx) as [Hrow Hc]. split; [exact Hc|].
      apply before_create_In in Hrow. exact Hrow.
    + intros p Hp. rewrite Htab. cbn [set_rpms rpms].
      assert (Hy : In (rpm_Checksum p)
                      (map rpm_Checksum (before_create NewString (uuids db) done))).
      { rewrite before_create_checksums. apply in_map. exact Hp. }
      apply in_map_iff in Hy. destruct Hy as (y & Ey & Hy). rewrite <- Ey.
      apply Hall. exact Hy.
Qed.

Lemma GetRpmDao_valid (DefaultLimit configured : Z) (options : option RpmDaoOptions) :
  0 < DefaultLimit -> GoInt.in_range DefaultLimit -> GoInt.in_range configured ->
  go_int_options options ->
  valid_dao (GetRpmDao DefaultLimit configured options).
Proof.
  unfold valid_dao, GetRpmDao, go_int_options, GoInt.in_range.
  intros Hpos Hdef Hconf Hopt.
  destruct options as [[[v|]]|];
    match goal with |- context [?x >? 0] => destruct (Z.gtb_spec x 0) end;
    simpl; lia.
Qed.

(** C10. With a positive default constant, the DAO GetRpmDao builds (from no
    options, from options without a limit, or from any limit, positive or
    not) has a strictly positive chunk size.  Hence inside a slice the loop
    index strictly grows at every turn, without wrapping around, and
    PagedRpmInsert returns on every slice and every store, failing or not. *)
Theorem GetRpmDao_chunk_positive_loop_terminates (DefaultLimit configured : Z)
  (options : option RpmDaoOptions) :
  0 < DefaultLimit -> GoInt.in_range DefaultLimit -> GoInt.in_range configured ->
  go_int_options options ->
  let r := GetRpmDao DefaultLimit configured options in
  0 < pagedRpmInsertsLimit r
  /\ (forall (pkgs : list Rpm) (k : Z),
        GoInt.fits pkgs -> 0 <= k -> k * chunk r < GoInt.slice_len pkgs ->
        k * chunk r < GoInt.add (k * chunk r) (chunk r))
  /\ (forall NewString fault (pkgs : list Rpm) (db : DB),
        GoInt.fits pkgs ->
        exists db' n e, PagedRpmInsert NewString fault r pkgs db = Done db' (n, e)).
Proof.
  intros Hpos Hdef Hconf Hopt r.
  pose proof (GetRpmDao_valid options Hpos Hdef Hconf Hopt) as Hdao. fold r in Hdao.
  split; [apply Hdao|]. split.
  - intros pkgs k Hfits Hk Hi. unfold valid_dao in Hdao.
    unfold GoInt.fits in Hfits. unfold chunk in *.
    assert (Hj : k = 0 \/ pagedRpmInsertsLimit r <= k * pagedRpmInsertsLimit r) by nia.
    rewrite add_in_range; [lia|].
    unfold GoInt.in_range, GoInt.min_int, GoInt.max_int in *. nia.
  - intros NewString fault pkgs db Hfits. unfold PagedRpmInsert.
    destruct (GoInt.slice_len pkgs =? 0); [eauto|].
    destruct (@loop_returns NewString fault r pkgs Hdao Hfits
                (S (List.length pkgs)) 0%nat 0 db) as (db' & n & e & Hrun & _).
    + left; reflexivity.
    + simpl; lia.
    + eauto.
Qed.

(** ** The reconciliation *)

Lemma inb_In (a : string) (l : list string) : inb a l = true <-> In a l.
Proof.
  unfold inb. rewrite existsb_exists. split.
  - intros (x & Hin & E). apply String.eqb_eq in E. subst. exact Hin.
  - intros Hin. exists a. split; [exact Hin | apply String.eqb_refl].
Qed.

Lemma inb_false (a : string) (l : list string) : inb a l = false <-> ~ In a l.
Proof.
  rewrite <- inb_In. destruct (inb a l); split; intros; congruence.
Qed.

Lemma stringInSlice_inb (a : string) (l : list string) : stringInSlice a l = inb a l.
Proof.
  unfold stringInSlice, inb. induction l as [|b l IH]; simpl; [reflexivity|].
  rewrite IH, String.eqb_sym. reflexivity.
Qed.

Lemma filter_all {A} (f : A -> bool) (l : list A) :
  (forall x, In x l -> f x = true) -> filter f l = l.
Proof.
  induction l as [|x l IH]; intros H; simpl; [reflexivity|].
  rewrite (H x) by (left; reflexivity). f_equal. apply IH. intros y Hy. apply H. right; exact Hy.
Qed.

Lemma filter_none {A} (f : A -> bool) (l : list A) :
  (forall x, In x l -> f x = false) -> filter f l = [].
Proof.
  induction l as [|x l IH]; intros H; simpl; [reflexivity|].
  rewrite (H x) by (left; reflexivity). apply IH. intros y Hy. apply H. right; exact Hy.
Qed.

Lemma filter_absorb {A} (f g : A -> bool) (l : list A) :
  (forall x, In x l -> f x = true -> g x = true) ->
  filter f (filter g l) = filter f l.
Proof.
  induction l as [|x l IH]; intros H; simpl; [reflexivity|].
  destruct (g x) eqn:G, (f x) eqn:F; simpl; rewrite ?F.
  - f_equal. apply IH. intros y Hy. apply H. right; exact Hy.
  - apply IH. intros y Hy. apply H. right; exact Hy.
  - rewrite (H x) in G by (auto; left; reflexivity). discriminate.
  - apply IH. intros y Hy. apply H. right; exact Hy.
Qed.

Lemma has_checksum_In (ck : string) (l : list Rpm) :
  has_checksum ck l = true <-> exists x, In x l /\ rpm_Checksum x = ck.
Proof.
  unfold has_checksum. rewrite existsb_exists. split; intros (x & Hin & E); exists x;
    (split; [exact Hin|]); [apply String.eqb_eq in E | apply String.eqb_eq]; exact E.
Qed.

(** *** Insert-or-ignore on rpms *)

Lemma insert_rpms_keeps (rows tbl : list Rpm) (x : Rpm) :
  In x tbl -> In x (fst (insert_rpms rows tbl)).
Proof.
  revert tbl. induction rows as [|y rows IH]; intros tbl Hin; simpl; [exact Hin|].
  destruct (has_checksum (rpm_Checksum y) tbl).
  - apply IH. exact Hin.
  - specialize (IH (tbl ++ [y])). destruct (insert_rpms rows (tbl ++ [y])). simpl in *.
    apply IH. apply in_or_app. left; exact Hin.
Qed.

Lemma insert_rpms_has (rows tbl : list Rpm) (y : Rpm) :
  In y rows -> has_checksum (rpm_Checksum y) (fst (insert_rpms rows tbl)) = true.
Proof.
  revert tbl. induction rows as [|z rows IH]; intros tbl Hin; simpl; [contradiction|].
  destruct Hin as [->|Hin].
  - destruct (has_checksum (rpm_Checksum y) tbl) eqn:E.
    + apply has_checksum_In in E. destruct E as (x & Hx & E).
      apply has_checksum_In. exists x. split; [|exact E]. apply insert_rpms_keeps. exact Hx.
    + pose proof (@insert_rpms_keeps rows (tbl ++ [y]) y) as K.
      destruct (insert_rpms rows (tbl ++ [y])). simpl in *.
      apply has_checksum_In. exists y. split; [|reflexivity].
      apply K. apply in_or_app. right. left. reflexivity.
  - destruct (has_checksum (rpm_Checksum z) tbl).
    + apply IH. exact Hin.
    + specialize (IH (tbl ++ [z]) Hin). destruct (insert_rpms rows (tbl ++ [z])). exact IH.
Qed.

(** *** Insert-or-ignore on repositories_rpms *)

Lemma same_assoc_eq (a b : RepositoryRpm) : same_assoc a b = true <-> a = b.
Proof.
  unfold same_assoc. rewrite andb_true_iff, !String.eqb_eq.
  destruct a, b; simpl. split.
  - intros [-> ->]. reflexivity.
  - intros E. inversion E. auto.
Qed.

Lemma existsb_same_assoc (a : RepositoryRpm) (l : list RepositoryRpm) :
  existsb (same_assoc a) l = true <-> In a l.
Proof.
  rewrite existsb_exists. split.
  - intros (b & Hin & E). apply same_assoc_eq in E. subst. exact Hin.
  - intros Hin. exists a. split; [exact Hin | apply same_assoc_eq; reflexivity].
Qed.

Lemma insert_assocs_In (rows tbl : list RepositoryRpm) (a : RepositoryRpm) :
  In a (fst (insert_assocs rows tbl)) <-> In a tbl \/ In a rows.
Proof.
  revert tbl. induction rows as [|b rows IH]; intros tbl; simpl.
  - tauto.
  - destruct (existsb (same_assoc b) tbl) eqn:E.
    + rewrite IH. apply existsb_same_assoc in E. split; [tauto|].
      intros [H|[->|H]]; auto.
    + specialize (IH (tbl ++ [b])). destruct (insert_assocs rows (tbl ++ [b])).
      simpl in *. rewrite IH, in_app_iff. simpl. tauto.
Qed.

Lemma insert_assocs_all_present (rows tbl : list RepositoryRpm) :
  (forall a, In a rows -> In a tbl) -> insert_assocs rows tbl = (tbl, 0).
Proof.
  induction rows as [|b rows IH]; intros H; simpl; [reflexivity|].
  replace (existsb (same_assoc b) tbl) with true
    by (symmetry; apply existsb_same_assoc; apply H; left; reflexivity).
  apply IH. intros a Ha. apply H. right; exact Ha.
Qed.

Lemma set_repositories_rpms_same (t : Tables) :
  set_repositories_rpms t (repositories_rpms t) = t.
Proof. destruct t; reflexivity. Qed.

(** *** deleteUnneeded on the tables *)

Section DeleteUnneeded.

Variable R : string.
Variable keep : list string.
Variable t : Tables.

Lemma unneeded_spec (u : string) :
  In u (unneeded R keep t) <->
  (exists m, In m (repositories_rpms t) /\ RepositoryUUID m = R /\ RpmUUID m = u)
  /\ ~ In u keep.
Proof.
  unfold unneeded, difference. rewrite filter_In, in_map_iff, negb_true_iff, inb_false.
  split.
  - intros [(m & E & Hm) Hk]. apply filter_In in Hm. destruct Hm as [Hm Hr].
    apply String.eqb_eq in Hr. split; [exists m; auto | exact Hk].
  - intros [(m & Hm & Hr & E) Hk]. split; [|exact Hk]. exists m. split; [exact E|].
    apply filter_In. split; [exact Hm | apply String.eqb_eq; exact Hr].
Qed.

Lemma assocs_after_spec (m : RepositoryRpm) :
  In m (assocs_after R keep t) <->
  In m (repositories_rpms t) /\ (RepositoryUUID m = R -> In (RpmUUID m) keep).
Proof.
  unfold assocs_after. rewrite filter_In, negb_true_iff, andb_false_iff.
  rewrite String.eqb_neq, inb_false, unneeded_spec. split.
  - intros [Hm H]. split; [exact Hm|]. intros Hr. destruct H as [H|H]; [contradiction|].
    destruct (in_dec string_dec (RpmUUID m) keep) as [Hin|Hout]; [exact Hin|].
    exfalso. apply H. split; [|exact Hout]. exists m. auto.
  - intros [Hm H]. split; [exact Hm|].
    destruct (string_dec (RepositoryUUID m) R) as [Hr|Hr]; [right | left; exact Hr].
    intros [_ Hout]. apply Hout. apply H. exact Hr.
Qed.

Lemma dangling_after_spec (u : string) :
  In u (dangling_after R keep t) <->
  (exists x, In x (rpms t) /\ rpm_UUID x = u)
  /\ In u (unneeded R keep t)
  /\ (forall m, In m (assocs_after R keep t) -> RpmUUID m <> u).
Proof.
  unfold dangling_after. rewrite in_map_iff. split.
  - intros (x & E & Hx). apply filter_In in Hx. destruct Hx as [Hx Hc].
    apply andb_true_iff in Hc. destruct Hc as [Hno Hin].
    apply negb_true_iff in Hno. apply inb_In in Hin. subst u.
    split; [exists x; auto|]. split; [exact Hin|].
    intros m Hm E. assert (existsb (fun m => String.eqb (rpm_UUID x) (RpmUUID m)) (assocs_after R keep t)
                            = true); [|congruence].
    apply existsb_exists. exists m. split; [exact Hm|]. apply String.eqb_eq. auto.
  - intros ((x & Hx & E) & Hin & Hno). exists x. split; [exact E|].
    apply filter_In. split; [exact Hx|]. apply andb_true_iff. split.
    + apply negb_true_iff. destruct (existsb _ (assocs_after R keep t)) eqn:Ex; [|reflexivity].
      apply existsb_exists in Ex. destruct Ex as (m & Hm & Em). apply String.eqb_eq in Em.
      exfalso. apply (Hno m Hm). congruence.
    + apply inb_In. rewrite E. exact Hin.
Qed.

Lemma rpms_after_spec (x : Rpm) :
  In x (rpms_after R keep t) <-> In x (rpms t) /\ ~ In (rpm_UUID x) (dangling_after R keep t).
Proof.
  unfold rpms_after. rewrite filter_In, negb_true_iff, inb_false. reflexivity.
Qed.

End DeleteUnneeded.

Lemma length_zero_nil {A} (l : list A) : (List.length l =? 0)%nat = true <-> l = [].
Proof. destruct l; simpl; split; intros; (reflexivity || discriminate). Qed.

(** While the store answers, deleteUnneeded succeeds and leaves
    [delete_tables]. *)
Lemma deleteUnneeded_no_fault (repo : Repository) (keep : list string) (db : DB) :
  exists db',
    deleteUnneeded no_fault repo keep db = (db', None)
    /\ tables db' = delete_tables (repo_UUID repo) keep (tables db)
    /\ uuids db' = uuids db.
Proof.
  unfold deleteUnneeded, pluck_rpm_uuids_of, delete_assocs, pluck_dangling, delete_rpms,
    query, exec, no_fault.
  cbn [tables statements uuids set_repositories_rpms repositories_rpms rpms
       repositories repository_configurations].
  fold (unneeded (repo_UUID repo) keep (tables db)).
  fold (assocs_after (repo_UUID repo) keep (tables db)).
  fold (dangling_after (repo_UUID repo) keep (tables db)).
  destruct (List.length _ =? 0)%nat eqn:E.
  - eexists. split; [reflexivity|]. split; [|reflexivity].
    cbn [tables]. unfold delete_tables, rpms_after. apply length_zero_nil in E.
    rewrite E. rewrite filter_all by reflexivity. reflexivity.
  - eexists. split; [reflexivity|]. split; reflexivity.
Qed.

(** Whatever the store answers, deleteUnneeded leaves the tables untouched,
    or with the unneeded associations removed, or with the dangling rpms
    removed as well. *)
Lemma deleteUnneeded_tables (fault : nat -> option string) (repo : Repository)
  (keep : list string) (db : DB) :
  let t := tables db in
  let t' := tables (fst (deleteUnneeded fault repo keep db)) in
  t' = t
  \/ t' = set_repositories_rpms t (assocs_after (repo_UUID repo) keep t)
  \/ t' = delete_tables (repo_UUID repo) keep t.
Proof.
  unfold deleteUnneeded, pluck_rpm_uuids_of, delete_assocs, pluck_dangling, delete_rpms,
    query, exec.
  cbn [tables statements uuids].
  destruct (fault (statements db)); [left; reflexivity|].
  cbn [tables statements uuids].
  destruct (fault (S (statements db))); [left; reflexivity|].
  cbn [tables statements uuids].
  destruct (fault (S (S (statements db)))); [right; left; reflexivity|].
  cbn [tables statements uuids set_repositories_rpms repositories_rpms rpms
       repositories repository_configurations].
  destruct (List.length _ =? 0)%nat; [right; left; reflexivity|].
  cbn [tables statements uuids].
  destruct (fault (S (S (S (statements db))))); [right; left; reflexivity|].
  right; right; reflexivity.
Qed.

(** C4. Take a package of the store that is associated with the repository
    and is not in the list handed to deleteUnneeded.  While the store
    answers, deleteUnneeded succeeds and removes that association; if the
    package had no association with any other repository it is deleted from
    rpms; if it had one with another repository, that association and the
    package both stay.  The package with another association stays in rpms
    even when statements of deleteUnneeded fail. *)
Theorem deleteUnneeded_collects_orphans_only (repo : Repository) (keep : list string)
  (db : DB) (x : Rpm) :
  In x (rpms (tables db)) ->
  In (mkRepositoryRpm (repo_UUID repo) (rpm_UUID x)) (repositories_rpms (tables db)) ->
  ~ In (rpm_UUID x) keep ->
  (exists db',
     deleteUnneeded no_fault repo keep db = (db', None)
     /\ ~ In (mkRepositoryRpm (repo_UUID repo) (rpm_UUID x)) (repositories_rpms (tables db'))
     /\ ((forall m, In m (repositories_rpms (tables db)) ->
                    RpmUUID m = rpm_UUID x -> RepositoryUUID m = repo_UUID repo) ->
         ~ In x (rpms (tables db')))
     /\ (forall m, In m (repositories_rpms (tables db)) ->
                   RpmUUID m = rpm_UUID x -> RepositoryUUID m <> repo_UUID repo ->
         In m (repositories_rpms (tables db')) /\ In x (rpms (tables db'))))
  /\ (forall fault m,
        In m (repositories_rpms (tables db)) ->
        RpmUUID m = rpm_UUID x -> RepositoryUUID m <> repo_UUID repo ->
        In x (rpms (tables (fst (deleteUnneeded fault repo keep db))))).
Proof.
  intros Hx Hmem Hkeep.
  assert (Hstay : forall m, In m (repositories_rpms (tables db)) ->
            RpmUUID m = rpm_UUID x -> RepositoryUUID m <> repo_UUID repo ->
            In m (assocs_after (repo_UUID repo) keep (tables db))
            /\ In x (rpms_after (repo_UUID repo) keep (tables db))).
  { intros m Hm Eu Hr.
    assert (Hm' : In m (assocs_after (repo_UUID repo) keep (tables db)))
      by (apply assocs_after_spec; split; [exact Hm | intros; contradiction]).
    split; [exact Hm'|]. apply rpms_after_spec. split; [exact Hx|].
    intros Hd. apply dangling_after_spec in Hd. destruct Hd as (_ & _ & Hno).
    exact (Hno m Hm' Eu). }
  split.
  - destruct (deleteUnneeded_no_fault repo keep db) as (db' & Hrun & Htab & _).
    exists db'. split; [exact Hrun|]. rewrite Htab. cbn [delete_tables repositories_rpms rpms].
    split; [|split].
    + intros Hin. apply assocs_after_spec in Hin. destruct Hin as [_ Hin].
      apply Hkeep. apply Hin. reflexivity.
    + intros Honly Hin. apply rpms_after_spec in Hin. destruct Hin as [_ Hin].
      apply Hin. apply dangling_after_spec. split; [exists x; auto|]. split.
      * apply unneeded_spec. split; [|exact Hkeep]. eexists. split; [exact Hmem|]. auto.
      * intros m Hm Eu. apply assocs_after_spec in Hm. destruct Hm as [Hm Hk].
        apply Hkeep. rewrite <- Eu. apply Hk. apply Honly; assumption.
    + exact Hstay.
  - intros fault m Hm Eu Hr.
    destruct (deleteUnneeded_tables fault repo keep db) as [E|[E|E]]; rewrite E.
    + exact Hx.
    + exact Hx.
    + apply (Hstay m Hm Eu Hr).
Qed.

(** *** InsertForRepository on the tables *)

(** The run has returned: exhibit the store and the error it ends with,
    and settle what is said of the tables with [tac]. *)
Ltac run_ends tac := do 2 eexists; split; [reflexivity | tac].

Lemma FilteredConvert_length (pkgs : list YumPackage) (exclude : list string) :
  (List.length (FilteredConvert pkgs exclude) <= List.length pkgs)%nat.
Proof.
  induction pkgs as [|p pkgs IH]; simpl; [lia|].
  destruct (negb _); simpl; lia.
Qed.

Lemma FilteredConvert_complete (pkgs : list YumPackage) (exclude : list string)
  (p : YumPackage) :
  In p pkgs -> ~ In (yum_Checksum p) exclude ->
  exists x, In x (FilteredConvert pkgs exclude) /\ rpm_Checksum x = yum_Checksum p.
Proof.
  intros Hp Hex. eexists. split.
  - unfold FilteredConvert. apply in_flat_map. exists p. split; [exact Hp|].
    rewrite stringInSlice_inb. apply inb_false in Hex. rewrite Hex. left. reflexivity.
  - reflexivity.
Qed.

Lemma FilteredConvert_nil (pkgs : list YumPackage) (exclude : list string) :
  (forall p, In p pkgs -> In (yum_Checksum p) exclude) ->
  FilteredConvert pkgs exclude = [].
Proof.
  induction pkgs as [|p pkgs IH]; intros H; simpl; [reflexivity|].
  rewrite stringInSlice_inb.
  replace (inb (yum_Checksum p) exclude) with true
    by (symmetry; apply inb_In; apply H; left; reflexivity).
  simpl. apply IH. intros q Hq. apply H. right; exact Hq.
Qed.

(** The checksums plucked from rpms: those of the list that the table has. *)
Lemma plucked_checksums (checksums : list string) (tbl : list Rpm) (ck : string) :
  In ck (map rpm_Checksum (filter (named checksums) tbl)) <->
  In ck checksums /\ has_checksum ck tbl = true.
Proof.
  rewrite in_map_iff, has_checksum_In. unfold named. split.
  - intros (x & E & Hx). apply filter_In in Hx. destruct Hx as [Hx Hn].
    apply inb_In in Hn. subst ck. split; [exact Hn | exists x; auto].
  - intros [Hc (x & Hx & E)]. exists x. split; [exact E|]. apply filter_In.
    split; [exact Hx|]. apply inb_In. rewrite E. exact Hc.
Qed.

Section Reconcile.

Variable NewString : nat -> string.
Variable r : rpmDaoImpl.
Variable repoUuid : string.
Variable pkgs : list YumPackage.

Lemma InsertForRepository_not_found (fault : nat -> option string) (db : DB) :
  find (fun x => String.eqb (repo_UUID x) repoUuid) (repositories (tables db)) = None ->
  exists db' e,
    InsertForRepository NewString fault r repoUuid pkgs db = Done db' (0, Some e)
    /\ tables db' = tables db.
Proof.
  intros Hfind. unfold InsertForRepository, fetchRepo, query.
  destruct (fault (statements db)); [|rewrite Hfind]; run_ends reflexivity.
Qed.

Lemma InsertForRepository_no_fault (repo : Repository) (db : DB) :
  valid_dao r -> GoInt.fits pkgs ->
  find (fun x => String.eqb (repo_UUID x) repoUuid) (repositories (tables db)) = Some repo ->
  exists db',
    InsertForRepository NewString no_fault r repoUuid pkgs db =
      Done db' (snd (new_rpms NewString pkgs db),
                match wanted_uuids pkgs (fst (new_rpms NewString pkgs db)) with
                | [] => wrapf "failed to Create: " ErrEmptySlice
                | _ => None
                end)
    /\ tables db' = reconciled NewString pkgs repo db.
Proof.
  intros Hdao Hfits Hfind.
  unfold InsertForRepository, fetchRepo, pluck_by_checksum, query, no_fault.
  rewrite Hfind. cbn [tables statements uuids].
  fold (named (map yum_Checksum pkgs)).
  set (dbPkgs := FilteredConvert pkgs _).
  set (db2 := mkDB (tables db) (S (S (statements db))) (uuids db)).
  assert (Hfits' : GoInt.fits dbPkgs).
  { unfold GoInt.fits, GoInt.slice_len in *. subst dbPkgs.
    pose proof (FilteredConvert_length pkgs
      (map rpm_Checksum (filter (named (map yum_Checksum pkgs)) (rpms (tables db))))). lia. }
  destruct (@PagedRpmInsert_all NewString (fun _ => None) r dbPkgs db2 Hdao Hfits')
    as (db3 & Hrun & Htab & Huu & _); [reflexivity|].
  rewrite Hrun. change (bulk_insert NewString dbPkgs db2) with (new_rpms NewString pkgs db) in *.
  cbn [tables] in Htab. rewrite Htab. cbn [set_rpms rpms].
  fold (wanted_uuids pkgs (fst (new_rpms NewString pkgs db))).
  set (db4 := mkDB _ _ _).
  destruct (deleteUnneeded_no_fault repo (wanted_uuids pkgs (fst (new_rpms NewString pkgs db))) db4)
    as (db5 & Hdel & Htab5 & _).
  unfold no_fault in Hdel. rewrite Hdel.
  assert (Ht5 : tables db5 =
                delete_tables (repo_UUID repo) (wanted_uuids pkgs (fst (new_rpms NewString pkgs db)))
                              (set_rpms (tables db) (fst (new_rpms NewString pkgs db))))
    by (rewrite Htab5; reflexivity).
  unfold reconciled. cbv zeta. rewrite <- Ht5.
  destruct (wanted_uuids pkgs (fst (new_rpms NewString pkgs db))) as [|u us] eqn:Eu.
  - cbn [prepRepositoryRpms map create_assocs insert_assocs fst].
    eexists. split; [reflexivity|]. rewrite set_repositories_rpms_same. reflexivity.
  - cbn [prepRepositoryRpms map create_assocs]. unfold exec.
    destruct (insert_assocs _ _) as [l n] eqn:Ei.
    eexists. split; [reflexivity|]. reflexivity.
Qed.

End Reconcile.

(** *** A store that already agrees with the manifest *)

Lemma unneeded_nil (R : string) (keep : list string) (t : Tables) :
  (forall m, In m (repositories_rpms t) -> RepositoryUUID m = R -> In (RpmUUID m) keep) ->
  unneeded R keep t = [].
Proof.
  intros H. destruct (unneeded R keep t) as [|u l] eqn:E; [reflexivity|].
  assert (Hu : In u (unneeded R keep t)) by (rewrite E; left; reflexivity).
  apply unneeded_spec in Hu. destruct Hu as [(m & Hm & Hr & Eu) Hk].
  exfalso. apply Hk. rewrite <- Eu. apply H; assumption.
Qed.

Lemma delete_tables_noop (R : string) (keep : list string) (t : Tables) :
  (forall m, In m (repositories_rpms t) -> RepositoryUUID m = R -> In (RpmUUID m) keep) ->
  assocs_after R keep t = repositories_rpms t /\ rpms_after R keep t = rpms t.
Proof.
  intros H. pose proof (@unneeded_nil R keep t H) as Eu.
  assert (Ea : assocs_after R keep t = repositories_rpms t).
  { unfold assocs_after. rewrite Eu. apply filter_all. intros m _.
    destruct (String.eqb (RepositoryUUID m) R); reflexivity. }
  split; [exact Ea|].
  assert (Ed : dangling_after R keep t = []).
  { unfold dangling_after. rewrite Eu. rewrite filter_none; [reflexivity|].
    intros x _. destruct (negb _); reflexivity. }
  unfold rpms_after. rewrite Ed. apply filter_all. reflexivity.
Qed.

Lemma deleteUnneeded_noop (fault : nat -> option string) (repo : Repository)
  (keep : list string) (db : DB) :
  (forall m, In m (repositories_rpms (tables db)) ->
             RepositoryUUID m = repo_UUID repo -> In (RpmUUID m) keep) ->
  tables (fst (deleteUnneeded fault repo keep db)) = tables db.
Proof.
  intros H. destruct (@delete_tables_noop (repo_UUID repo) keep (tables db) H) as [Ea Er].
  destruct (deleteUnneeded_tables fault repo keep db) as [E|[E|E]]; rewrite E.
  - reflexivity.
  - rewrite Ea. apply set_repositories_rpms_same.
  - unfold delete_tables. rewrite Ea, Er. destruct (tables db); reflexivity.
Qed.

Section Idempotence.

Variable NewString : nat -> string.
Variable r : rpmDaoImpl.
Variable repoUuid : string.
Variable pkgs : list YumPackage.

Let checksums : list string := map yum_Checksum pkgs.

(** On settled tables a run inserts nothing and changes no table, whether
    its statements fail or not. *)
Lemma InsertForRepository_settled (fault : nat -> option string) (repo : Repository)
  (db : DB) :
  find (fun x => String.eqb (repo_UUID x) repoUuid) (repositories (tables db)) = Some repo ->
  settled (repo_UUID repo) checksums (tables db) ->
  exists db' e,
    InsertForRepository NewString fault r repoUuid pkgs db = Done db' (0, e)
    /\ tables db' = tables db.
Proof.
  intros Hfind (Hhas & Hsub & Hsup).
  unfold InsertForRepository, fetchRepo, pluck_by_checksum, query.
  destruct (fault (statements db)); [run_ends reflexivity|].
  rewrite Hfind. cbn [tables statements uuids].
  destruct (fault (S (statements db))); [run_ends reflexivity|].
  fold checksums. fold (named checksums).
  rewrite FilteredConvert_nil.
  2:{ intros p Hp. apply plucked_checksums. split.
      - unfold checksums. apply in_map. exact Hp.
      - apply Hhas. unfold checksums. apply in_map. exact Hp. }
  match goal with
  | |- context [PagedRpmInsert ?a ?b ?c [] ?d] =>
      change (PagedRpmInsert a b c [] d) with (Done d (0, @None string))
  end.
  cbn [tables statements uuids].
  destruct (fault (S (S (statements db)))); [run_ends reflexivity|].
  set (rpmUuids := map rpm_UUID (filter (named checksums) (rpms (tables db)))) in *.
  set (db4 := mkDB _ _ _).
  pose proof (@deleteUnneeded_noop fault repo rpmUuids db4 Hsub) as Hnoop.
  destruct (deleteUnneeded fault repo rpmUuids db4) as [db5 [e|]];
    cbn [fst] in Hnoop; [run_ends ltac:(exact Hnoop)|].
  change (tables db4) with (tables db) in Hnoop.
  destruct rpmUuids as [|u us] eqn:Eu.
  - cbn [prepRepositoryRpms map create_assocs]. run_ends ltac:(exact Hnoop).
  - cbn [prepRepositoryRpms map create_assocs]. unfold exec.
    destruct (fault (statements db5)); [run_ends ltac:(exact Hnoop)|].
    rewrite insert_assocs_all_present.
    + run_ends ltac:(cbn [tables]; rewrite set_repositories_rpms_same; exact Hnoop).
    + intros a Ha. rewrite Hnoop.
      change (In a (map (fun v => mkRepositoryRpm (repo_UUID repo) v) (u :: us))) in Ha.
      apply in_map_iff in Ha. destruct Ha as (v & <- & Hv). apply Hsup. exact Hv.
Qed.

(** A run that meets no failure leaves settled tables. *)
Lemma reconciled_settled (repo : Repository) (db : DB) :
  settled (repo_UUID repo) checksums (reconciled NewString pkgs repo db).
Proof.
  set (R := repo_UUID repo).
  set (ins := fst (new_rpms NewString pkgs db)).
  set (W := wanted_uuids pkgs ins).
  set (t3 := set_rpms (tables db) ins).
  assert (Hins : forall ck, In ck checksums -> has_checksum ck ins = true).
  { intros ck Hck. subst ins. unfold new_rpms, bulk_insert. fold checksums.
    destruct (has_checksum ck (rpms (tables db))) eqn:E.
    - apply has_checksum_In in E. destruct E as (x & Hx & E). apply has_checksum_In.
      exists x. split; [apply insert_rpms_keeps; exact Hx | exact E].
    - unfold checksums in Hck. apply in_map_iff in Hck. destruct Hck as (p & Ep & Hp).
      destruct (@FilteredConvert_complete pkgs
                  (map rpm_Checksum (filter (named checksums) (rpms (tables db)))) p Hp)
        as (x & Hx & Ex).
      { rewrite plucked_checksums. intros [_ H]. congruence. }
      assert (Hy : In ck (map rpm_Checksum
                (before_create NewString (uuids db)
                   (FilteredConvert pkgs
                      (map rpm_Checksum (filter (named checksums) (rpms (tables db)))))))).
      { rewrite before_create_checksums. apply in_map_iff. exists x. split; congruence. }
      apply in_map_iff in Hy. destruct Hy as (y & Ey & Hy). rewrite <- Ey.
      apply insert_rpms_has. exact Hy. }
  assert (Hwanted : forall x, In x ins -> named checksums x = true ->
                              ~ In (rpm_UUID x) (dangling_after R W t3)).
  { intros x Hx Hn Hd. apply dangling_after_spec in Hd. destruct Hd as (_ & Hu & _).
    apply unneeded_spec in Hu. destruct Hu as [_ Hu]. apply Hu.
    unfold W, wanted_uuids. fold checksums. apply in_map. apply filter_In. auto. }
  assert (Hsame : map rpm_UUID (filter (named checksums) (rpms_after R W t3)) = W).
  { unfold rpms_after, W, wanted_uuids. fold checksums. cbn [t3 set_rpms rpms].
    rewrite filter_absorb; [reflexivity|].
    intros x Hx Hn. apply negb_true_iff, inb_false. apply Hwanted; assumption. }
  unfold settled, reconciled. cbv zeta. fold ins. fold W. fold t3. fold R.
  cbn [set_repositories_rpms delete_tables rpms repositories_rpms].
  rewrite Hsame. split; [|split].
  - intros ck Hck. specialize (Hins ck Hck). apply has_checksum_In in Hins.
    destruct Hins as (x & Hx & E). apply has_checksum_In. exists x. split; [|exact E].
    apply rpms_after_spec. split; [exact Hx|]. apply Hwanted; [exact Hx|].
    unfold named. apply inb_In. rewrite E. exact Hck.
  - intros m Hm Hr. apply insert_assocs_In in Hm. destruct Hm as [Hm|Hm].
    + apply assocs_after_spec in Hm. apply Hm. exact Hr.
    + unfold prepRepositoryRpms in Hm. apply in_map_iff in Hm.
      destruct Hm as (u & <- & Hu). exact Hu.
  - intros u Hu. apply insert_assocs_In. right. unfold prepRepositoryRpms.
    apply in_map_iff. exists u. split; [reflexivity | exact Hu].
Qed.

Lemma reconciled_repositories (repo : Repository) (db : DB) :
  repositories (reconciled NewString pkgs repo db) = repositories (tables db).
Proof. reflexivity. Qed.

End Idempotence.

(** ** Claims about InsertForRepository *)

(** C1. Run InsertForRepository on a store that answers every statement,
    then run it again with the same repository and manifest, the store now
    failing or not.  Both runs return; the second one reports 0 new packages
    and leaves every table, repositories_rpms and rpms in particular, as
    the first run left it. *)
Theorem InsertForRepository_idempotent (NewString : nat -> string)
  (fault2 : nat -> option string) (r : rpmDaoImpl) (repoUuid : string)
  (pkgs : list YumPackage) (db : DB) :
  valid_dao r -> GoInt.fits pkgs ->
  exists db1 n1 e1 db2 e2,
    InsertForRepository NewString no_fault r repoUuid pkgs db = Done db1 (n1, e1)
    /\ InsertForRepository NewString fault2 r repoUuid pkgs db1 = Done db2 (0, e2)
    /\ repositories_rpms (tables db2) = repositories_rpms (tables db1)
    /\ rpms (tables db2) = rpms (tables db1)
    /\ tables db2 = tables db1.
Proof.
  intros Hdao Hfits.
  destruct (find (fun x => String.eqb (repo_UUID x) repoUuid) (repositories (tables db)))
    as [repo|] eqn:Hfind.
  - destruct (@InsertForRepository_no_fault NewString r repoUuid pkgs repo db
                Hdao Hfits Hfind) as (db1 & Hrun1 & Htab1).
    destruct (@InsertForRepository_settled NewString r repoUuid pkgs fault2 repo db1)
      as (db2 & e2 & Hrun2 & Htab2).
    + rewrite Htab1, reconciled_repositories. exact Hfind.
    + rewrite Htab1. apply reconciled_settled.
    + do 5 eexists. split; [exact Hrun1|]. split; [exact Hrun2|].
      rewrite Htab2. auto.
  - destruct (@InsertForRepository_not_found NewString r repoUuid pkgs no_fault db Hfind)
      as (db1 & e1 & Hrun1 & Htab1).
    rewrite <- Htab1 in Hfind.
    destruct (@InsertForRepository_not_found NewString r repoUuid pkgs fault2 db1 Hfind)
      as (db2 & e2 & Hrun2 & Htab2).
    do 5 eexists. split; [exact Hrun1|]. split; [exact Hrun2|].
    rewrite Htab2. auto.
Qed.

(** C3. On a store that answers every statement, InsertForRepository with
    an empty manifest, for a repository that exists, reports 0 new packages,
    removes every association of that repository and no other, and deletes
    exactly the packages that were associated with that repository and with
    no other; but it returns the error of the final Create, which gorm
    refuses for an empty slice of associations, not a nil error. *)
Theorem InsertForRepository_empty_manifest (NewString : nat -> string) (r : rpmDaoImpl)
  (repoUuid : string) (repo : Repository) (db : DB) :
  find (fun x => String.eqb (repo_UUID x) repoUuid) (repositories (tables db)) = Some repo ->
  exists db',
    InsertForRepository NewString no_fault r repoUuid [] db =
      Done db' (0, Some "failed to Create: empty slice found")
    /\ (forall m, In m (repositories_rpms (tables db')) <->
                  In m (repositories_rpms (tables db))
                  /\ RepositoryUUID m <> repo_UUID repo)
    /\ (forall x, In x (rpms (tables db')) <->
                  In x (rpms (tables db))
                  /\ ~ (In (mkRepositoryRpm (repo_UUID repo) (rpm_UUID x))
                           (repositories_rpms (tables db))
                        /\ forall m, In m (repositories_rpms (tables db)) ->
                                     RpmUUID m = rpm_UUID x ->
                                     RepositoryUUID m = repo_UUID repo)).
Proof.
  intros Hfind.
  unfold InsertForRepository, fetchRepo, pluck_by_checksum, query, no_fault.
  rewrite Hfind. cbn [tables statements uuids map FilteredConvert flat_map].
  match goal with
  | |- context [PagedRpmInsert ?a ?b ?c [] ?d] =>
      change (PagedRpmInsert a b c [] d) with (Done d (0, @None string))
  end.
  cbn [tables statements uuids].
  rewrite (@filter_none _ _ (rpms (tables db))) by reflexivity.
  cbn [map]. set (db4 := mkDB _ _ _).
  destruct (deleteUnneeded_no_fault repo [] db4) as (db5 & Hdel & Htab5 & _).
  unfold no_fault in Hdel. rewrite Hdel.
  cbn [prepRepositoryRpms map create_assocs].
  exists db5. split; [reflexivity|]. rewrite Htab5.
  change (tables db4) with (tables db).
  cbn [delete_tables repositories_rpms rpms]. split.
  - intros m. rewrite assocs_after_spec. simpl. split.
    + intros [Hm H]. split; [exact Hm|]. intros E. exact (H E).
    + intros [Hm H]. split; [exact Hm|]. intros E. exact (H E).
  - intros x. rewrite rpms_after_spec, dangling_after_spec, unneeded_spec.
    split; intros [Hx H]; (split; [exact Hx|]); intros C; apply H.
    + destruct C as [Hmem Honly]. split; [exists x; auto|]. split.
      * split; [|intros []]. eexists. split; [exact Hmem|]. auto.
      * intros m Hm Eu. apply assocs_after_spec in Hm. destruct Hm as [Hm Hk].
        apply (Hk (Honly m Hm Eu)).
    + destruct C as (_ & [(m & Hm & Hr & Eu) _] & Hno). split.
      * destruct m as [mr mu]. simpl in *. subst. exact Hm.
      * intros m' Hm' Eu'.
        destruct (string_dec (RepositoryUUID m') (repo_UUID repo)) as [E|E]; [exact E|].
        exfalso. apply (Hno m'); [|exact Eu'].
        apply assocs_after_spec. split; [exact Hm' | intros; contradiction].
Qed.

(** ** Claims about Search *)

(** *** Names in byte order *)

Lemma ascii_compare_refl (a : ascii) : Ascii.compare a a = Eq.
Proof. unfold Ascii.compare. apply N.compare_refl. Qed.

Lemma ascii_compare_trans (a b c : ascii) :
  Ascii.compare a b = Lt -> Ascii.compare b c = Lt -> Ascii.compare a c = Lt.
Proof.
  unfold Ascii.compare. rewrite !N.compare_lt_iff. apply N.lt_trans.
Qed.

Lemma string_compare_lt_trans (s1 : string) : forall s2 s3,
  String.compare s1 s2 = Lt -> String.compare s2 s3 = Lt -> String.compare s1 s3 = Lt.
Proof.
  induction s1 as [|a s1 IH]; intros [|b s2] [|c s3]; simpl; try congruence.
  destruct (Ascii.compare a b) eqn:Eab; try discriminate;
    destruct (Ascii.compare b c) eqn:Ebc; try discriminate; intros H1 H2.
  - apply Ascii.compare_eq_iff in Eab, Ebc. subst. rewrite ascii_compare_refl.
    eapply IH; eassumption.
  - apply Ascii.compare_eq_iff in Eab. subst. rewrite Ebc. reflexivity.
  - apply Ascii.compare_eq_iff in Ebc. subst. rewrite Eab. reflexivity.
  - rewrite (ascii_compare_trans _ _ _ Eab Ebc). reflexivity.
Qed.

Lemma string_compare_refl (s : string) : String.compare s s = Eq.
Proof. induction s as [|a s IH]; simpl; [reflexivity|]. rewrite ascii_compare_refl. exact IH. Qed.

Lemma leb_cases (s1 s2 : string) :
  String.leb s1 s2 = true <-> s1 = s2 \/ String.ltb s1 s2 = true.
Proof.
  unfold String.leb, String.ltb. destruct (String.compare s1 s2) eqn:E.
  - apply String.compare_eq_iff in E. tauto.
  - tauto.
  - split; [discriminate|]. intros [->|H]; [|discriminate].
    rewrite string_compare_refl in E. discriminate.
Qed.

Lemma ltb_trans (s1 s2 s3 : string) :
  String.ltb s1 s2 = true -> String.ltb s2 s3 = true -> String.ltb s1 s3 = true.
Proof.
  unfold String.ltb. destruct (String.compare s1 s2) eqn:E1; try discriminate.
  destruct (String.compare s2 s3) eqn:E2; try discriminate.
  rewrite (string_compare_lt_trans _ _ _ E1 E2). reflexivity.
Qed.

Lemma ltb_irrefl (s : string) : String.ltb s s = false.
Proof. unfold String.ltb. rewrite string_compare_refl. reflexivity. Qed.

Lemma leb_trans (s1 s2 s3 : string) :
  String.leb s1 s2 = true -> String.leb s2 s3 = true -> String.leb s1 s3 = true.
Proof.
  rewrite !leb_cases. intros [->|H1] [->|H2]; auto. right. eapply ltb_trans; eassumption.
Qed.

(** *** ORDER BY name and DISTINCT ON name *)

Lemma insert_by_name_In (x y : joined_row) (l : list joined_row) :
  In y (insert_by_name x l) <-> y = x \/ In y l.
Proof.
  induction l as [|z l IH]; simpl.
  - intuition congruence.
  - destruct (String.leb _ _); simpl; [intuition congruence|].
    rewrite IH. intuition congruence.
Qed.

Lemma insert_by_name_sorted (x : joined_row) (l : list joined_row) :
  StronglySorted name_le l -> StronglySorted name_le (insert_by_name x l).
Proof.
  induction l as [|z l IH]; intros Hs; simpl.
  - constructor; constructor.
  - inversion Hs as [|? ? Hl Hz]; subst.
    destruct (String.leb (row_name x) (row_name z)) eqn:E.
    + constructor; [exact Hs|]. constructor; [exact E|].
      eapply Forall_impl; [|exact Hz]. intros a Ha. unfold name_le in *.
      eapply leb_trans; eassumption.
    + constructor; [apply IH; exact Hl|].
      apply Forall_forall. intros a Ha. apply insert_by_name_In in Ha.
      destruct Ha as [->|Ha].
      * destruct (String.leb_total (row_name x) (row_name z)) as [H|H]; [congruence|exact H].
      * rewrite Forall_forall in Hz. apply Hz. exact Ha.
Qed.

Lemma order_by_name_sorted (l : list joined_row) : StronglySorted name_le (order_by_name l).
Proof.
  induction l as [|x l IH]; simpl; [constructor|]. apply insert_by_name_sorted. exact IH.
Qed.

Lemma order_by_name_In (y : joined_row) (l : list joined_row) :
  In y (order_by_name l) <-> In y l.
Proof.
  induction l as [|x l IH]; simpl; [tauto|]. rewrite insert_by_name_In, IH. intuition congruence.
Qed.

Lemma distinct_on_name_sorted (l : list joined_row) : forall prev,
  StronglySorted name_le l ->
  (forall p, prev = Some p -> Forall (fun y => String.leb p (row_name y) = true) l) ->
  StronglySorted name_lt (distinct_on_name prev l)
  /\ (forall p, prev = Some p ->
                Forall (fun y => String.ltb p (row_name y) = true) (distinct_on_name prev l))
  /\ (forall y, In y (distinct_on_name prev l) -> In y l).
Proof.
  induction l as [|x l IH]; intros prev Hs Hprev; simpl.
  - split; [constructor|]. split; [constructor | tauto].
  - inversion Hs as [|? ? Hl Hx]; subst.
    destruct (match prev with Some p => String.eqb p (row_name x) | None => false end) eqn:E.
    + destruct prev as [p|]; [|discriminate]. apply String.eqb_eq in E.
      destruct (IH (Some p) Hl) as (S1 & S2 & S3).
      { intros q [= <-]. rewrite E. exact Hx. }
      split; [exact S1|]. split; [exact S2|]. intros y Hy. right. apply S3. exact Hy.
    + destruct (IH (Some (row_name x)) Hl) as (S1 & S2 & S3).
      { intros q [= <-]. exact Hx. }
      split; [|split].
      * constructor; [exact S1|]. apply (S2 _ eq_refl).
      * intros p ->. apply String.eqb_neq in E. constructor.
        -- specialize (Hprev p eq_refl). inversion Hprev as [|? ? Hpx _]; subst.
           apply leb_cases in Hpx. destruct Hpx as [Hpx|Hpx]; [contradiction | exact Hpx].
        -- specialize (Hprev p eq_refl). inversion Hprev as [|? ? Hpx _]; subst.
           apply leb_cases in Hpx. destruct Hpx as [Hpx|Hpx]; [contradiction|].
           eapply Forall_impl; [|apply (S2 _ eq_refl)]. intros a Ha. simpl in Ha.
           eapply ltb_trans; eassumption.
      * intros y [->|Hy]; [left; reflexivity | right; apply S3; exact Hy].
Qed.

Lemma StronglySorted_firstn {A} (R : A -> A -> Prop) (n : nat) (l : list A) :
  StronglySorted R l -> StronglySorted R (firstn n l).
Proof.
  revert n. induction l as [|x l IH]; intros [|n] Hs; simpl; try constructor.
  - inversion Hs; subst. apply IH. assumption.
  - inversion Hs as [|? ? _ Hx]; subst. rewrite Forall_forall in *.
    intros y Hy. apply Hx. rewrite <- (firstn_skipn n l). apply in_or_app. left. exact Hy.
Qed.

Lemma ascending_NoDup (l : list SearchRpmResponse) :
  ascending l -> NoDup (map PackageName l).
Proof.
  induction l as [|x l IH]; intros Hs; simpl; [constructor|].
  inversion Hs as [|? ? Hl Hx]; subst. constructor; [|apply IH; exact Hl].
  intros Hin. apply in_map_iff in Hin. destruct Hin as (y & E & Hy).
  rewrite Forall_forall in Hx. specialize (Hx y Hy). rewrite E, ltb_irrefl in Hx.
  discriminate.
Qed.

(** The rows Search selects: strictly ascending names, so one row for a
    name, and no more rows than a positive limit. *)
Lemma search_select_ascending (orgID : string) (request : SearchRpmRequest)
  (urls : list string) (limit : Z) (t : Tables) :
  ascending (search_select orgID request urls limit t)
  /\ (0 < limit -> Z.of_nat (List.length (search_select orgID request urls limit t)) <= limit).
Proof.
  unfold search_select. split.
  - unfold limit_rows, ascending.
    assert (Hs : StronglySorted
                   (fun a b => String.ltb (PackageName a) (PackageName b) = true)
                   (map (fun row => mkSearchRpmResponse (row_name row)
                                                        (rpm_Summary (fst (fst row))))
                        (distinct_on_name None
                           (order_by_name
                              (filter (search_where orgID request urls) (search_join t)))))).
    { destruct (@distinct_on_name_sorted
                  (order_by_name (filter (search_where orgID request urls) (search_join t)))
                  None (order_by_name_sorted _)) as (Hs & _); [discriminate|].
      induction Hs as [|x l Hl IH Hx]; simpl; constructor; [exact IH|].
      rewrite Forall_forall in *. intros y Hy. apply in_map_iff in Hy.
      destruct Hy as (z & <- & Hz). simpl. apply Hx. exact Hz. }
    destruct (limit >? 0); [apply StronglySorted_firstn|]; exact Hs.
  - intros Hpos. unfold limit_rows.
    replace (limit >? 0) with true by (symmetry; apply Z.gtb_lt; lia).
    rewrite length_firstn. lia.
Qed.

(** The slice [urls] index by index: urls[2i] is the i-th URL of the request
    and urls[2i+1] is that URL with a slash appended. *)
Lemma search_urls_nth (requestURLs : list string) (i : nat) :
  nth_error (search_urls requestURLs) (2 * i) = nth_error requestURLs i
  /\ nth_error (search_urls requestURLs) (2 * i + 1)
     = option_map (fun url => String.append url "/") (nth_error requestURLs i).
Proof.
  revert i. induction requestURLs as [|url l IH]; intros i.
  - simpl. rewrite !nth_error_nil. split; reflexivity.
  - destruct i as [|i].
    + split; reflexivity.
    + replace (2 * S i)%nat with (S (S (2 * i))) by lia.
      replace (S (S (2 * i)) + 1)%nat with (S (S (2 * i + 1))) by lia.
      simpl nth_error. apply IH.
Qed.

Lemma search_urls_In (requestURLs : list string) (stored : string) :
  In stored (search_urls requestURLs) <->
  exists url, In url requestURLs /\ (stored = url \/ stored = String.append url "/").
Proof.
  unfold search_urls. rewrite in_flat_map. split.
  - intros (url & Hin & [E|[E|[]]]); exists url; auto.
  - intros (url & Hin & [E|E]); exists url; (split; [exact Hin|]); simpl; auto.
Qed.

Lemma distinct_on_name_covers (l : list joined_row) : forall prev x,
  In x l ->
  prev = Some (row_name x)
  \/ exists y, In y (distinct_on_name prev l) /\ row_name y = row_name x.
Proof.
  induction l as [|row l IH]; intros prev x Hx; [contradiction|]. simpl.
  destruct (match prev with Some p => String.eqb p (row_name row) | None => false end) eqn:E.
  - destruct prev as [p|]; [|discriminate]. apply String.eqb_eq in E.
    destruct Hx as [->|Hx]; [left; congruence|]. apply IH. exact Hx.
  - destruct Hx as [->|Hx]; [right; exists x; split; [left|]; reflexivity|].
    destruct (IH (Some (row_name row)) x Hx) as [Hp|(y & Hy & Ey)].
    + right. exists row. split; [left; reflexivity | congruence].
    + right. exists y. split; [right; exact Hy | exact Ey].
Qed.

(** The names Search selects are the names of the joined rows that pass
    its WHERE clause, when no limit cuts them. *)
Lemma search_select_names (orgID : string) (request : SearchRpmRequest)
  (urls : list string) (limit : Z) (t : Tables) :
  (forall resp, In resp (search_select orgID request urls limit t) ->
     exists row, In row (search_join t) /\ search_where orgID request urls row = true
                 /\ PackageName resp = row_name row)
  /\ (limit < 0 ->
      forall row, In row (search_join t) -> search_where orgID request urls row = true ->
                  In (row_name row) (map PackageName (search_select orgID request urls limit t))).
Proof.
  unfold search_select. split.
  - intros resp Hin.
    assert (Hin' : In resp
              (map (fun row => mkSearchRpmResponse (row_name row) (rpm_Summary (fst (fst row))))
                   (distinct_on_name None
                      (order_by_name
                         (filter (search_where orgID request urls) (search_join t)))))).
    { unfold limit_rows in Hin. destruct (limit >? 0); [|exact Hin].
      rewrite <- (firstn_skipn (Z.to_nat limit)). apply in_or_app. left. exact Hin. }
    apply in_map_iff in Hin'. destruct Hin' as (row & <- & Hrow).
    destruct (@distinct_on_name_sorted
                (order_by_name (filter (search_where orgID request urls) (search_join t)))
                None (order_by_name_sorted _)) as (_ & _ & Hsub); [discriminate|].
    apply Hsub, order_by_name_In, filter_In in Hrow. exists row. tauto.
  - intros Hlim row Hrow Hwhere. unfold limit_rows.
    replace (limit >? 0) with false by (symmetry; rewrite Z.gtb_ltb; apply Z.ltb_ge; lia).
    destruct (@distinct_on_name_covers
                (order_by_name (filter (search_where orgID request urls) (search_join t)))
                None row) as [Hp|(y & Hy & Ey)]; [|discriminate|].
    + apply order_by_name_In, filter_In. auto.
    + rewrite map_map. simpl. apply in_map_iff. exists y. auto.
Qed.

(** C5, as the code has it.  Search keeps a repository exactly when its
    stored URL is one of the request's URLs or one of them followed by a
    slash, no slash being removed from a request URL: every row returned
    comes from such a repository; a package of a visible repository stored
    under a request URL, or under it with a slash appended, is returned by
    name when no limit cuts the answer.  So a repository stored as
    "http://x/" is found by a request for "http://x", a repository stored
    as "http://x" is found by a request for "http://x" and is not found by
    a request for "http://x/". *)
Theorem Search_url_slash_appended_only :
  (forall fault orgID request limit db resp,
      In resp (fst (snd (Search fault orgID request limit db))) ->
      exists x repo c url,
        In (x, repo, c) (search_join (tables db))
        /\ PackageName resp = rpm_Name x
        /\ In url (URLs request)
        /\ (repo_URL repo = url \/ repo_URL repo = String.append url "/"))
  /\ (forall orgID request limit db x repo c url,
        orgID <> "" -> limit < 0 ->
        In (x, repo, c) (search_join (tables db)) ->
        (match c with Some c => String.eqb (rc_OrgID c) orgID | None => false end
         || repo_Public repo) = true ->
        like (String.append (Search_ request) "%") (rpm_Name x) = true ->
        In url (URLs request) ->
        (repo_URL repo = url \/ repo_URL repo = String.append url "/") ->
        In (rpm_Name x)
           (map PackageName (fst (snd (Search no_fault orgID request limit db)))))
  /\ snd (Search no_fault "acme" (mkSearchRpmRequest ["http://x"] "demo") 10
            (store_at "http://x/"))
     = ([mkSearchRpmResponse "demo-lib" "Demo library"], None)
  /\ snd (Search no_fault "acme" (mkSearchRpmRequest ["http://x"] "demo") 10
            (store_at "http://x"))
     = ([mkSearchRpmResponse "demo-lib" "Demo library"], None)
  /\ snd (Search no_fault "acme" (mkSearchRpmRequest ["http://x/"] "demo") 10
            (store_at "http://x"))
     = ([], None).
Proof.
  split; [|split; [|split; [|split]]].
  - intros fault orgID request limit db resp. unfold Search.
    destruct (String.eqb orgID ""); [intros []|].
    destruct (List.length (URLs request) =? 0)%nat; [intros []|].
    unfold query. destruct (fault (statements db)); [intros []|].
    cbn [fst snd]. intros Hin.
    apply (proj1 (search_select_names _ _ _ _ _)) in Hin.
    destruct Hin as ([[x repo] c] & Hjoin & Hwhere & Hname).
    unfold search_where in Hwhere. apply andb_true_iff in Hwhere.
    destruct Hwhere as [_ Hurl]. apply inb_In, search_urls_In in Hurl.
    destruct Hurl as (url & Hurl & Hor). exists x, repo, c, url. auto.
  - intros orgID request limit db x repo c url Horg Hlim Hjoin Hvis Hlike Hurl Hor.
    unfold Search. replace (String.eqb orgID "") with false
      by (symmetry; apply String.eqb_neq; exact Horg).
    destruct (URLs request) as [|u0 us] eqn:Eu; [contradiction|].
    cbn [List.length Nat.eqb]. unfold query, no_fault. cbn [fst snd]. rewrite <- Eu in *.
    apply (proj2 (search_select_names orgID request (search_urls (URLs request))
                                      limit (tables db)) Hlim (x, repo, c) Hjoin).
    unfold search_where. rewrite Hvis, Hlike. simpl.
    apply inb_In, search_urls_In. exists url. auto.
  - vm_compute. reflexivity.
  - vm_compute. reflexivity.
  - vm_compute. reflexivity.
Qed.

(** C5, as stated, fails in its second direction: a public repository stored
    as "http://x" holds demo-lib, and a Search for "http://x/" returns no
    row. *)
Lemma Search_request_slash_not_stripped :
  In "http://x/" (URLs (mkSearchRpmRequest ["http://x/"] "demo"))
  /\ map repo_URL (repositories (tables (store_at "http://x"))) = ["http://x"]
  /\ snd (Search no_fault "acme" (mkSearchRpmRequest ["http://x/"] "demo") 10
            (store_at "http://x"))
     = ([], None).
Proof. split; [left; reflexivity|]. split; vm_compute; reflexivity. Qed.

(** C6. For every call, the rows Search returns have strictly ascending
    names (so at most one row for a name, in ascending order) and are no
    more than a positive limit.  But the query orders by name only, so which
    row of a name survives DISTINCT ON is not decided by the epoch: here both
    packages match, the single row returned for demo-lib carries the summary
    of epoch 1, and epoch 2 is the highest; the ordering documented above
    the query would return the summary of epoch 2. *)
Theorem Search_keeps_lower_epoch_summary :
  (forall fault orgID request limit db,
      let rows := fst (snd (Search fault orgID request limit db)) in
      ascending rows
      /\ NoDup (map PackageName rows)
      /\ (0 < limit -> Z.of_nat (List.length rows) <= limit))
  /\ map rpm_Epoch (rpms (tables store_two_epochs)) = [1; 2]
  /\ snd (Search no_fault "acme" (mkSearchRpmRequest ["http://x"] "demo") 10
            store_two_epochs)
     = ([mkSearchRpmResponse "demo-lib" "Demo library, epoch 1"], None)
  /\ search_select_documented "acme" (mkSearchRpmRequest ["http://x"] "demo")
        (search_urls ["http://x"]) 10 (tables store_two_epochs)
     = [mkSearchRpmResponse "demo-lib" "Demo library, epoch 2"].
Proof.
  split; [|split; [|split]; vm_compute; reflexivity].
  intros fault orgID request limit db rows.
  assert (Hnil : ascending [] /\ NoDup (map PackageName [])
                 /\ (0 < limit -> Z.of_nat (@List.length SearchRpmResponse []) <= limit))
    by (split; [constructor | split; [constructor | simpl; lia]]).
  subst rows. unfold Search.
  destruct (String.eqb orgID ""); [exact Hnil|].
  destruct (List.length (URLs request) =? 0)%nat; [exact Hnil|].
  unfold query. destruct (fault (statements db)); [exact Hnil|].
  cbn [fst snd].
  destruct (search_select_ascending orgID request (search_urls (URLs request)) limit
                                    (tables db)) as [Ha Hl].
  split; [exact Ha|]. split; [apply ascending_NoDup; exact Ha | exact Hl].
Qed.

(** ** Claims about List *)

Lemma isOwnedRepository_not_owned (fault : nat -> option string)
  (orgID repositoryConfigUUID : string) (db : DB) :
  not_owned orgID repositoryConfigUUID db ->
  exists db' e,
    isOwnedRepository fault orgID repositoryConfigUUID db = (db', (false, e))
    /\ (fault (statements db) = None -> fault (S (statements db)) = None -> e = None).
Proof.
  intros Hno. unfold isOwnedRepository, query. cbn [tables statements uuids].
  destruct (fault (statements db)) as [e1|].
  - do 2 eexists. split; [reflexivity | discriminate].
  - cbn [tables statements uuids]. destruct (fault (S (statements db))) as [e2|].
    + do 2 eexists. split; [reflexivity | discriminate].
    + rewrite (filter_none _ _ Hno). do 2 eexists. split; reflexivity.
Qed.

(** C7, as the code has it.  When the configuration is not owned by the
    organization (it does not exist, or belongs to another one), List
    returns an error, the empty collection and a total of 0, whatever the
    store answers; for a non-empty orgID whose ownership query the store
    answers, that error is the not-owned error. *)
Theorem List_not_owned (fault : nat -> option string) (DBErrorToApi : string -> string)
  (orgID repositoryConfigUUID : string) (limit offset : Z) (db : DB) :
  not_owned orgID repositoryConfigUUID db ->
  exists db' e,
    List fault DBErrorToApi orgID repositoryConfigUUID limit offset db =
      (db', (emptyCollectionResponse, 0, Some e))
    /\ (orgID <> "" ->
        fault (statements db) = None -> fault (S (statements db)) = None ->
        e = not_owned_error repositoryConfigUUID).
Proof.
  intros Hno. unfold List.
  destruct (String.eqb_spec orgID "") as [E|E].
  - do 2 eexists. split; [reflexivity | contradiction].
  - destruct (isOwnedRepository_not_owned fault Hno) as (db1 & e & Hrun & Hnil).
    rewrite Hrun. destruct e as [e|].
    + do 2 eexists. split; [reflexivity|]. intros _ H1 H2.
      specialize (Hnil H1 H2). discriminate.
    + do 2 eexists. split; reflexivity.
Qed.

(** C7, as stated, fails for a caller without an organization: the
    configuration is not owned, and List answers with the error of its
    argument check, not with the not-owned error. *)
Lemma List_empty_org_not_NotOwned :
  not_owned "" "cfg-1" (store_at "http://x")
  /\ snd (List no_fault (fun e => e) "" "cfg-1" 10 0 (store_at "http://x"))
     = (emptyCollectionResponse, 0, Some "orgID can not be an empty string")
  /\ "orgID can not be an empty string" <> not_owned_error "cfg-1".
Proof.
  split; [intros c []|]. split; [reflexivity|]. vm_compute. discriminate.
Qed.

(** * The claims at concrete inputs *)

Lemma valid_dao_intro (n : Z) : (0 <? n) && (n <=? GoInt.max_int) = true -> valid_dao (mkRpmDao n).
Proof.
  unfold valid_dao. simpl. rewrite andb_true_iff, Z.ltb_lt, Z.leb_le. tauto.
Qed.

Lemma fits_intro {A} (s : list A) : (GoInt.slice_len s <? 2 ^ 62) = true -> GoInt.fits s.
Proof. unfold GoInt.fits. apply Z.ltb_lt. Qed.

Lemma in_range_intro (z : Z) :
  (GoInt.min_int <=? z) && (z <=? GoInt.max_int) = true -> GoInt.in_range z.
Proof. unfold GoInt.in_range. rewrite andb_true_iff, !Z.leb_le. tauto. Qed.

Lemma InsertForRepository_idempotent_witness :
  exists db1 n1 e1 db2 e2,
    InsertForRepository uuid_nth no_fault (mkRpmDao 2) "R1" manifest3 store0
      = Done db1 (n1, e1)
    /\ InsertForRepository uuid_nth no_fault (mkRpmDao 2) "R1" manifest3 db1
       = Done db2 (0, e2)
    /\ repositories_rpms (tables db2) = repositories_rpms (tables db1)
    /\ rpms (tables db2) = rpms (tables db1)
    /\ tables db2 = tables db1.
Proof.
  apply InsertForRepository_idempotent.
  - apply valid_dao_intro. reflexivity.
  - apply fits_intro. reflexivity.
Defined.

Lemma PagedRpmInsert_count_chunk_independent_witness :
  NoDup (map rpm_Checksum rows3) /\
  exists db1 db2 n,
    PagedRpmInsert uuid_nth no_fault (mkRpmDao 1) rows3 store0 = Done db1 (n, None)
    /\ PagedRpmInsert uuid_nth no_fault (mkRpmDao 2) rows3 store0 = Done db2 (n, None)
    /\ tables db1 = tables db2
    /\ (NoDup (map rpm_Checksum rows3) ->
        n = Z.of_nat (List.length rows3)
            - Z.of_nat (List.length
                (filter (fun ck => has_checksum ck (rpms (tables store0)))
                        (map rpm_Checksum rows3)))).
Proof.
  split.
  { repeat constructor; simpl; intuition discriminate. }
  apply PagedRpmInsert_count_chunk_independent.
  - apply valid_dao_intro. reflexivity.
  - apply valid_dao_intro. reflexivity.
  - apply fits_intro. reflexivity.
Defined.

Lemma PagedRpmInsert_empty_witness :
  PagedRpmInsert uuid_nth second_fails (mkRpmDao 2) [] store0 = Done store0 (0, None)
  /\ exists db' n e,
       PagedRpmInsert uuid_nth second_fails (mkRpmDao 2) rows3 store0 = Done db' (n, e)
       /\ (statements store0 < statements db')%nat.
Proof.
  split.
  - apply (proj1 PagedRpmInsert_empty).
  - apply (proj2 PagedRpmInsert_empty).
    + apply valid_dao_intro. reflexivity.
    + apply fits_intro. reflexivity.
    + discriminate.
Defined.

Lemma Search_url_slash_appended_only_witness :
  In "demo-lib"
     (map PackageName
        (fst (snd (Search no_fault "acme" (mkSearchRpmRequest ["http://x"] "demo") (-1)
                          (store_at "http://x/"))))).
Proof.
  apply (proj1 (proj2 Search_url_slash_appended_only) "acme"
           (mkSearchRpmRequest ["http://x"] "demo") (-1) (store_at "http://x/")
           (demo_rpm "u1" 0 "Demo library" "SHA1:aa")
           (mkRepository "R1" "http://x/" true) None "http://x").
  - discriminate.
  - lia.
  - left. reflexivity.
  - reflexivity.
  - reflexivity.
  - left. reflexivity.
  - right. reflexivity.
Defined.

Lemma InsertForRepository_empty_manifest_witness :
  exists db',
    InsertForRepository uuid_nth no_fault (mkRpmDao 2) "R1" [] store0 =
      Done db' (0, Some "failed to Create: empty slice found")
    /\ (forall m, In m (repositories_rpms (tables db')) <->
                  In m (repositories_rpms (tables store0)) /\ RepositoryUUID m <> "R1")
    /\ (forall x, In x (rpms (tables db')) <->
                  In x (rpms (tables store0))
                  /\ ~ (In (mkRepositoryRpm "R1" (rpm_UUID x))
                           (repositories_rpms (tables store0))
                        /\ forall m, In m (repositories_rpms (tables store0)) ->
                                     RpmUUID m = rpm_UUID x -> RepositoryUUID m = "R1")).
Proof.
  apply (@InsertForRepository_empty_manifest uuid_nth (mkRpmDao 2) "R1"
           (mkRepository "R1" "http://x" true) store0).
  reflexivity.
Defined.

Lemma deleteUnneeded_collects_orphans_only_witness :
  (exists db',
     deleteUnneeded no_fault (mkRepository "R1" "http://x" true) [] store0 = (db', None)
     /\ ~ In (mkRepositoryRpm "R1" "u-old") (repositories_rpms (tables db'))
     /\ ((forall m, In m (repositories_rpms (tables store0)) ->
                    RpmUUID m = "u-old" -> RepositoryUUID m = "R1") ->
         ~ In old_rpm (rpms (tables db')))
     /\ (forall m, In m (repositories_rpms (tables store0)) ->
                   RpmUUID m = "u-old" -> RepositoryUUID m <> "R1" ->
         In m (repositories_rpms (tables db')) /\ In old_rpm (rpms (tables db'))))
  /\ (forall fault m,
        In m (repositories_rpms (tables store0)) ->
        RpmUUID m = "u-old" -> RepositoryUUID m <> "R1" ->
        In old_rpm
           (rpms (tables (fst (deleteUnneeded fault (mkRepository "R1" "http://x" true)
                                              [] store0))))).
Proof.
  apply (@deleteUnneeded_collects_orphans_only (mkRepository "R1" "http://x" true) []
           store0 old_rpm).
  - left. reflexivity.
  - left. reflexivity.
  - intros [].
Defined.

Lemma List_not_owned_witness :
  exists db' e,
    List no_fault (fun e => e) "umbrella" "cfg-1" 10 0 store0 =
      (db', (emptyCollectionResponse, 0, Some e))
    /\ ("umbrella" <> "" ->
        no_fault (statements store0) = None -> no_fault (S (statements store0)) = None ->
        e = not_owned_error "cfg-1").
Proof.
  apply List_not_owned.
  intros c [<-|[]]. reflexivity.
Defined.

Lemma PagedRpmInsert_stops_at_failing_chunk_witness :
  exists db' db_k added,
    PagedRpmInsert uuid_nth second_fails (mkRpmDao 1) rows3 store0
      = Done db' (Z.of_nat (List.length added), Some "connection reset")
    /\ PagedRpmInsert uuid_nth no_fault (mkRpmDao 1) (firstn (1 * Z.to_nat 1) rows3) store0
       = Done db_k (Z.of_nat (List.length added), None)
    /\ tables db' = tables db_k
    /\ statements db' = (statements store0 + 1 + 1)%nat
    /\ tables db' = mkTables (rpms (tables store0) ++ added)
                             (repositories_rpms (tables store0))
                             (repositories (tables store0))
                             (repository_configurations (tables store0))
    /\ (forall x, In x added ->
          has_checksum (rpm_Checksum x) (rpms (tables store0)) = false
          /\ exists p u, In p (firstn (1 * Z.to_nat 1) rows3) /\ x = with_uuid p u)
    /\ NoDup (map rpm_Checksum added)
    /\ (forall p, In p (firstn (1 * Z.to_nat 1) rows3) ->
          has_checksum (rpm_Checksum p) (rpms (tables db')) = true).
Proof.
  apply (@PagedRpmInsert_stops_at_failing_chunk uuid_nth second_fails (mkRpmDao 1) rows3
           store0 1%nat "connection reset").
  - apply valid_dao_intro. reflexivity.
  - apply fits_intro. reflexivity.
  - simpl. lia.
  - intros j Hj. assert (j = 0%nat) by lia. subst j. reflexivity.
  - reflexivity.
Defined.

Lemma GetRpmDao_chunk_positive_loop_terminates_witness :
  let r := GetRpmDao 100 0 (Some (mkRpmDaoOptions (Some (-5)))) in
  0 < pagedRpmInsertsLimit r
  /\ (forall (pkgs : list Rpm) (k : Z),
        GoInt.fits pkgs -> 0 <= k -> k * chunk r < GoInt.slice_len pkgs ->
        k * chunk r < GoInt.add (k * chunk r) (chunk r))
  /\ (forall NewString fault (pkgs : list Rpm) (db : DB),
        GoInt.fits pkgs ->
        exists db' n e, PagedRpmInsert NewString fault r pkgs db = Done db' (n, e)).
Proof.
  apply (@GetRpmDao_chunk_positive_loop_terminates 100 0
           (Some (mkRpmDaoOptions (Some (-5))))).
  - reflexivity.
  - apply in_range_intro. reflexivity.
  - apply in_range_intro. reflexivity.
  - apply in_range_intro. reflexivity.
Defined.

(** ** The runs behind the witnesses, evaluated *)

Example InsertForRepository_first_run :
  match InsertForRepository uuid_nth no_fault (mkRpmDao 2) "R1" manifest3 store0 with
  | Done db1 (n, e) =>
      n = 2 /\ e = None
      /\ map rpm_Checksum (rpms (tables db1)) = ["SHA1:02"; "SHA1:01"; "SHA1:03"]
      /\ repositories_rpms (tables db1)
         = [mkRepositoryRpm "R1" "u-curl"; mkRepositoryRpm "R2" "u-curl";
            mkRepositoryRpm "R1" "uuid-0"; mkRepositoryRpm "R1" "uuid-1"]
  | _ => False
  end.
Proof. vm_compute. repeat split. Qed.

Example InsertForRepository_empty_manifest_run :
  match InsertForRepository uuid_nth no_fault (mkRpmDao 2) "R1" [] store0 with
  | Done db1 (n, e) =>
      n = 0 /\ e = Some "failed to Create: empty slice found"
      /\ map rpm_UUID (rpms (tables db1)) = ["u-curl"]
      /\ repositories_rpms (tables db1) = [mkRepositoryRpm "R2" "u-curl"]
  | _ => False
  end.
Proof. vm_compute. repeat split. Qed.

Example PagedRpmInsert_failing_second_chunk :
  match PagedRpmInsert uuid_nth second_fails (mkRpmDao 1) rows3 store0 with
  | Done db1 (n, e) =>
      n = 1 /\ e = Some "connection reset" /\ statements db1 = 2%nat
      /\ map rpm_Checksum (rpms (tables db1)) = ["SHA1:00"; "SHA1:02"; "SHA1:01"]
  | _ => False
  end.
Proof. vm_compute. repeat split. Qed.

Example PagedRpmInsert_zero_chunk :
  PagedRpmInsert uuid_nth no_fault (mkRpmDao 0) rows3 store0
  = Done store0 (0, Some "empty slice found").
Proof. vm_compute. reflexivity. Qed.

Example PagedRpmInsert_negative_chunk :
  PagedRpmInsert uuid_nth no_fault (mkRpmDao (-1)) rows3 store0 = Panic store0.
Proof. vm_compute. reflexivity. Qed.

(** * Further properties of rpm.go *)

(** ** difference and FilteredConvert *)

(** X1. difference a b is [a] without the elements of [b], in the order of
    [a] and with the repetitions of [a]: an element is kept exactly when it
    is in [a] and not in [b], as often as it occurs in [a]; the order is
    that of [a], for the result of a slice with an element put in front is
    the result of the slice with that element in front or, if [b] has it,
    unchanged, and the result of two slices joined is the two results
    joined; nothing is removed when [b] shares no element with [a], and
    everything is when [b] covers [a]. *)
Theorem difference_spec (a b : list string) :
  (forall x, In x (difference a b) <-> In x a /\ ~ In x b)
  /\ (forall x, count_occ string_dec (difference a b) x
                = if in_dec string_dec x b then 0%nat else count_occ string_dec a x)
  /\ (forall x, difference (x :: a) b
                = if in_dec string_dec x b then difference a b else x :: difference a b)
  /\ (forall a', difference (a ++ a') b = difference a b ++ difference a' b)
  /\ difference [] b = []
  /\ ((forall x, In x a -> ~ In x b) -> difference a b = a)
  /\ ((forall x, In x a -> In x b) -> difference a b = []).
Proof.
  unfold difference. split; [|split; [|split; [|split; [|split; [|split]]]]].
  - intros x. rewrite filter_In, negb_true_iff, inb_false. reflexivity.
  - intros x. induction a as [|y a IH]; simpl.
    + destruct (in_dec string_dec x b); reflexivity.
    + destruct (inb y b) eqn:E; simpl.
      * apply inb_In in E. rewrite IH.
        destruct (in_dec string_dec x b) as [Hin|Hout]; [reflexivity|].
        destruct (string_dec y x) as [->|]; [contradiction | reflexivity].
      * apply inb_false in E. rewrite IH.
        destruct (string_dec y x) as [->|]; [|reflexivity].
        destruct (in_dec string_dec x b); [contradiction | reflexivity].
  - intros x. simpl. destruct (in_dec string_dec x b) as [Hin|Hout].
    + apply inb_In in Hin. rewrite Hin. reflexivity.
    + apply inb_false in Hout. rewrite Hout. reflexivity.
  - intros a'. apply filter_app.
  - reflexivity.
  - intros H. apply filter_all. intros x Hx. apply negb_true_iff, inb_false. auto.
  - intros H. apply filter_none. intros x Hx. apply negb_false_iff, inb_In. auto.
Qed.

(** X2. FilteredConvert keeps, in manifest order, the packages whose checksum
    is not excluded and copies their attributes: the rows are the conversions
    of the kept packages, none has a UUID yet, none carries an excluded
    checksum, and no row is made for a package that is excluded. *)
Theorem FilteredConvert_spec (yumPkgs : list YumPackage) (excludeChecksums : list string) :
  FilteredConvert yumPkgs excludeChecksums
  = map rpm_of_yum
        (filter (fun p => negb (inb (yum_Checksum p) excludeChecksums)) yumPkgs)
  /\ (forall x, In x (FilteredConvert yumPkgs excludeChecksums) ->
                rpm_UUID x = "" /\ ~ In (rpm_Checksum x) excludeChecksums)
  /\ (List.length (FilteredConvert yumPkgs excludeChecksums) <= List.length yumPkgs)%nat
  /\ FilteredConvert yumPkgs [] = map rpm_of_yum yumPkgs.
Proof.
  assert (E : forall ex, FilteredConvert yumPkgs ex
              = map rpm_of_yum (filter (fun p => negb (inb (yum_Checksum p) ex)) yumPkgs)).
  { intros ex. induction yumPkgs as [|p l IH]; simpl; [reflexivity|].
    rewrite stringInSlice_inb. destruct (inb (yum_Checksum p) ex); simpl.
    - exact IH.
    - f_equal. exact IH. }
  split; [apply E|]. split; [|split].
  - intros x Hx. rewrite E in Hx. apply in_map_iff in Hx. destruct Hx as (p & <- & Hp).
    apply filter_In in Hp. destruct Hp as [_ Hp]. apply negb_true_iff, inb_false in Hp.
    split; [reflexivity | exact Hp].
  - apply FilteredConvert_length.
  - rewrite E. rewrite filter_all by reflexivity. reflexivity.
Qed.

(** ** fetchRepo, isOwnedRepository and List *)

(** X3. fetchRepo answers with a repository and a nil error only for a row of
    repositories that carries the identifier asked for; with an error it
    answers with the zero value.  While the store answers, the error is nil
    exactly when such a row exists, and is "record not found" otherwise.  It
    issues one statement and changes no table. *)
Theorem fetchRepo_spec (fault : nat -> option string) (uuid : string) (db : DB) :
  let '(db', (repo, err)) := fetchRepo fault uuid db in
  tables db' = tables db
  /\ statements db' = S (statements db)
  /\ (err = None -> In repo (repositories (tables db)) /\ repo_UUID repo = uuid)
  /\ (err <> None -> repo = zeroRepository)
  /\ (fault (statements db) = None ->
      (err = None <-> exists x, In x (repositories (tables db)) /\ repo_UUID x = uuid)
      /\ (err <> None -> err = Some ErrRecordNotFound)).
Proof.
  unfold fetchRepo, query.
  destruct (fault (statements db)) as [e|] eqn:F.
  - cbn. repeat split; try discriminate; try reflexivity.
  - destruct (find _ _) as [found|] eqn:E; cbn.
    + apply find_some in E. destruct E as [Hin Heq]. apply String.eqb_eq in Heq.
      repeat split; auto; try congruence. exists found. auto.
    + repeat split; try discriminate; try reflexivity.
      intros (x & Hx & Hu). eapply find_none in E; [|exact Hx]. cbn in E.
      rewrite Hu, String.eqb_refl in E. discriminate.
Qed.

(** X4. isOwnedRepository says yes only without error and only when a
    configuration with that identifier belongs to that organization; while
    the store answers, it says yes exactly then, with a nil error.  A failed
    query gives (false, error).  It never changes a table. *)
Theorem isOwnedRepository_spec (fault : nat -> option string)
  (orgID repositoryConfigUUID : string) (db : DB) :
  let '(db', (ok, err)) := isOwnedRepository fault orgID repositoryConfigUUID db in
  tables db' = tables db
  /\ (ok = true -> err = None /\ owned orgID repositoryConfigUUID db)
  /\ (fault (statements db) = None -> fault (S (statements db)) = None ->
      err = None /\ (ok = true <-> owned orgID repositoryConfigUUID db)).
Proof.
  unfold isOwnedRepository, query. cbn [tables statements uuids].
  destruct (fault (statements db)) as [e|]; cbn [tables statements uuids].
  - repeat split; discriminate.
  - destruct (fault (S (statements db))) as [e|]; cbn [tables statements uuids].
    + repeat split; discriminate.
    + assert (Hiff : owned orgID repositoryConfigUUID db <->
                     filter (owned_by orgID repositoryConfigUUID)
                            (repository_configurations (tables db)) <> []).
      { unfold owned. split.
        - intros (c & Hc & Ho) E.
          assert (Hin : In c (filter (owned_by orgID repositoryConfigUUID)
                                     (repository_configurations (tables db))))
            by (apply filter_In; auto).
          rewrite E in Hin. contradiction.
        - intros Hne. destruct (filter _ _) as [|c l] eqn:E; [congruence|].
          assert (Hin : In c (filter (owned_by orgID repositoryConfigUUID)
                                     (repository_configurations (tables db))))
            by (rewrite E; left; reflexivity).
          apply filter_In in Hin. exists c. exact Hin. }
      destruct (filter _ _) as [|c l] eqn:E.
      * cbn. split; [reflexivity|]. split; [discriminate|]. intros _ _.
        split; [reflexivity|]. split; [discriminate|].
        intros Ho. apply Hiff in Ho. congruence.
      * replace (Z.of_nat (List.length (c :: l)) =? 0) with false
          by (symmetry; apply Z.eqb_neq; simpl List.length; lia).
        assert (Ho : owned orgID repositoryConfigUUID db) by (apply Hiff; discriminate).
        split; [reflexivity|]. split; [auto|]. intros _ _. split; [reflexivity|].
        split; auto.
Qed.

Lemma find_config_repository_no_fault (repositoryConfigUUID : string) (db : DB) :
  exists db',
    find_config_repository no_fault repositoryConfigUUID db
    = (db', Ok (config_repository repositoryConfigUUID (tables db)))
    /\ tables db' = tables db.
Proof.
  unfold find_config_repository, config_repository, query, no_fault.
  destruct (find _ (repository_configurations (tables db))) as [c|];
    [|eexists; split; reflexivity].
  cbn [tables]. destruct (find _ (repositories (tables db)));
    eexists; split; reflexivity.
Qed.

Lemma isOwnedRepository_owned (orgID repositoryConfigUUID : string) (db : DB) :
  owned orgID repositoryConfigUUID db ->
  exists db',
    isOwnedRepository no_fault orgID repositoryConfigUUID db = (db', (true, None))
    /\ tables db' = tables db.
Proof.
  intros (c & Hc & Ho). unfold isOwnedRepository, query, no_fault.
  cbn [tables statements uuids].
  destruct (filter _ _) as [|c' l] eqn:E.
  - assert (Hin : In c (filter (owned_by orgID repositoryConfigUUID)
                               (repository_configurations (tables db))))
      by (apply filter_In; auto).
    rewrite E in Hin. contradiction.
  - replace (Z.of_nat (List.length (c' :: l)) =? 0) with false
      by (symmetry; apply Z.eqb_neq; simpl List.length; lia).
    eexists. split; reflexivity.
Qed.

(** While the store answers, List for an owned configuration returns the
    window of the repository's packages and their number. *)
Lemma List_owned (DBErrorToApi : string -> string) (orgID repositoryConfigUUID : string)
  (limit offset : Z) (db : DB) :
  orgID <> "" -> owned orgID repositoryConfigUUID db ->
  exists db',
    List no_fault DBErrorToApi orgID repositoryConfigUUID limit offset db
    = (db', (mkCollectionResponse
               (list_page repositoryConfigUUID limit offset db)
               (mkResponseMetadata (list_total repositoryConfigUUID db) offset limit),
             list_total repositoryConfigUUID db, None))
    /\ tables db' = tables db.
Proof.
  intros Horg Ho. unfold List.
  replace (String.eqb orgID "") with false by (symmetry; apply String.eqb_neq; exact Horg).
  destruct (isOwnedRepository_owned Ho) as (db1 & -> & Ht1).
  destruct (find_config_repository_no_fault repositoryConfigUUID db1) as (db2 & -> & Ht2).
  unfold query, no_fault. cbn [tables statements uuids].
  unfold list_page, list_total. rewrite Ht2, Ht1.
  eexists. split; reflexivity.
Qed.

(** X5. While the store answers, List for an owned configuration reports a
    total that does not depend on the window, echoes the total, the offset
    and the limit in the metadata, and returns a page no longer than the
    total and no longer than a positive limit. *)
Theorem List_total_and_window (DBErrorToApi : string -> string)
  (orgID repositoryConfigUUID : string) (limit offset limit' offset' : Z) (db : DB) :
  orgID <> "" -> owned orgID repositoryConfigUUID db ->
  let '(_, (page, total, err)) :=
    List no_fault DBErrorToApi orgID repositoryConfigUUID limit offset db in
  let '(_, (_, total', _)) :=
    List no_fault DBErrorToApi orgID repositoryConfigUUID limit' offset' db in
  err = None
  /\ total' = total
  /\ Meta page = mkResponseMetadata total offset limit
  /\ Z.of_nat (List.length (Data page)) <= total
  /\ (0 < limit -> Z.of_nat (List.length (Data page)) <= limit).
Proof.
  intros Horg Ho.
  destruct (List_owned DBErrorToApi limit offset Horg Ho) as (db1 & -> & _).
  destruct (List_owned DBErrorToApi limit' offset' Horg Ho) as (db2 & -> & _).
  cbn [Data Meta]. split; [reflexivity|]. split; [reflexivity|]. split; [reflexivity|].
  unfold list_page, list_total, RepositoryRpmListFromModelToResponse.
  rewrite length_map. set (rows := rpms_of_repository _ _).
  assert (Hoff : (List.length (offset_rows offset rows) <= List.length rows)%nat).
  { unfold offset_rows. destruct (offset >? 0); [rewrite length_skipn|]; lia. }
  split.
  - unfold limit_rows. destruct (limit >? 0); [rewrite length_firstn|]; lia.
  - intros Hpos. unfold limit_rows.
    replace (limit >? 0) with true by (symmetry; apply Z.gtb_lt; lia).
    rewrite length_firstn. lia.
Qed.

(** X6. The length of a page: while the store answers, List for an owned
    configuration returns, for a positive limit and an offset that is not
    negative, as many packages as are left after the offset, up to the
    limit, that is max(0, min(limit, total - offset)); for a negative limit
    it returns all that are left after the offset.  So a page is full while
    offset + limit stays within the total, and empty from the total on.
    This does not depend on the order the store returns the rows in. *)
Theorem List_page_length (DBErrorToApi : string -> string)
  (orgID repositoryConfigUUID : string) (limit offset : Z) (db : DB) :
  orgID <> "" -> owned orgID repositoryConfigUUID db -> 0 <= offset ->
  let '(_, (page, total, err)) :=
    List no_fault DBErrorToApi orgID repositoryConfigUUID limit offset db in
  err = None
  /\ (0 < limit ->
      Z.of_nat (List.length (Data page)) = Z.max 0 (Z.min limit (total - offset)))
  /\ (limit < 0 -> Z.of_nat (List.length (Data page)) = Z.max 0 (total - offset))
  /\ (0 < limit -> offset + limit <= total -> Z.of_nat (List.length (Data page)) = limit)
  /\ (total <= offset -> Data page = []).
Proof.
  intros Horg Ho Hoff.
  destruct (List_owned DBErrorToApi limit offset Horg Ho) as (db1 & -> & _).
  cbn [Data]. split; [reflexivity|].
  unfold list_page, list_total, RepositoryRpmListFromModelToResponse.
  set (rows := rpms_of_repository _ _).
  assert (Hlen : Z.of_nat (List.length (offset_rows offset rows))
                 = Z.max 0 (Z.of_nat (List.length rows) - offset)).
  { unfold offset_rows. destruct (offset >? 0) eqn:E.
    - rewrite length_skipn. lia.
    - rewrite Z.gtb_ltb in E. apply Z.ltb_ge in E. lia. }
  assert (Hpos : 0 < limit ->
                 Z.of_nat (List.length (limit_rows limit (offset_rows offset rows)))
                 = Z.max 0 (Z.min limit (Z.of_nat (List.length rows) - offset))).
  { intros Hl. unfold limit_rows.
    replace (limit >? 0) with true by (symmetry; apply Z.gtb_lt; lia).
    rewrite length_firstn. lia. }
  rewrite length_map. split; [exact Hpos|]. split; [|split].
  - intros Hl. unfold limit_rows.
    replace (limit >? 0) with false by (symmetry; rewrite Z.gtb_ltb; apply Z.ltb_ge; lia).
    exact Hlen.
  - intros Hl Hfull. rewrite (Hpos Hl). lia.
  - intros Hpast.
    assert (Hnil : offset_rows offset rows = []).
    { apply length_zero_iff_nil. lia. }
    rewrite Hnil. unfold limit_rows. destruct (limit >? 0); [rewrite firstn_nil|]; reflexivity.
Qed.

Lemma rpms_of_repository_In (R : string) (t : Tables) (x : Rpm) :
  In x (rpms_of_repository R t) <->
  In x (rpms t) /\ In (mkRepositoryRpm R (rpm_UUID x)) (repositories_rpms t).
Proof.
  unfold rpms_of_repository. rewrite in_flat_map. split.
  - intros (y & Hy & Hin). apply in_flat_map in Hin. destruct Hin as (m & Hm & Hin).
    destruct (String.eqb (rpm_UUID y) (RpmUUID m) && String.eqb (RepositoryUUID m) R) eqn:E;
      [|contradiction].
    destruct Hin as [<-|[]]. apply andb_true_iff in E. destruct E as [E1 E2].
    apply String.eqb_eq in E1, E2. split; [exact Hy|].
    destruct m as [mr mu]. simpl in *. subst. exact Hm.
  - intros [Hx Hm]. exists x. split; [exact Hx|]. apply in_flat_map.
    exists (mkRepositoryRpm R (rpm_UUID x)). split; [exact Hm|]. simpl.
    rewrite !String.eqb_refl. left. reflexivity.
Qed.

(** X7. While the store answers, every package List returns for an owned
    configuration is a row of rpms associated with the repository of that
    configuration; with no limit and no offset, every such row is returned. *)
Theorem List_returns_repository_packages (DBErrorToApi : string -> string)
  (orgID repositoryConfigUUID : string) (limit offset : Z) (db : DB) :
  orgID <> "" -> owned orgID repositoryConfigUUID db ->
  let page :=
    Data (fst (fst (snd (List no_fault DBErrorToApi orgID repositoryConfigUUID
                              limit offset db)))) in
  let R := config_repository repositoryConfigUUID (tables db) in
  (forall item, In item page ->
     exists x, item = modelToApiFields x
               /\ In x (rpms (tables db))
               /\ In (mkRepositoryRpm R (rpm_UUID x)) (repositories_rpms (tables db)))
  /\ (limit < 0 -> offset <= 0 ->
      forall x, In x (rpms (tables db)) ->
                In (mkRepositoryRpm R (rpm_UUID x)) (repositories_rpms (tables db)) ->
                In (modelToApiFields x) page).
Proof.
  intros Horg Ho.
  destruct (List_owned DBErrorToApi limit offset Horg Ho) as (db1 & -> & _).
  cbn [fst snd Data]. unfold list_page, RepositoryRpmListFromModelToResponse. split.
  - intros item Hin. apply in_map_iff in Hin. destruct Hin as (x & <- & Hx).
    exists x. split; [reflexivity|]. apply rpms_of_repository_In.
    assert (Hoff : In x (offset_rows offset
                     (rpms_of_repository (config_repository repositoryConfigUUID (tables db))
                                         (tables db)))).
    { unfold limit_rows in Hx. destruct (limit >? 0); [|exact Hx].
      rewrite <- (firstn_skipn (Z.to_nat limit)). apply in_or_app. left. exact Hx. }
    unfold offset_rows in Hoff. destruct (offset >? 0); [|exact Hoff].
    rewrite <- (firstn_skipn (Z.to_nat offset)). apply in_or_app. right. exact Hoff.
  - intros Hl Hoff x Hx Hm. apply in_map. unfold limit_rows, offset_rows.
    replace (limit >? 0) with false by (symmetry; rewrite Z.gtb_ltb; apply Z.ltb_ge; lia).
    replace (offset >? 0) with false by (symmetry; rewrite Z.gtb_ltb; apply Z.ltb_ge; lia).
    apply rpms_of_repository_In. auto.
Qed.



(** ** Search *)

Lemma search_join_In (t : Tables) (x : Rpm) (repo : Repository)
  (c : option RepositoryConfiguration) :
  In (x, repo, c) (search_join t) ->
  In x (rpms t) /\ In repo (repositories t)
  /\ In (mkRepositoryRpm (repo_UUID repo) (rpm_UUID x)) (repositories_rpms t)
  /\ (forall c', c = Some c' ->
        In c' (repository_configurations t) /\ rc_RepositoryUUID c' = repo_UUID repo)
  /\ (c = None ->
        forall c', In c' (repository_configurations t) ->
                   rc_RepositoryUUID c' <> repo_UUID repo).
Proof.
  unfold search_join. intros H. apply in_flat_map in H. destruct H as (x' & Hx & H).
  apply in_flat_map in H. destruct H as (m & Hm & H).
  destruct (String.eqb (RpmUUID m) (rpm_UUID x')) eqn:Em; [|contradiction].
  apply in_flat_map in H. destruct H as (repo' & Hr & H).
  destruct (String.eqb (repo_UUID repo') (RepositoryUUID m)) eqn:Er; [|contradiction].
  apply String.eqb_eq in Em, Er.
  assert (Hcfg : forall c', In c' (filter (fun c => String.eqb (rc_RepositoryUUID c)
                                                               (repo_UUID repo'))
                                          (repository_configurations t)) <->
                            In c' (repository_configurations t)
                            /\ rc_RepositoryUUID c' = repo_UUID repo').
  { intros c'. rewrite filter_In, String.eqb_eq. reflexivity. }
  destruct (filter _ (repository_configurations t)) as [|c0 cs] eqn:F.
  - destruct H as [H|[]]. inversion H; subst x' repo' c.
    split; [exact Hx|]. split; [exact Hr|]. split.
    + destruct m as [mr mu]. simpl in *. subst. exact Hm.
    + split; [discriminate|]. intros _ c' Hc' E. apply (proj2 (Hcfg c')). auto.
  - apply in_map_iff in H. destruct H as (c' & H & Hc'). inversion H; subst x' repo' c.
    split; [exact Hx|]. split; [exact Hr|]. split.
    + destruct m as [mr mu]. simpl in *. subst. exact Hm.
    + split; [|discriminate]. intros c'' [= <-]. apply Hcfg. exact Hc'.
Qed.

Lemma search_select_rows (orgID : string) (request : SearchRpmRequest)
  (urls : list string) (limit : Z) (t : Tables) (resp : SearchRpmResponse) :
  In resp (search_select orgID request urls limit t) ->
  exists row, In row (search_join t) /\ search_where orgID request urls row = true
              /\ resp = mkSearchRpmResponse (row_name row) (rpm_Summary (fst (fst row))).
Proof.
  unfold search_select. intros Hin.
  assert (Hin' : In resp
            (map (fun row => mkSearchRpmResponse (row_name row) (rpm_Summary (fst (fst row))))
                 (distinct_on_name None
                    (order_by_name
                       (filter (search_where orgID request urls) (search_join t)))))).
  { unfold limit_rows in Hin. destruct (limit >? 0); [|exact Hin].
    rewrite <- (firstn_skipn (Z.to_nat limit)). apply in_or_app. left. exact Hin. }
  apply in_map_iff in Hin'. destruct Hin' as (row & <- & Hrow).
  destruct (@distinct_on_name_sorted
              (order_by_name (filter (search_where orgID request urls) (search_join t)))
              None (order_by_name_sorted _)) as (_ & _ & Hsub); [discriminate|].
  apply Hsub, order_by_name_In, filter_In in Hrow. exists row. tauto.
Qed.

(** X9. Whatever the store answers, Search changes no table; it rejects an
    empty orgID and an empty list of URLs before it sends anything to the
    store; and with an error it returns no row. *)
Theorem Search_guards_and_never_writes (fault : nat -> option string) (orgID : string)
  (request : SearchRpmRequest) (limit : Z) (db : DB) :
  let '(db', (rows, err)) := Search fault orgID request limit db in
  tables db' = tables db
  /\ uuids db' = uuids db
  /\ (err <> None -> rows = [])
  /\ (orgID = "" -> db' = db /\ err = Some "orgID can not be an empty string")
  /\ (orgID <> "" -> URLs request = [] ->
      db' = db /\ err = Some "request.URLs must contain at least 1 URL")
  /\ (orgID <> "" -> URLs request <> [] -> statements db' = S (statements db)).
Proof.
  unfold Search. destruct (String.eqb_spec orgID "") as [E|E].
  - cbn. repeat split; auto; contradiction.
  - destruct (URLs request) as [|u us] eqn:Eu; cbn [List.length Nat.eqb].
    + cbn. repeat split; auto; contradiction.
    + unfold query. destruct (fault (statements db)); cbn;
        repeat split; auto; try contradiction; try discriminate; congruence.
Qed.

(** X10. Every row Search returns is the name and the summary of one stored
    package that is associated with a stored repository which is public or
    has a configuration of the caller's organization.  A package that is
    only in private repositories of other organizations is never shown. *)
Theorem Search_shows_visible_packages_only (fault : nat -> option string)
  (orgID : string) (request : SearchRpmRequest) (limit : Z) (db : DB)
  (resp : SearchRpmResponse) :
  In resp (fst (snd (Search fault orgID request limit db))) ->
  exists x repo,
    In x (rpms (tables db)) /\ In repo (repositories (tables db))
    /\ In (mkRepositoryRpm (repo_UUID repo) (rpm_UUID x)) (repositories_rpms (tables db))
    /\ resp = mkSearchRpmResponse (rpm_Name x) (rpm_Summary x)
    /\ (repo_Public repo = true
        \/ exists c, In c (repository_configurations (tables db))
                     /\ rc_RepositoryUUID c = repo_UUID repo /\ rc_OrgID c = orgID).
Proof.
  unfold Search. destruct (String.eqb orgID ""); [intros []|].
  destruct (List.length (URLs request) =? 0)%nat; [intros []|].
  unfold query. destruct (fault (statements db)); [intros []|]. cbn [fst snd].
  intros Hin. apply search_select_rows in Hin.
  destruct Hin as ([[x repo] c] & Hjoin & Hwhere & ->).
  apply search_join_In in Hjoin. destruct Hjoin as (Hx & Hr & Hm & Hc & _).
  exists x, repo. split; [exact Hx|]. split; [exact Hr|]. split; [exact Hm|].
  split; [reflexivity|].
  unfold search_where in Hwhere. apply andb_true_iff in Hwhere. destruct Hwhere as [Hw _].
  apply andb_true_iff in Hw. destruct Hw as [Hvis _].
  apply orb_true_iff in Hvis. destruct Hvis as [Hvis|Hvis]; [right | left; exact Hvis].
  destruct c as [c|]; [|discriminate]. apply String.eqb_eq in Hvis.
  destruct (Hc c eq_refl) as [Hin Heq]. exists c. auto.
Qed.

(** *** LIKE with a pattern of plain characters *)

Lemma list_ascii_of_string_app (a b : string) :
  list_ascii_of_string (String.append a b) = list_ascii_of_string a ++ list_ascii_of_string b.
Proof. induction a as [|c a IH]; simpl; [reflexivity | rewrite IH; reflexivity]. Qed.

Lemma like_chars_any (s : list ascii) : like_chars ["%"%char] s = true.
Proof.
  cbn [like_chars]. change (Ascii.eqb "%" "%") with true. cbv iota.
  induction s as [|d s IH]; [reflexivity|].
  destruct s as [|d' s']; [reflexivity|]. simpl. simpl in IH. exact IH.
Qed.

Lemma like_literal_prefix (p s : string) :
  like_literal p = true ->
  like (String.append p "%") s = true <-> exists rest, s = String.append p rest.
Proof.
  unfold like, like_literal. rewrite list_ascii_of_string_app.
  change (list_ascii_of_string "%") with ["%"%char].
  revert s. induction p as [|c p IH]; intros s Hlit.
  - cbn [list_ascii_of_string app]. rewrite like_chars_any. split; [|reflexivity].
    intros _. exists s. reflexivity.
  - cbn [list_ascii_of_string forallb] in Hlit. apply andb_true_iff in Hlit.
    destruct Hlit as [Hc Hlit]. apply negb_true_iff in Hc.
    apply orb_false_iff in Hc. destruct Hc as [Hc Hc3].
    apply orb_false_iff in Hc. destruct Hc as [Hc1 Hc2].
    cbn [list_ascii_of_string app like_chars]. rewrite Hc1, Hc2, Hc3.
    destruct s as [|d s]; cbn [list_ascii_of_string].
    + split; [discriminate|]. intros (rest & E). discriminate.
    + rewrite andb_true_iff, Ascii.eqb_eq, (IH s Hlit). split.
      * intros (-> & rest & ->). exists rest. reflexivity.
      * intros (rest & E). simpl in E. inversion E; subst. split; [reflexivity|].
        exists rest. reflexivity.
Qed.

(** X11. When the search string has none of the characters LIKE gives a
    meaning to (percent, underscore, backslash), Search is a search by name
    prefix, upper and lower case distinguished: every name returned starts
    with the search string, and, when no limit cuts the answer, every package
    whose name starts with it and that is in a repository the caller may see
    (public, or configured by the caller's organization) stored under one of
    the URLs is returned by name. *)
Theorem Search_by_name_prefix (orgID : string) (request : SearchRpmRequest) (limit : Z)
  (db : DB) :
  like_literal (Search_ request) = true ->
  orgID <> "" -> URLs request <> [] ->
  let rows := fst (snd (Search no_fault orgID request limit db)) in
  (forall resp, In resp rows ->
     exists rest, PackageName resp = String.append (Search_ request) rest)
  /\ (limit < 0 ->
      forall x repo rest,
        In x (rpms (tables db)) -> In repo (repositories (tables db)) ->
        In (mkRepositoryRpm (repo_UUID repo) (rpm_UUID x)) (repositories_rpms (tables db)) ->
        rpm_Name x = String.append (Search_ request) rest ->
        In (repo_URL repo) (URLs request) ->
        (repo_Public repo = true
         \/ exists c, In c (repository_configurations (tables db))
                      /\ rc_RepositoryUUID c = repo_UUID repo /\ rc_OrgID c = orgID) ->
        In (rpm_Name x) (map PackageName rows)).
Proof.
  intros Hlit Horg Hurls. unfold Search, query, no_fault.
  replace (String.eqb orgID "") with false by (symmetry; apply String.eqb_neq; exact Horg).
  replace (List.length (URLs request) =? 0)%nat with false
    by (symmetry; destruct (URLs request); [congruence | reflexivity]).
  cbn [fst snd].
  destruct (search_select_names orgID request (search_urls (URLs request)) limit (tables db))
    as [Hsound Hcomplete].
  split.
  - intros resp Hin. destruct (Hsound resp Hin) as ([[x repo] c] & _ & Hwhere & ->).
    unfold search_where in Hwhere. apply andb_true_iff in Hwhere. destruct Hwhere as [Hw _].
    apply andb_true_iff in Hw. destruct Hw as [_ Hlike].
    apply (@like_literal_prefix _ _ Hlit). exact Hlike.
  - intros Hlim x repo rest Hx Hrepo Hassoc Hname Hurl Hvis.
    assert (Hlike : like (String.append (Search_ request) "%") (rpm_Name x) = true)
      by (apply (@like_literal_prefix _ _ Hlit); exists rest; exact Hname).
    assert (Hu : inb (repo_URL repo) (search_urls (URLs request)) = true).
    { apply inb_In, search_urls_In. exists (repo_URL repo). auto. }
    assert (Hrow : exists c, In (x, repo, c) (search_join (tables db))
                             /\ search_where orgID request (search_urls (URLs request))
                                             (x, repo, c) = true).
    { assert (Hw : forall c, search_where orgID request (search_urls (URLs request))
                                          (x, repo, c)
                             = (match c with
                                | Some c => String.eqb (rc_OrgID c) orgID
                                | None => false
                                end || repo_Public repo))
        by (intros c; unfold search_where; rewrite Hlike, Hu, !andb_true_r; reflexivity).
      set (cs := filter (fun c => String.eqb (rc_RepositoryUUID c) (repo_UUID repo))
                        (repository_configurations (tables db))).
      assert (Hjoin : forall c, match cs with [] => c = None
                                            | _ => exists c', c = Some c' /\ In c' cs end ->
                                In (x, repo, c) (search_join (tables db))).
      { intros c Hc. unfold search_join. apply in_flat_map. exists x. split; [exact Hx|].
        apply in_flat_map. exists (mkRepositoryRpm (repo_UUID repo) (rpm_UUID x)).
        split; [exact Hassoc|]. cbn [RpmUUID RepositoryUUID]. rewrite String.eqb_refl.
        apply in_flat_map. exists repo. split; [exact Hrepo|]. rewrite String.eqb_refl.
        fold cs. destruct cs as [|c0 cs'].
        - subst c. left. reflexivity.
        - destruct Hc as (c' & -> & Hc').
          apply (in_map (fun c => (x, repo, Some c))). exact Hc'. }
      destruct Hvis as [Hpub|(c & Hc & Hcr & Hco)].
      - destruct cs as [|c0 cs'] eqn:Ecs.
        + exists None. split; [apply Hjoin; reflexivity|]. rewrite Hw, Hpub. reflexivity.
        + exists (Some c0). split.
          * apply Hjoin. exists c0. split; [reflexivity | left; reflexivity].
          * rewrite Hw, Hpub. apply orb_true_r.
      - assert (Hin : In c cs) by (apply filter_In; split; [exact Hc | apply String.eqb_eq; exact Hcr]).
        exists (Some c). split.
        + apply Hjoin. destruct cs; [contradiction|]. exists c. auto.
        + rewrite Hw. apply orb_true_iff. left. apply String.eqb_eq. exact Hco. }
    destruct Hrow as (c & Hjoin & Hwhere).
    apply (Hcomplete Hlim _ Hjoin Hwhere).
Qed.

Lemma inb_ext (l1 l2 : list string) :
  (forall u, In u l1 <-> In u l2) -> forall u, inb u l1 = inb u l2.
Proof.
  intros H u. destruct (inb u l2) eqn:E.
  - apply inb_In. apply H. apply inb_In. exact E.
  - apply inb_false. intros Hin. apply inb_false in E. apply E, H, Hin.
Qed.

(** X12. Search depends on the URLs of the request as a set only: two
    requests with the same search string whose lists name the same URLs, in
    any order and with any repetition, get the same answer from the same
    store. *)
Theorem Search_urls_as_set (fault : nat -> option string) (orgID : string)
  (request1 request2 : SearchRpmRequest) (limit : Z) (db : DB) :
  Search_ request1 = Search_ request2 ->
  (forall u, In u (URLs request1) <-> In u (URLs request2)) ->
  Search fault orgID request1 limit db = Search fault orgID request2 limit db.
Proof.
  intros Hs Hu. unfold Search. destruct (String.eqb orgID ""); [reflexivity|].
  destruct (URLs request1) as [|u1 l1] eqn:E1; destruct (URLs request2) as [|u2 l2] eqn:E2.
  - reflexivity.
  - exfalso. apply (proj2 (Hu u2)). left; reflexivity.
  - exfalso. apply (proj1 (Hu u1)). left; reflexivity.
  - cbn [List.length Nat.eqb]. unfold query.
    destruct (fault (statements db)); [reflexivity|].
    replace (search_select orgID request1 (search_urls (u1 :: l1)) limit (tables db))
      with (search_select orgID request2 (search_urls (u2 :: l2)) limit (tables db));
      [reflexivity|].
    unfold search_select. do 4 f_equal. apply filter_ext. intros [[x repo] c].
    unfold search_where. rewrite Hs. f_equal. symmetry. apply inb_ext.
    intros u. rewrite !search_urls_In. split; intros (url & Hin & H); exists url;
      (split; [apply Hu; exact Hin | exact H]).
Qed.

(** ** PagedRpmInsert on a store that may fail *)

Lemma chunks_of_step (n c : nat) :
  (0 < c)%nat -> (0 < n)%nat -> chunks_of n c = S (chunks_of (n - c) c).
Proof.
  intros Hc Hn. unfold chunks_of. destruct (Nat.le_gt_cases c n) as [H|H].
  - replace (n + c - 1)%nat with ((n - c + c - 1) + 1 * c)%nat by lia.
    rewrite Nat.div_add by lia. lia.
  - replace (n - c)%nat with 0%nat by lia.
    rewrite (Nat.div_small (0 + c - 1) c) by lia.
    symmetry. apply (Nat.div_unique _ _ 1%nat (n - 1)%nat); lia.
Qed.

Lemma chunks_of_zero (c : nat) : (0 < c)%nat -> chunks_of 0 c = 0%nat.
Proof. intros Hc. unfold chunks_of. apply Nat.div_small. lia. Qed.

Section PagedRpmInsertAnyFault.

Variable NewString : nat -> string.
Variable fault : nat -> option string.
Variable r : rpmDaoImpl.
Variable pkgs : list Rpm.

Hypothesis Hdao : valid_dao r.
Hypothesis Hfits : GoInt.fits pkgs.

Let c : nat := Z.to_nat (chunk r).

(** Whatever the store answers, the loop has inserted a prefix of what was
    left of the slice when it returns, all of it when it returns no error,
    and has sent one statement for each chunk it tried. *)
Lemma loop_prefix (fuel : nat) : forall (a : nat) (count : Z) (db : DB),
  (a = 0%nat \/ c <= a)%nat ->
  0 <= count <= Z.of_nat a ->
  (List.length (skipn a pkgs) < fuel)%nat ->
  exists db' e k,
    PagedRpmInsert_loop NewString fault r pkgs fuel (Z.of_nat a) count db =
      Done db' (count + snd (bulk_insert NewString (firstn k (skipn a pkgs)) db), e)
    /\ tables db' =
         set_rpms (tables db) (fst (bulk_insert NewString (firstn k (skipn a pkgs)) db))
    /\ (e = None -> firstn k (skipn a pkgs) = skipn a pkgs)
    /\ (statements db' <= statements db + chunks_of (List.length (skipn a pkgs)) c)%nat
    /\ (e = None ->
        statements db' = (statements db + chunks_of (List.length (skipn a pkgs)) c)%nat).
Proof.
  assert (Hc : (0 < c)%nat) by (unfold c, chunk; unfold valid_dao in Hdao; lia).
  induction fuel as [|fuel IH]; intros a count db Hj Hcount Hfuel; [lia|].
  destruct (Nat.lt_ge_cases a (List.length pkgs)) as [Ha|Ha].
  - pose proof (@loop_step NewString fault r pkgs Hdao Hfits fuel a count db Ha Hj) as Hs.
    cbv zeta in Hs. fold c in Hs. rewrite Hs. clear Hs.
    rewrite create_rpms_nonempty by (apply (chunk_at_nonempty pkgs Hdao); exact Ha).
    assert (Hchunks : chunks_of (List.length (skipn a pkgs)) c
                      = S (chunks_of (List.length (skipn (a + c) pkgs)) c)).
    { rewrite (@chunks_of_step (List.length (skipn a pkgs)) c Hc)
        by (rewrite length_skipn; lia).
      rewrite !length_skipn. do 2 f_equal. lia. }
    destruct (fault (statements db)) as [e|].
    + exists (mkDB (tables db) (S (statements db))
                   (uuids db + List.length (chunk_at r pkgs a))), (Some e), 0%nat.
      cbn [firstn tables statements]. unfold bulk_insert. cbn [before_create insert_rpms fst snd].
      rewrite set_rpms_same, Z.add_0_r. split; [reflexivity|]. split; [reflexivity|].
      split; [discriminate|]. split; [lia | discriminate].
    + pose proof (insert_rpms_count (before_create NewString (uuids db) (chunk_at r pkgs a))
                                    (rpms (tables db))) as Hn.
      rewrite before_create_length in Hn.
      fold (bulk_insert NewString (chunk_at r pkgs a) db) in Hn.
      assert (Hlen : (List.length (chunk_at r pkgs a) <= c)%nat)
        by (unfold chunk_at; rewrite length_firstn; fold c; lia).
      assert (Hle : (List.length (chunk_at r pkgs a) <= List.length pkgs)%nat)
        by (unfold chunk_at; rewrite length_firstn, length_skipn; lia).
      assert (Hfits' := Hfits). unfold GoInt.fits, GoInt.slice_len in Hfits'.
      rewrite add_in_range
        by (unfold GoInt.in_range, GoInt.min_int, GoInt.max_int; lia).
      set (db1 := mkDB _ _ _).
      destruct (IH (a + c)%nat (count + snd (bulk_insert NewString (chunk_at r pkgs a) db)) db1)
        as (db' & e & k & Hrun & Htab & Hall & Hst & Hst').
      * right. lia.
      * lia.
      * rewrite length_skipn in *. lia.
      * exists db', e, (c + k)%nat. rewrite Hrun, Htab. subst db1.
        cbn [tables uuids statements] in *.
        rewrite firstn_add_skipn, <- skipn_add_skipn.
        change (firstn c (skipn a pkgs)) with (chunk_at r pkgs a).
        unfold bulk_insert. cbn [tables uuids rpms set_rpms].
        rewrite before_create_app, insert_rpms_app. cbn [fst snd].
        split; [do 2 f_equal; lia|]. split; [reflexivity|]. split; [|split].
        -- intros He. rewrite (Hall He). unfold chunk_at. fold c.
           rewrite skipn_add_skipn. apply firstn_skipn.
        -- rewrite Hchunks. lia.
        -- intros He. rewrite (Hst' He), Hchunks. lia.
  - rewrite (@loop_exit NewString fault r pkgs) by (unfold GoInt.slice_len; lia).
    rewrite skipn_all2 by lia. exists db, None, 0%nat. cbn [firstn List.length].
    unfold bulk_insert. cbn [before_create insert_rpms fst snd].
    rewrite set_rpms_same, Z.add_0_r, chunks_of_zero by exact Hc.
    repeat split; lia.
Qed.

End PagedRpmInsertAnyFault.

Lemma PagedRpmInsert_prefix (NewString : nat -> string) (fault : nat -> option string)
  (r : rpmDaoImpl) (pkgs : list Rpm) (db : DB) :
  valid_dao r -> GoInt.fits pkgs ->
  exists db' e k,
    PagedRpmInsert NewString fault r pkgs db =
      Done db' (snd (bulk_insert NewString (firstn k pkgs) db), e)
    /\ tables db' = set_rpms (tables db) (fst (bulk_insert NewString (firstn k pkgs) db))
    /\ (e = None -> firstn k pkgs = pkgs)
    /\ (statements db' <= statements db
                          + chunks_of (List.length pkgs) (Z.to_nat (chunk r)))%nat
    /\ (e = None ->
        statements db' = (statements db
                          + chunks_of (List.length pkgs) (Z.to_nat (chunk r)))%nat).
Proof.
  intros Hdao Hfits. unfold PagedRpmInsert.
  assert (Hc : (0 < Z.to_nat (chunk r))%nat) by (unfold chunk; unfold valid_dao in Hdao; lia).
  destruct (GoInt.slice_len pkgs =? 0) eqn:E.
  - apply slice_len_zero in E. subst pkgs. exists db, None, 0%nat.
    unfold bulk_insert. cbn [firstn before_create insert_rpms fst snd List.length].
    rewrite set_rpms_same, chunks_of_zero by exact Hc. repeat split; lia.
  - destruct (@loop_prefix NewString fault r pkgs Hdao Hfits (S (List.length pkgs)) 0%nat 0 db)
      as (db' & e & k & Hrun & Htab & Hall & Hst & Hst').
    + left; reflexivity.
    + simpl; lia.
    + simpl; lia.
    + exists db', e, k. cbn [skipn] in *. change (Z.of_nat 0) with 0 in Hrun.
      rewrite Hrun, Z.add_0_l. auto.
Qed.

(** What PagedRpmInsert leaves in the rpms table, whatever the store
    answers. *)
Lemma PagedRpmInsert_added (NewString : nat -> string) (fault : nat -> option string)
  (r : rpmDaoImpl) (pkgs : list Rpm) (db : DB) :
  valid_dao r -> GoInt.fits pkgs ->
  exists db' e added,
    PagedRpmInsert NewString fault r pkgs db = Done db' (Z.of_nat (List.length added), e)
    /\ tables db' = set_rpms (tables db) (rpms (tables db) ++ added)
    /\ (forall x, In x added ->
          has_checksum (rpm_Checksum x) (rpms (tables db)) = false
          /\ exists p u, In p pkgs /\ x = with_uuid p u)
    /\ NoDup (map rpm_Checksum added)
    /\ (e = None -> forall p, In p pkgs ->
          has_checksum (rpm_Checksum p) (rpms (tables db) ++ added) = true).
Proof.
  intros Hdao Hfits.
  destruct (@PagedRpmInsert_prefix NewString fault r pkgs db Hdao Hfits)
    as (db' & e & k & Hrun & Htab & Hall & _).
  unfold bulk_insert in *.
  destruct (insert_rpms_appends (before_create NewString (uuids db) (firstn k pkgs))
                                (rpms (tables db))) as (added & Hins & Hin & Hnd & _).
  rewrite Hins in *. cbn [fst snd] in *. exists db', e, added.
  split; [exact Hrun|]. split; [exact Htab|]. split; [|split; [exact Hnd|]].
  - intros x Hx. destruct (Hin x Hx) as [Hrow Hc]. split; [exact Hc|].
    apply before_create_In in Hrow. destruct Hrow as (p & u & Hp & E).
    exists p, u. split; [|exact E]. rewrite <- (firstn_skipn k pkgs).
    apply in_or_app. left. exact Hp.
  - intros He p Hp. rewrite (Hall He) in Hins.
    assert (Hy : In (rpm_Checksum p)
                    (map rpm_Checksum (before_create NewString (uuids db) pkgs))).
    { rewrite before_create_checksums. apply in_map. exact Hp. }
    apply in_map_iff in Hy. destruct Hy as (y & Ey & Hy). rewrite <- Ey.
    pose proof (@insert_rpms_has (before_create NewString (uuids db) pkgs)
                                 (rpms (tables db)) y Hy) as Hhas.
    rewrite Hins in Hhas. exact Hhas.
Qed.

(** X13. With a positive chunk size PagedRpmInsert returns, whatever the
    store answers, and it only appends to rpms: the rows that were there stay
    in place, no other table changes, the count returned (also beside an
    error) is the number of rows added, every row added is a row of the slice
    (with the identifier it was given) whose checksum the table did not have,
    no two rows added have the same checksum, so checksums that were unique
    in rpms stay unique; and when no error is returned every checksum of the
    slice is in rpms. *)
Theorem PagedRpmInsert_appends_what_it_counts (NewString : nat -> string)
  (fault : nat -> option string) (r : rpmDaoImpl) (pkgs : list Rpm) (db : DB) :
  valid_dao r -> GoInt.fits pkgs ->
  exists db' e added,
    PagedRpmInsert NewString fault r pkgs db = Done db' (Z.of_nat (List.length added), e)
    /\ tables db' = mkTables (rpms (tables db) ++ added) (repositories_rpms (tables db))
                             (repositories (tables db))
                             (repository_configurations (tables db))
    /\ (forall x, In x added ->
          has_checksum (rpm_Checksum x) (rpms (tables db)) = false
          /\ exists p u, In p pkgs /\ x = with_uuid p u)
    /\ NoDup (map rpm_Checksum added)
    /\ (NoDup (map rpm_Checksum (rpms (tables db))) ->
        NoDup (map rpm_Checksum (rpms (tables db'))))
    /\ (e = None -> forall p, In p pkgs ->
          has_checksum (rpm_Checksum p) (rpms (tables db')) = true).
Proof.
  intros Hdao Hfits.
  destruct (@PagedRpmInsert_added NewString fault r pkgs db Hdao Hfits)
    as (db' & e & added & Hrun & Htab & Hin & Hnd & Hall).
  exists db', e, added. split; [exact Hrun|]. split; [exact Htab|].
  split; [exact Hin|]. split; [exact Hnd|]. rewrite Htab. cbn [set_rpms rpms]. split.
  - intros Hold. rewrite map_app. apply NoDup_app; [exact Hold | exact Hnd |].
    intros ck Hck Hck'. apply in_map_iff in Hck. destruct Hck as (x & Ex & Hx).
    apply in_map_iff in Hck'. destruct Hck' as (y & Ey & Hy).
    destruct (Hin y Hy) as [Hc _].
    assert (has_checksum (rpm_Checksum y) (rpms (tables db)) = true); [|congruence].
    apply has_checksum_In. exists x. split; [exact Hx | congruence].
  - exact Hall.
Qed.

(** X14. While the store answers, PagedRpmInsert sends one INSERT for each
    chunk, that is the number of rows divided by the chunk size, rounded up;
    when the store fails it sends no more than that. *)
Theorem PagedRpmInsert_statements (NewString : nat -> string)
  (fault : nat -> option string) (r : rpmDaoImpl) (pkgs : list Rpm) (db : DB) :
  valid_dao r -> GoInt.fits pkgs ->
  exists db' n e,
    PagedRpmInsert NewString fault r pkgs db = Done db' (n, e)
    /\ (statements db' <= statements db
          + chunks_of (List.length pkgs) (Z.to_nat (pagedRpmInsertsLimit r)))%nat
    /\ (e = None ->
        statements db' = (statements db
          + chunks_of (List.length pkgs) (Z.to_nat (pagedRpmInsertsLimit r)))%nat)
    /\ ((forall k, (statements db <= k)%nat -> fault k = None) -> e = None).
Proof.
  intros Hdao Hfits.
  destruct (@PagedRpmInsert_prefix NewString fault r pkgs db Hdao Hfits)
    as (db' & e & k & Hrun & _ & _ & Hst & Hst').
  exists db', (snd (bulk_insert NewString (firstn k pkgs) db)), e. split; [exact Hrun|]. split; [exact Hst|]. split; [exact Hst'|].
  intros Hnf. destruct (@PagedRpmInsert_all NewString fault r pkgs db Hdao Hfits Hnf)
    as (db2 & Hrun2 & _). rewrite Hrun in Hrun2. congruence.
Qed.

(** ** deleteUnneeded and InsertForRepository on a store that may fail *)

Lemma deleteUnneeded_outcome (fault : nat -> option string) (repo : Repository)
  (keep : list string) (db : DB) :
  let t := tables db in
  let t' := tables (fst (deleteUnneeded fault repo keep db)) in
  (t' = t
   \/ t' = set_repositories_rpms t (assocs_after (repo_UUID repo) keep t)
   \/ t' = delete_tables (repo_UUID repo) keep t)
  /\ (snd (deleteUnneeded fault repo keep db) = None ->
      t' = delete_tables (repo_UUID repo) keep t).
Proof.
  split; [apply deleteUnneeded_tables|].
  unfold deleteUnneeded, pluck_rpm_uuids_of, delete_assocs, pluck_dangling, delete_rpms,
    query, exec.
  cbn [tables statements uuids].
  destruct (fault (statements db)); [discriminate|].
  cbn [tables statements uuids fst snd].
  destruct (fault (S (statements db))); [discriminate|].
  cbn [tables statements uuids].
  destruct (fault (S (S (statements db)))); [discriminate|].
  cbn [tables statements uuids set_repositories_rpms repositories_rpms rpms
       repositories repository_configurations].
  fold (unneeded (repo_UUID repo) keep (tables db)).
  fold (assocs_after (repo_UUID repo) keep (tables db)).
  fold (dangling_after (repo_UUID repo) keep (tables db)).
  destruct (List.length _ =? 0)%nat eqn:E.
  - intros _. cbn [fst tables]. unfold delete_tables, rpms_after.
    apply length_zero_nil in E. rewrite E, filter_all by reflexivity. reflexivity.
  - cbn [tables statements uuids].
    destruct (fault (S (S (S (statements db))))); [discriminate|]. intros _. reflexivity.
Qed.

Lemma untouched_elsewhere_refl (R : string) (t : Tables) : untouched_elsewhere R t t.
Proof. unfold untouched_elsewhere. repeat split; auto. Qed.

Lemma untouched_elsewhere_trans (R : string) (t t1 t2 : Tables) :
  untouched_elsewhere R t t1 -> untouched_elsewhere R t1 t2 -> untouched_elsewhere R t t2.
Proof.
  intros (A1 & A2 & A3 & A4) (B1 & B2 & B3 & B4). split; [congruence|]. split; [congruence|].
  split.
  - intros m Hm. rewrite (B3 m Hm). apply A3. exact Hm.
  - intros x m Hx Hm Hr E. apply (B4 x m); auto.
    + apply (A4 x m); auto.
    + apply A3; auto.
Qed.

Lemma after_insert_untouched (R : string) (t : Tables) (added : list Rpm) :
  untouched_elsewhere R t (after_insert t added).
Proof.
  unfold untouched_elsewhere, after_insert. cbn [set_rpms rpms repositories_rpms
    repositories repository_configurations].
  split; [reflexivity|]. split; [reflexivity|]. split; [tauto|].
  intros x m Hx _ _ _. apply in_or_app. left. exact Hx.
Qed.

(** An rpm stays through a deletion when an association that stays refers
    to it. *)
Lemma rpms_after_referred (R : string) (keep : list string) (t : Tables) (x : Rpm)
  (m : RepositoryRpm) :
  In x (rpms t) -> In m (assocs_after R keep t) -> RpmUUID m = rpm_UUID x ->
  In x (rpms_after R keep t).
Proof.
  intros Hx Hm E. apply rpms_after_spec. split; [exact Hx|]. intros Hd.
  apply dangling_after_spec in Hd. destruct Hd as (_ & _ & Hno). exact (Hno m Hm E).
Qed.

(** An rpm stays through a deletion when it is one to keep. *)
Lemma rpms_after_kept (R : string) (keep : list string) (t : Tables) (x : Rpm) :
  In x (rpms t) -> In (rpm_UUID x) keep -> In x (rpms_after R keep t).
Proof.
  intros Hx Hk. apply rpms_after_spec. split; [exact Hx|]. intros Hd.
  apply dangling_after_spec in Hd. destruct Hd as (_ & Hu & _).
  apply unneeded_spec in Hu. destruct Hu as [_ Hu]. exact (Hu Hk).
Qed.

Lemma assocs_after_untouched (R : string) (keep : list string) (t : Tables) :
  untouched_elsewhere R t (set_repositories_rpms t (assocs_after R keep t)).
Proof.
  unfold untouched_elsewhere. cbn [set_repositories_rpms rpms repositories_rpms
    repositories repository_configurations].
  split; [reflexivity|]. split; [reflexivity|]. split; [|auto].
  intros m Hm. rewrite assocs_after_spec. tauto.
Qed.

Lemma delete_tables_untouched (R : string) (keep : list string) (t : Tables) :
  untouched_elsewhere R t (delete_tables R keep t).
Proof.
  unfold untouched_elsewhere, delete_tables. cbn [rpms repositories_rpms
    repositories repository_configurations].
  split; [reflexivity|]. split; [reflexivity|]. split.
  - intros m Hm. rewrite assocs_after_spec. tauto.
  - intros x m Hx Hm Hr E. apply (@rpms_after_referred R keep t x m); auto.
    apply assocs_after_spec. tauto.
Qed.

Lemma associate_In (repo : Repository) (keep : list string) (t : Tables)
  (m : RepositoryRpm) :
  In m (repositories_rpms (associate repo keep t)) <->
  In m (repositories_rpms t) \/ (RepositoryUUID m = repo_UUID repo /\ In (RpmUUID m) keep).
Proof.
  unfold associate. cbn [set_repositories_rpms repositories_rpms].
  rewrite insert_assocs_In. unfold prepRepositoryRpms. rewrite in_map_iff.
  split; (intros [H|H]; [left; exact H | right]).
  - destruct H as (u & <- & Hu). auto.
  - destruct H as [Hr Hu]. exists (RpmUUID m). split; [|exact Hu].
    destruct m; simpl in *. congruence.
Qed.

Lemma associate_untouched (repo : Repository) (keep : list string) (t : Tables) :
  untouched_elsewhere (repo_UUID repo) t (associate repo keep t).
Proof.
  unfold untouched_elsewhere. split; [reflexivity|]. split; [reflexivity|]. split.
  - intros m Hm. rewrite associate_In. tauto.
  - intros x m Hx _ _ _. exact Hx.
Qed.

Lemma insert_stage_untouched (pkgs : list YumPackage) (repoUuid : string)
  (t t' : Tables) (added : list Rpm) :
  insert_stage pkgs repoUuid t (after_insert t added) t' ->
  untouched_elsewhere repoUuid t t'.
Proof.
  intros [->|(repo & _ & <- & [->|[->| ->]])];
    (eapply untouched_elsewhere_trans; [apply after_insert_untouched|]).
  - apply untouched_elsewhere_refl.
  - apply assocs_after_untouched.
  - apply delete_tables_untouched.
  - eapply untouched_elsewhere_trans; [apply delete_tables_untouched|].
    apply associate_untouched.
Qed.

(** The rpms of a stage: rows that were there or were added, and among them
    every row the manifest names. *)
Lemma insert_stage_rpms (pkgs : list YumPackage) (repoUuid : string)
  (t t' : Tables) (added : list Rpm) (x : Rpm) :
  insert_stage pkgs repoUuid t (after_insert t added) t' ->
  (In x (rpms t') -> In x (rpms t) \/ In x added)
  /\ (In x (rpms t) \/ In x added ->
      In (rpm_Checksum x) (map yum_Checksum pkgs) -> In x (rpms t')).
Proof.
  assert (Hkeep : In x (rpms t) \/ In x added ->
                  In (rpm_Checksum x) (map yum_Checksum pkgs) ->
                  In x (rpms_after repoUuid
                          (wanted_uuids pkgs (rpms (after_insert t added)))
                          (after_insert t added))).
  { intros Hx Hn. apply rpms_after_kept.
    - unfold after_insert. cbn [set_rpms rpms]. apply in_or_app. exact Hx.
    - unfold wanted_uuids. apply in_map. apply filter_In. split.
      + unfold after_insert. cbn [set_rpms rpms]. apply in_or_app. exact Hx.
      + unfold named. apply inb_In. exact Hn. }
  assert (Hr : rpms (after_insert t added) = rpms t ++ added) by reflexivity.
  assert (Hdel : In x (rpms_after repoUuid
                         (wanted_uuids pkgs (rpms (after_insert t added)))
                         (after_insert t added)) ->
                 In x (rpms t) \/ In x added).
  { intros Hx. apply rpms_after_spec in Hx. destruct Hx as [Hx _].
    rewrite Hr in Hx. apply in_app_iff. exact Hx. }
  intros [->|(repo & _ & _ & [->|[->| ->]])].
  - rewrite Hr, in_app_iff. tauto.
  - cbn [set_repositories_rpms rpms]. rewrite Hr, in_app_iff. tauto.
  - cbn [delete_tables rpms]. split; [exact Hdel | exact Hkeep].
  - unfold associate. cbn [set_repositories_rpms delete_tables rpms].
    split; [exact Hdel | exact Hkeep].
Qed.

Lemma FilteredConvert_In (pkgs : list YumPackage) (exclude : list string) (x : Rpm) :
  In x (FilteredConvert pkgs exclude) ->
  In (rpm_Checksum x) (map yum_Checksum pkgs) /\ ~ In (rpm_Checksum x) exclude.
Proof.
  unfold FilteredConvert. intros Hx. apply in_flat_map in Hx. destruct Hx as (p & Hp & Hx).
  rewrite stringInSlice_inb in Hx. destruct (inb (yum_Checksum p) exclude) eqn:E;
    [contradiction|]. destruct Hx as [<-|[]]. cbn [rpm_Checksum].
  split; [apply in_map; exact Hp | apply inb_false; exact E].
Qed.

(** The tables with the wanted associations are settled, once rpms has
    every checksum of the manifest. *)
Lemma associate_settled (repo : Repository) (checksums : list string) (t1 : Tables) :
  (forall ck, In ck checksums -> has_checksum ck (rpms t1) = true) ->
  settled (repo_UUID repo) checksums
    (associate repo (map rpm_UUID (filter (named checksums) (rpms t1)))
       (delete_tables (repo_UUID repo)
          (map rpm_UUID (filter (named checksums) (rpms t1))) t1)).
Proof.
  intros Hins. set (R := repo_UUID repo).
  set (W := map rpm_UUID (filter (named checksums) (rpms t1))).
  assert (Hwanted : forall x, In x (rpms t1) -> named checksums x = true ->
                              ~ In (rpm_UUID x) (dangling_after R W t1)).
  { intros x Hx Hn Hd. apply dangling_after_spec in Hd. destruct Hd as (_ & Hu & _).
    apply unneeded_spec in Hu. destruct Hu as [_ Hu]. apply Hu.
    unfold W. apply in_map. apply filter_In. auto. }
  assert (Hsame : map rpm_UUID (filter (named checksums) (rpms_after R W t1)) = W).
  { unfold rpms_after, W. rewrite filter_absorb; [reflexivity|].
    intros x Hx Hn. apply negb_true_iff, inb_false. apply Hwanted; assumption. }
  unfold settled, associate.
  cbn [set_repositories_rpms delete_tables rpms repositories_rpms].
  rewrite Hsame. split; [|split].
  - intros ck Hck. specialize (Hins ck Hck). apply has_checksum_In in Hins.
    destruct Hins as (x & Hx & E). apply has_checksum_In. exists x. split; [|exact E].
    apply rpms_after_spec. split; [exact Hx|]. apply Hwanted; [exact Hx|].
    unfold named. apply inb_In. rewrite E. exact Hck.
  - intros m Hm Hr. apply insert_assocs_In in Hm. destruct Hm as [Hm|Hm].
    + apply assocs_after_spec in Hm. apply Hm. exact Hr.
    + unfold prepRepositoryRpms in Hm. apply in_map_iff in Hm.
      destruct Hm as (u & <- & Hu). exact Hu.
  - intros u Hu. apply insert_assocs_In. right. unfold prepRepositoryRpms.
    apply in_map_iff. exists u. split; [reflexivity | exact Hu].
Qed.

Ltac stage_ends :=
  exists (@nil Rpm);
  split; [reflexivity|]; split; [constructor|]; split; [intros ? []|];
  split; [left; unfold after_insert; rewrite app_nil_r, set_rpms_same; reflexivity
         | discriminate].

(** What InsertForRepository returns and leaves, whatever the store
    answers. *)
Lemma InsertForRepository_outcome (NewString : nat -> string)
  (fault : nat -> option string) (r : rpmDaoImpl) (repoUuid : string)
  (pkgs : list YumPackage) (db : DB) :
  valid_dao r -> GoInt.fits pkgs ->
  exists db' e added,
    InsertForRepository NewString fault r repoUuid pkgs db
      = Done db' (Z.of_nat (List.length added), e)
    /\ NoDup (map rpm_Checksum added)
    /\ (forall x, In x added ->
          In (rpm_Checksum x) (map yum_Checksum pkgs)
          /\ has_checksum (rpm_Checksum x) (rpms (tables db)) = false)
    /\ insert_stage pkgs repoUuid (tables db) (after_insert (tables db) added) (tables db')
    /\ (e = None ->
        (forall ck, In ck (map yum_Checksum pkgs) ->
                    has_checksum ck (rpms (tables db) ++ added) = true)
        /\ wanted_uuids pkgs (rpms (tables db) ++ added) <> []
        /\ exists repo, In repo (repositories (tables db)) /\ repo_UUID repo = repoUuid
             /\ tables db' =
                associate repo (wanted_uuids pkgs (rpms (tables db) ++ added))
                  (delete_tables repoUuid (wanted_uuids pkgs (rpms (tables db) ++ added))
                     (after_insert (tables db) added))).
Proof.
  intros Hdao Hfits.
  unfold InsertForRepository, fetchRepo, pluck_by_checksum, query.
  destruct (fault (statements db)); [do 2 eexists; stage_ends|].
  destruct (find (fun x => String.eqb (repo_UUID x) repoUuid) (repositories (tables db)))
    as [repo|] eqn:Hfind; [|do 2 eexists; stage_ends].
  apply find_some in Hfind. destruct Hfind as [Hrepo Huuid]. apply String.eqb_eq in Huuid.
  cbn [tables statements uuids].
  destruct (fault (S (statements db))); [do 2 eexists; stage_ends|].
  fold (named (map yum_Checksum pkgs)).
  set (existing := map rpm_Checksum (filter (named (map yum_Checksum pkgs)) (rpms (tables db)))).
  set (dbPkgs := FilteredConvert pkgs existing).
  set (db2 := mkDB (tables db) (S (S (statements db))) (uuids db)).
  assert (Hfits' : GoInt.fits dbPkgs).
  { unfold GoInt.fits, GoInt.slice_len in *. subst dbPkgs.
    pose proof (FilteredConvert_length pkgs existing). lia. }
  destruct (@PagedRpmInsert_added NewString fault r dbPkgs db2 Hdao Hfits')
    as (db3 & e3 & added & Hrun & Htab & Hin & Hnd & Hall).
  rewrite Hrun. cbn [tables] in Htab, Hin, Hall.
  assert (Hadded : forall x, In x added ->
            In (rpm_Checksum x) (map yum_Checksum pkgs)
            /\ has_checksum (rpm_Checksum x) (rpms (tables db)) = false).
  { intros x Hx. destruct (Hin x Hx) as [Hc (p & u & Hp & ->)]. split; [|exact Hc].
    apply FilteredConvert_In in Hp. exact (proj1 Hp). }
  assert (Hstage1 : tables db3 = after_insert (tables db) added) by exact Htab.
  destruct e3 as [e3|].
  { exists db3, (wrapf "failed to PagedRpmInsert: " e3), added.
    split; [reflexivity|]. split; [exact Hnd|]. split; [exact Hadded|].
    split; [left; exact Hstage1 | discriminate]. }
  specialize (Hall eq_refl).
  assert (Hins : forall ck, In ck (map yum_Checksum pkgs) ->
                            has_checksum ck (rpms (tables db) ++ added) = true).
  { intros ck Hck. destruct (has_checksum ck (rpms (tables db))) eqn:E.
    - rewrite has_checksum_app, E. reflexivity.
    - apply in_map_iff in Hck. destruct Hck as (p & Ep & Hp).
      destruct (@FilteredConvert_complete pkgs existing p Hp) as (x & Hx & Ex).
      { unfold existing. rewrite plucked_checksums. intros [_ H]. congruence. }
      rewrite <- Ep, <- Ex. apply Hall. exact Hx. }
  destruct (fault (statements db3)).
  { exists (mkDB (tables db3) (S (statements db3)) (uuids db3)),
           (wrapf "failed retrieving rpms.uuid for the package checksums: " s), added.
    split; [reflexivity|]. split; [exact Hnd|]. split; [exact Hadded|].
    split; [left; exact Hstage1 | discriminate]. }
  fold (named (map yum_Checksum pkgs)).
  fold (wanted_uuids pkgs (rpms (tables db3))).
  set (db4 := mkDB (tables db3) (S (statements db3)) (uuids db3)).
  assert (Hrpms3 : rpms (tables db3) = rpms (tables db) ++ added)
    by (rewrite Htab; reflexivity).
  rewrite Hrpms3.
  remember (wanted_uuids pkgs (rpms (tables db) ++ added)) as keep eqn:Ekeep.
  assert (Hkeep : wanted_uuids pkgs (rpms (after_insert (tables db) added)) = keep)
    by (rewrite Ekeep; reflexivity).
  destruct (deleteUnneeded_outcome fault repo keep db4) as [Hstages Hok].
  cbv zeta in Hstages, Hok. change (tables db4) with (tables db3) in Hstages, Hok.
  rewrite Hstage1, Huuid in Hstages, Hok.
  destruct (deleteUnneeded fault repo keep db4) as [db5 [e5|]]; cbn [fst snd] in Hstages, Hok.
  { exists db5, (wrapf "failed to deleteUnneeded: " e5), added.
    split; [reflexivity|]. split; [exact Hnd|]. split; [exact Hadded|].
    split; [|discriminate]. unfold insert_stage. rewrite Hkeep.
    destruct Hstages as [H|[H|H]]; [left; exact H | right; exists repo; auto ..]. }
  specialize (Hok eq_refl).
  assert (Hstage : insert_stage pkgs repoUuid (tables db) (after_insert (tables db) added)
                     (tables db5)).
  { unfold insert_stage. rewrite Hkeep. right. exists repo. auto. }
  destruct keep as [|u us].
  { cbn [prepRepositoryRpms map create_assocs].
    exists db5, (wrapf "failed to Create: " ErrEmptySlice), added.
    split; [reflexivity|]. split; [exact Hnd|]. split; [exact Hadded|].
    split; [exact Hstage | discriminate]. }
  cbn [prepRepositoryRpms map create_assocs]. unfold exec.
  destruct (fault (statements db5)).
  { exists (mkDB (tables db5) (S (statements db5)) (uuids db5)),
           (wrapf "failed to Create: " s), added.
    split; [reflexivity|]. split; [exact Hnd|]. split; [exact Hadded|].
    split; [exact Hstage | discriminate]. }
  change (mkRepositoryRpm (repo_UUID repo) u
            :: map (fun u0 => mkRepositoryRpm (repo_UUID repo) u0) us)
    with (prepRepositoryRpms repo (u :: us)).
  destruct (insert_assocs (prepRepositoryRpms repo (u :: us))
                          (repositories_rpms (tables db5))) as [l n] eqn:Ei.
  assert (Hfinal : set_repositories_rpms (tables db5) l
                   = associate repo (u :: us)
                       (delete_tables repoUuid (u :: us) (after_insert (tables db) added))).
  { unfold associate. rewrite <- Hok, Ei. reflexivity. }
  exists (mkDB (set_repositories_rpms (tables db5) l) (S (statements db5)) (uuids db5)),
         None, added.
  split; [reflexivity|]. split; [exact Hnd|]. split; [exact Hadded|]. cbn [tables]. split.
  - unfold insert_stage. rewrite Hkeep. right. exists repo. auto.
  - intros _. rewrite <- Ekeep. split; [exact Hins|]. split; [discriminate|].
    exists repo. auto.
Qed.

Lemma NoDup_map_filter {A B} (f : A -> B) (g : A -> bool) (l : list A) :
  NoDup (map f l) -> NoDup (map f (filter g l)).
Proof.
  induction l as [|x l IH]; simpl; intros H; [constructor|].
  inversion H as [|? ? Hx Hl]; subst. destruct (g x); [|apply IH; exact Hl].
  simpl. constructor; [|apply IH; exact Hl]. intros Hin. apply Hx.
  apply in_map_iff in Hin. destruct Hin as (y & E & Hy). apply filter_In in Hy.
  apply in_map_iff. exists y. tauto.
Qed.

(** What a deletion of deleteUnneeded, whole or cut short, does. *)
Lemma delete_stage_facts (R : string) (keep : list string) (t t' : Tables) :
  t' = t \/ t' = set_repositories_rpms t (assocs_after R keep t)
  \/ t' = delete_tables R keep t ->
  untouched_elsewhere R t t'
  /\ (forall m, In m (repositories_rpms t') -> In m (repositories_rpms t))
  /\ (forall m, In m (repositories_rpms t) -> In (RpmUUID m) keep ->
                In m (repositories_rpms t'))
  /\ (forall x, In x (rpms t') -> In x (rpms t))
  /\ (forall x m, In x (rpms t) -> In m (repositories_rpms t') ->
                  RpmUUID m = rpm_UUID x -> In x (rpms t'))
  /\ (forall x, In x (rpms t) -> In (rpm_UUID x) keep -> In x (rpms t')).
Proof.
  intros [->|[->| ->]].
  - split; [apply untouched_elsewhere_refl|]. repeat split; auto.
  - split; [apply assocs_after_untouched|].
    cbn [set_repositories_rpms repositories_rpms rpms]. repeat split; auto.
    + intros m Hm. apply assocs_after_spec in Hm. tauto.
    + intros m Hm Hk. apply assocs_after_spec. auto.
  - split; [apply delete_tables_untouched|].
    cbn [delete_tables repositories_rpms rpms]. repeat split.
    + intros m Hm. apply assocs_after_spec in Hm. tauto.
    + intros m Hm Hk. apply assocs_after_spec. auto.
    + intros x Hx. apply rpms_after_spec in Hx. tauto.
    + intros x m Hx Hm E. apply (@rpms_after_referred R keep t x m); assumption.
    + intros x Hx Hk. apply rpms_after_kept; assumption.
Qed.

(** X15. Whatever the store answers, and wherever it fails, deleteUnneeded
    changes nothing outside its repository, adds nothing, keeps every
    association with an rpm of the list, and deletes no rpm that an
    association still refers to: if every association referred to an rpm of
    the table before, so it does after.  When it returns no error no
    association of the repository is left with an rpm outside the list. *)
Theorem deleteUnneeded_spares_what_is_referred_to (fault : nat -> option string)
  (repo : Repository) (keep : list string) (db : DB) :
  let t := tables db in
  let t' := tables (fst (deleteUnneeded fault repo keep db)) in
  untouched_elsewhere (repo_UUID repo) t t'
  /\ (forall m, In m (repositories_rpms t') -> In m (repositories_rpms t))
  /\ (forall m, In m (repositories_rpms t) -> In (RpmUUID m) keep ->
                In m (repositories_rpms t'))
  /\ (forall x, In x (rpms t') -> In x (rpms t))
  /\ (forall x m, In x (rpms t) -> In m (repositories_rpms t') ->
                  RpmUUID m = rpm_UUID x -> In x (rpms t'))
  /\ (associations_resolve t -> associations_resolve t')
  /\ (snd (deleteUnneeded fault repo keep db) = None ->
      forall m, In m (repositories_rpms t') -> RepositoryUUID m = repo_UUID repo ->
                In (RpmUUID m) keep).
Proof.
  cbv zeta. destruct (deleteUnneeded_outcome fault repo keep db) as [Hstages Hok].
  cbv zeta in Hstages, Hok.
  destruct (delete_stage_facts Hstages) as (F1 & F2 & F3 & F4 & F5 & _).
  split; [exact F1|]. split; [exact F2|]. split; [exact F3|]. split; [exact F4|].
  split; [exact F5|]. split.
  - intros Hres m Hm. destruct (Hres m (F2 m Hm)) as (x & Hx & E). exists x.
    split; [|exact E]. apply (F5 x m); auto.
  - intros He m Hm Hr. rewrite (Hok He) in Hm. cbn [delete_tables repositories_rpms] in Hm.
    apply assocs_after_spec in Hm. apply Hm. exact Hr.
Qed.

(** A configuration that resolves stays so through the stages of
    InsertForRepository. *)
Lemma insert_stage_resolve (pkgs : list YumPackage) (repoUuid : string)
  (t t' : Tables) (added : list Rpm) :
  insert_stage pkgs repoUuid t (after_insert t added) t' ->
  associations_resolve t -> associations_resolve t'.
Proof.
  intros Hstage Hres.
  assert (Hres1 : associations_resolve (after_insert t added)).
  { intros m Hm. destruct (Hres m Hm) as (x & Hx & E). exists x. split; [|exact E].
    unfold after_insert. cbn [set_rpms rpms]. apply in_or_app. left. exact Hx. }
  set (t1 := after_insert t added) in *.
  set (keep := wanted_uuids pkgs (rpms t1)) in *.
  assert (Hdel : forall t2,
            t2 = t1 \/ t2 = set_repositories_rpms t1 (assocs_after repoUuid keep t1)
            \/ t2 = delete_tables repoUuid keep t1 ->
            associations_resolve t2).
  { intros t2 H2. destruct (delete_stage_facts H2) as (_ & F2 & _ & _ & F5 & _).
    intros m Hm. destruct (Hres1 m (F2 m Hm)) as (x & Hx & E). exists x.
    split; [|exact E]. apply (F5 x m); auto. }
  destruct Hstage as [->|(repo & _ & Hr & [->|[->| ->]])]; try solve [apply Hdel; auto].
  intros m Hm. apply associate_In in Hm. destruct Hm as [Hm|[_ Hm]].
  - destruct (Hdel (delete_tables repoUuid keep t1)) with (m := m) as (x & Hx & E); auto.
    exists x. split; [exact Hx | exact E].
  - unfold keep, wanted_uuids in Hm. apply in_map_iff in Hm. destruct Hm as (x & E & Hx).
    apply filter_In in Hx. destruct Hx as [Hx Hn]. exists x. split; [|exact E].
    unfold associate. cbn [set_repositories_rpms delete_tables rpms].
    apply rpms_after_kept; [exact Hx|]. unfold wanted_uuids. apply in_map.
    apply filter_In. auto.
Qed.

Lemma insert_stage_checksums (pkgs : list YumPackage) (repoUuid : string)
  (t t' : Tables) (added : list Rpm) :
  insert_stage pkgs repoUuid t (after_insert t added) t' ->
  NoDup (map rpm_Checksum (rpms t ++ added)) -> NoDup (map rpm_Checksum (rpms t')).
Proof.
  intros [->|(repo & _ & _ & [->|[->| ->]])] Hnd; try exact Hnd;
    unfold associate; cbn [set_repositories_rpms delete_tables rpms];
    unfold rpms_after; apply NoDup_map_filter; exact Hnd.
Qed.

(** X16. With a positive chunk size InsertForRepository returns, whatever
    the store answers, and wherever it fails: the count it returns, also
    beside an error, is the number of rows it added to rpms; the rows added
    carry pairwise distinct checksums of the manifest that rpms did not have
    and are all still there; rpms holds nothing else that is new; checksums
    that were unique in rpms stay unique; associations that all referred to
    rpms of the table still do; and nothing changes outside the repository:
    the repositories, the configurations and the associations of the other
    repositories are the same, and no rpm that another repository holds is
    deleted. *)
Theorem InsertForRepository_contained (NewString : nat -> string)
  (fault : nat -> option string) (r : rpmDaoImpl) (repoUuid : string)
  (pkgs : list YumPackage) (db : DB) :
  valid_dao r -> GoInt.fits pkgs ->
  exists db' e added,
    InsertForRepository NewString fault r repoUuid pkgs db
      = Done db' (Z.of_nat (List.length added), e)
    /\ NoDup (map rpm_Checksum added)
    /\ (forall x, In x added ->
          In (rpm_Checksum x) (map yum_Checksum pkgs)
          /\ has_checksum (rpm_Checksum x) (rpms (tables db)) = false
          /\ In x (rpms (tables db')))
    /\ (forall x, In x (rpms (tables db')) -> In x (rpms (tables db)) \/ In x added)
    /\ (NoDup (map rpm_Checksum (rpms (tables db))) ->
        NoDup (map rpm_Checksum (rpms (tables db'))))
    /\ (associations_resolve (tables db) -> associations_resolve (tables db'))
    /\ untouched_elsewhere repoUuid (tables db) (tables db').
Proof.
  intros Hdao Hfits.
  destruct (@InsertForRepository_outcome NewString fault r repoUuid pkgs db Hdao Hfits)
    as (db' & e & added & Hrun & Hnd & Hadded & Hstage & _).
  exists db', e, added. split; [exact Hrun|]. split; [exact Hnd|]. split; [|split; [|split]].
  - intros x Hx. destruct (Hadded x Hx) as [Hc Hnew]. split; [exact Hc|].
    split; [exact Hnew|]. apply (insert_stage_rpms x Hstage); auto.
  - intros x Hx. apply (insert_stage_rpms x Hstage). exact Hx.
  - intros Hold. apply (insert_stage_checksums Hstage). rewrite map_app.
    apply NoDup_app; [exact Hold | exact Hnd |].
    intros ck Hck Hck'. apply in_map_iff in Hck. destruct Hck as (x & Ex & Hx).
    apply in_map_iff in Hck'. destruct Hck' as (y & Ey & Hy).
    destruct (Hadded y Hy) as [_ Hc].
    assert (has_checksum (rpm_Checksum y) (rpms (tables db)) = true); [|congruence].
    apply has_checksum_In. exists x. split; [exact Hx | congruence].
  - split; [apply (insert_stage_resolve Hstage) | apply (insert_stage_untouched Hstage)].
Qed.

(** X17. Whenever InsertForRepository returns no error, whatever statements
    the store would have failed, the manifest was not empty, the repository
    exists, and the tables agree with the manifest: every checksum of the
    manifest is in rpms and the repository is associated with exactly the
    rpms that carry a checksum of the manifest. *)
Theorem InsertForRepository_success_settles (NewString : nat -> string)
  (fault : nat -> option string) (r : rpmDaoImpl) (repoUuid : string)
  (pkgs : list YumPackage) (db db' : DB) (n : Z) :
  valid_dao r -> GoInt.fits pkgs ->
  InsertForRepository NewString fault r repoUuid pkgs db = Done db' (n, None) ->
  settled repoUuid (map yum_Checksum pkgs) (tables db')
  /\ pkgs <> []
  /\ exists repo, In repo (repositories (tables db)) /\ repo_UUID repo = repoUuid.
Proof.
  intros Hdao Hfits Hrun.
  destruct (@InsertForRepository_outcome NewString fault r repoUuid pkgs db Hdao Hfits)
    as (db2 & e & added & Hrun2 & _ & _ & _ & Hok).
  rewrite Hrun in Hrun2. inversion Hrun2; subst db2 e n.
  destruct (Hok eq_refl) as (Hins & Hwanted & repo & Hrepo & Huuid & Htab).
  split; [|split; [|exists repo; auto]].
  - rewrite Htab, <- Huuid. apply (@associate_settled repo (map yum_Checksum pkgs)
                                     (after_insert (tables db) added)). exact Hins.
  - intros ->. apply Hwanted. unfold wanted_uuids. rewrite filter_none; [reflexivity|].
    intros x _. reflexivity.
Qed.

(** While the store answers, a run with a manifest that is not empty, for a
    repository that exists, returns no error. *)
Lemma InsertForRepository_no_fault_ok (NewString : nat -> string) (r : rpmDaoImpl)
  (repoUuid : string) (pkgs : list YumPackage) (db : DB) :
  valid_dao r -> GoInt.fits pkgs -> pkgs <> [] ->
  (exists repo, In repo (repositories (tables db)) /\ repo_UUID repo = repoUuid) ->
  exists db' n, InsertForRepository NewString no_fault r repoUuid pkgs db = Done db' (n, None).
Proof.
  intros Hdao Hfits Hne (repo0 & Hrepo0 & Huuid0).
  destruct (find (fun x => String.eqb (repo_UUID x) repoUuid) (repositories (tables db)))
    as [repo|] eqn:Hfind.
  2:{ exfalso. apply (find_none _ _ Hfind) in Hrepo0. apply String.eqb_neq in Hrepo0.
      contradiction. }
  destruct (@InsertForRepository_no_fault NewString r repoUuid pkgs repo db Hdao Hfits Hfind)
    as (db' & Hrun & _).
  destruct (wanted_uuids pkgs (fst (new_rpms NewString pkgs db))) as [|u us] eqn:Ew;
    [|exists db'; eexists; exact Hrun].
  exfalso. destruct pkgs as [|p pkgs']; [congruence|].
  destruct (@reconciled_settled NewString (p :: pkgs') repo db) as (Hhas & _).
  specialize (Hhas (yum_Checksum p) (or_introl eq_refl)).
  apply has_checksum_In in Hhas. destruct Hhas as (x & Hx & E).
  unfold reconciled in Hx. cbv zeta in Hx.
  cbn [set_repositories_rpms delete_tables rpms] in Hx.
  apply rpms_after_spec in Hx. destruct Hx as [Hx _]. cbn [set_rpms rpms] in Hx.
  assert (Hin : In (rpm_UUID x) (wanted_uuids (p :: pkgs')
                                   (fst (new_rpms NewString (p :: pkgs') db)))).
  { unfold wanted_uuids. apply in_map. apply filter_In. split; [exact Hx|].
    unfold named. apply inb_In. rewrite E. left. reflexivity. }
  rewrite Ew in Hin. contradiction.
Qed.

(** X18. While the store answers, InsertForRepository with a manifest that
    is not empty, for a repository that exists, returns no error, leaves
    tables that agree with the manifest, and returns the number of distinct
    checksums of the manifest that rpms did not have: it added one row for
    each of them. *)
Theorem InsertForRepository_counts_new_checksums (NewString : nat -> string)
  (r : rpmDaoImpl) (repoUuid : string) (pkgs : list YumPackage) (db : DB) :
  valid_dao r -> GoInt.fits pkgs -> pkgs <> [] ->
  (exists repo, In repo (repositories (tables db)) /\ repo_UUID repo = repoUuid) ->
  exists db' added,
    InsertForRepository NewString no_fault r repoUuid pkgs db
      = Done db' (Z.of_nat (List.length added), None)
    /\ NoDup (map rpm_Checksum added)
    /\ (forall ck, In ck (map rpm_Checksum added) <->
                   In ck (map yum_Checksum pkgs)
                   /\ has_checksum ck (rpms (tables db)) = false)
    /\ (forall x, In x added -> In x (rpms (tables db')))
    /\ settled repoUuid (map yum_Checksum pkgs) (tables db').
Proof.
  intros Hdao Hfits Hne Hrepo.
  destruct (@InsertForRepository_no_fault_ok NewString r repoUuid pkgs db Hdao Hfits Hne Hrepo)
    as (db1 & n & Hrun1).
  destruct (@InsertForRepository_outcome NewString no_fault r repoUuid pkgs db Hdao Hfits)
    as (db' & e & added & Hrun & Hnd & Hadded & Hstage & Hok).
  rewrite Hrun1 in Hrun. inversion Hrun; subst db1 e n.
  destruct (Hok eq_refl) as (Hins & _ & repo & _ & Huuid & Htab).
  exists db', added. split; [exact Hrun1|]. split; [exact Hnd|]. split; [|split].
  - intros ck. split.
    + intros Hck. apply in_map_iff in Hck. destruct Hck as (x & <- & Hx).
      apply Hadded. exact Hx.
    + intros [Hck Hnew]. specialize (Hins ck Hck). rewrite has_checksum_app, Hnew in Hins.
      apply has_checksum_In in Hins. destruct Hins as (x & Hx & E).
      apply in_map_iff. exists x. auto.
  - intros x Hx. apply (insert_stage_rpms x Hstage); [right; exact Hx|].
    apply Hadded. exact Hx.
  - rewrite Htab, <- Huuid. apply (@associate_settled repo (map yum_Checksum pkgs)
                                     (after_insert (tables db) added)). exact Hins.
Qed.

(** X19. For a repository identifier the store does not have,
    InsertForRepository stops after the one query that looks for it, when
    the store answers that query: it returns 0 and the error "failed to
    fetchRepo: record not found" and changes no table, whatever the
    manifest. *)
Theorem InsertForRepository_unknown_repository (NewString : nat -> string)
  (fault : nat -> option string) (r : rpmDaoImpl) (repoUuid : string)
  (pkgs : list YumPackage) (db : DB) :
  (forall repo, In repo (repositories (tables db)) -> repo_UUID repo <> repoUuid) ->
  fault (statements db) = None ->
  InsertForRepository NewString fault r repoUuid pkgs db
  = Done (mkDB (tables db) (S (statements db)) (uuids db))
         (0, Some "failed to fetchRepo: record not found").
Proof.
  intros Hno Hf. unfold InsertForRepository, fetchRepo, query. rewrite Hf.
  destruct (find (fun x => String.eqb (repo_UUID x) repoUuid) (repositories (tables db)))
    as [repo|] eqn:Hfind; [|reflexivity].
  apply find_some in Hfind. destruct Hfind as [Hin E]. apply String.eqb_eq in E.
  exfalso. exact (Hno repo Hin E).
Qed.

(** Tables that agree with a manifest for one repository still do after a
    stage of a run for another repository. *)
Lemma settled_elsewhere_kept (pkgs : list YumPackage) (repoUuid R' : string)
  (checksums : list string) (t t' : Tables) (added : list Rpm) :
  insert_stage pkgs repoUuid t (after_insert t added) t' ->
  (forall x, In x added -> has_checksum (rpm_Checksum x) (rpms t) = false) ->
  R' <> repoUuid -> settled R' checksums t -> settled R' checksums t'.
Proof.
  intros Hstage Hadded Hne (S1 & S2 & S3).
  destruct (insert_stage_untouched Hstage) as (_ & _ & U3 & U4).
  assert (Hstay : forall x, In x (rpms t) -> named checksums x = true -> In x (rpms t')).
  { intros x Hx Hn. apply (U4 x (mkRepositoryRpm R' (rpm_UUID x))); auto.
    apply S3. apply in_map. apply filter_In. auto. }
  assert (Hold : forall x, In x (rpms t') -> named checksums x = true -> In x (rpms t)).
  { intros x Hx Hn. destruct (proj1 (insert_stage_rpms x Hstage) Hx) as [H|H]; [exact H|].
    exfalso. specialize (Hadded x H). unfold named in Hn. apply inb_In in Hn.
    rewrite (S1 _ Hn) in Hadded. discriminate. }
  split; [|split].
  - intros ck Hck. specialize (S1 ck Hck). apply has_checksum_In in S1.
    destruct S1 as (x & Hx & E). apply has_checksum_In. exists x. split; [|exact E].
    apply Hstay; [exact Hx|]. unfold named. apply inb_In. rewrite E. exact Hck.
  - intros m Hm Hr. assert (Hm' : In m (repositories_rpms t))
      by (apply U3; [congruence | exact Hm]).
    specialize (S2 m Hm' Hr). apply in_map_iff in S2. destruct S2 as (x & E & Hx).
    apply filter_In in Hx. destruct Hx as [Hx Hn]. apply in_map_iff. exists x.
    split; [exact E|]. apply filter_In. split; [|exact Hn]. apply Hstay; assumption.
  - intros u Hu. apply in_map_iff in Hu. destruct Hu as (x & E & Hx).
    apply filter_In in Hx. destruct Hx as [Hx Hn]. apply U3; [simpl; exact Hne|].
    apply S3. apply in_map_iff. exists x. split; [exact E|]. apply filter_In.
    split; [|exact Hn]. apply Hold; assumption.
Qed.

(** X20. A run of InsertForRepository for one repository, with any manifest
    and whatever the store answers, leaves every other repository in
    agreement with the manifest it agreed with: the checksums of that
    manifest stay in rpms and that repository stays associated with exactly
    the rpms that carry them. *)
Theorem InsertForRepository_keeps_other_repositories_settled
  (NewString : nat -> string) (fault : nat -> option string) (r : rpmDaoImpl)
  (repoUuid : string) (pkgs : list YumPackage) (db : DB)
  (R' : string) (checksums : list string) :
  valid_dao r -> GoInt.fits pkgs ->
  R' <> repoUuid -> settled R' checksums (tables db) ->
  exists db' n e,
    InsertForRepository NewString fault r repoUuid pkgs db = Done db' (n, e)
    /\ settled R' checksums (tables db').
Proof.
  intros Hdao Hfits Hne Hsettled.
  destruct (@InsertForRepository_outcome NewString fault r repoUuid pkgs db Hdao Hfits)
    as (db' & e & added & Hrun & _ & Hadded & Hstage & _).
  exists db', (Z.of_nat (List.length added)), e. split; [exact Hrun|].
  apply (settled_elsewhere_kept Hstage); auto.
  intros x Hx. apply Hadded. exact Hx.
Qed.

(** X21. One manifest synchronised into two repositories, the store
    answering: the second run returns 0 and adds no row to rpms, for every
    package is there already, and in the end both repositories agree with
    the manifest, associated with the same rows of rpms. *)
Theorem InsertForRepository_shares_packages (NewString : nat -> string)
  (r : rpmDaoImpl) (R1 R2 : string) (pkgs : list YumPackage) (db : DB) :
  valid_dao r -> GoInt.fits pkgs -> pkgs <> [] -> R1 <> R2 ->
  (exists repo, In repo (repositories (tables db)) /\ repo_UUID repo = R1) ->
  (exists repo, In repo (repositories (tables db)) /\ repo_UUID repo = R2) ->
  exists db1 n1 db2,
    InsertForRepository NewString no_fault r R1 pkgs db = Done db1 (n1, None)
    /\ InsertForRepository NewString no_fault r R2 pkgs db1 = Done db2 (0, None)
    /\ (forall x, In x (rpms (tables db2)) -> In x (rpms (tables db1)))
    /\ settled R1 (map yum_Checksum pkgs) (tables db2)
    /\ settled R2 (map yum_Checksum pkgs) (tables db2)
    /\ (forall u, In (mkRepositoryRpm R1 u) (repositories_rpms (tables db2)) <->
                  In (mkRepositoryRpm R2 u) (repositories_rpms (tables db2))).
Proof.
  intros Hdao Hfits Hne H12 Hrepo1 Hrepo2.
  destruct (@InsertForRepository_no_fault_ok NewString r R1 pkgs db Hdao Hfits Hne Hrepo1)
    as (db1 & n1 & Hrun1).
  destruct (@InsertForRepository_outcome NewString no_fault r R1 pkgs db Hdao Hfits)
    as (db1' & e1 & added1 & Hrun1' & _ & _ & Hstage1 & Hok1).
  rewrite Hrun1 in Hrun1'. inversion Hrun1'; subst db1' e1.
  destruct (Hok1 eq_refl) as (Hins1 & _ & repo1 & _ & Huuid1 & Htab1).
  assert (Hs1 : settled R1 (map yum_Checksum pkgs) (tables db1)).
  { rewrite Htab1, <- Huuid1. apply (@associate_settled repo1 (map yum_Checksum pkgs)
                                       (after_insert (tables db) added1)). exact Hins1. }
  assert (Hrepo2' : exists repo, In repo (repositories (tables db1)) /\ repo_UUID repo = R2).
  { destruct (insert_stage_untouched Hstage1) as (Er & _). rewrite Er. exact Hrepo2. }
  destruct (@InsertForRepository_no_fault_ok NewString r R2 pkgs db1 Hdao Hfits Hne Hrepo2')
    as (db2 & n2 & Hrun2).
  destruct (@InsertForRepository_outcome NewString no_fault r R2 pkgs db1 Hdao Hfits)
    as (db2' & e2 & added2 & Hrun2' & _ & Hadded2 & Hstage2 & Hok2).
  rewrite Hrun2 in Hrun2'. inversion Hrun2'; subst db2' e2.
  destruct (Hok2 eq_refl) as (Hins2 & _ & repo2 & _ & Huuid2 & Htab2).
  assert (Hnone : added2 = []).
  { destruct added2 as [|x l]; [reflexivity|]. exfalso.
    destruct (Hadded2 x (or_introl eq_refl)) as [Hc Hnew].
    destruct Hs1 as (S1 & _). rewrite (S1 _ Hc) in Hnew. discriminate. }
  subst added2. cbn [List.length] in *. change (Z.of_nat 0) with 0 in *. subst n2.
  assert (Hs2 : settled R2 (map yum_Checksum pkgs) (tables db2)).
  { rewrite Htab2, <- Huuid2. apply (@associate_settled repo2 (map yum_Checksum pkgs)
                                       (after_insert (tables db1) [])). exact Hins2. }
  assert (Hs1' : settled R1 (map yum_Checksum pkgs) (tables db2)).
  { apply (settled_elsewhere_kept Hstage2); auto. intros x []. }
  exists db1, n1, db2. split; [exact Hrun1|]. split; [exact Hrun2|].
  split; [|split; [exact Hs1'|split; [exact Hs2|]]].
  - intros x Hx. destruct (proj1 (insert_stage_rpms x Hstage2) Hx) as [H|[]]. exact H.
  - intros u. destruct Hs1' as (_ & A2 & A3). destruct Hs2 as (_ & B2 & B3). split; intros H.
    + apply B3. apply (A2 _ H). reflexivity.
    + apply A3. apply (B2 _ H). reflexivity.
Qed.

Lemma NoDup_map_eq {A B} (f : A -> B) (l : list A) (x y : A) :
  NoDup (map f l) -> In x l -> In y l -> f x = f y -> x = y.
Proof.
  induction l as [|z l IH]; simpl; intros Hnd Hx Hy E; [contradiction|].
  inversion Hnd as [|? ? Hz Hl]; subst.
  destruct Hx as [->|Hx]; destruct Hy as [->|Hy]; auto.
  - exfalso. apply Hz. rewrite E. apply in_map. exact Hy.
  - exfalso. apply Hz. rewrite <- E. apply in_map. exact Hx.
Qed.

(** X22. Synchronise, then list.  While the store answers, after
    InsertForRepository with a manifest that is not empty for the repository
    of a configuration the organization owns, List with no limit and no
    offset returns a package for every checksum of the manifest, and its
    total is the number of packages it returns; when the identifiers of rpms
    are unique, as the primary key makes them, it returns no package whose
    checksum is not in the manifest. *)
Theorem InsertForRepository_then_List (NewString : nat -> string)
  (DBErrorToApi : string -> string) (r : rpmDaoImpl)
  (orgID repositoryConfigUUID repoUuid : string) (pkgs : list YumPackage) (db : DB) :
  valid_dao r -> GoInt.fits pkgs -> pkgs <> [] ->
  orgID <> "" -> owned orgID repositoryConfigUUID db ->
  config_repository repositoryConfigUUID (tables db) = repoUuid ->
  (exists repo, In repo (repositories (tables db)) /\ repo_UUID repo = repoUuid) ->
  exists db1 n db2 page,
    InsertForRepository NewString no_fault r repoUuid pkgs db = Done db1 (n, None)
    /\ List no_fault DBErrorToApi orgID repositoryConfigUUID (-1) 0 db1
       = (db2, (page, Z.of_nat (List.length (Data page)), None))
    /\ (forall p, In p pkgs -> In (yum_Checksum p) (map api_Checksum (Data page)))
    /\ (NoDup (map rpm_UUID (rpms (tables db1))) ->
        forall item, In item (Data page) ->
                     In (api_Checksum item) (map yum_Checksum pkgs)).
Proof.
  intros Hdao Hfits Hne Horg Ho Hcfg Hrepo.
  destruct (@InsertForRepository_no_fault_ok NewString r repoUuid pkgs db Hdao Hfits Hne Hrepo)
    as (db1 & n & Hrun1).
  destruct (@InsertForRepository_outcome NewString no_fault r repoUuid pkgs db Hdao Hfits)
    as (db1' & e & added & Hrun & _ & _ & Hstage & Hok).
  rewrite Hrun1 in Hrun. inversion Hrun; subst db1' e.
  destruct (Hok eq_refl) as (Hins & _ & repo & _ & Huuid & Htab).
  assert (Hs : settled repoUuid (map yum_Checksum pkgs) (tables db1)).
  { rewrite Htab, <- Huuid. apply (@associate_settled repo (map yum_Checksum pkgs)
                                     (after_insert (tables db) added)). exact Hins. }
  destruct (insert_stage_untouched Hstage) as (Er & Ec & _).
  assert (Ho1 : owned orgID repositoryConfigUUID db1).
  { destruct Ho as (c & Hc & Hown). exists c. rewrite Ec. auto. }
  assert (Hcfg1 : config_repository repositoryConfigUUID (tables db1) = repoUuid).
  { unfold config_repository in *. rewrite Ec, Er. exact Hcfg. }
  destruct (List_owned DBErrorToApi (-1) 0 Horg Ho1) as (db2 & HList & _).
  unfold list_page, list_total in HList. rewrite Hcfg1 in HList.
  change (limit_rows (-1) (offset_rows 0 (rpms_of_repository repoUuid (tables db1))))
    with (rpms_of_repository repoUuid (tables db1)) in HList.
  exists db1, n, db2,
    (mkCollectionResponse
       (RepositoryRpmListFromModelToResponse (rpms_of_repository repoUuid (tables db1)))
       (mkResponseMetadata
          (Z.of_nat (List.length (rpms_of_repository repoUuid (tables db1)))) 0 (-1))).
  split; [exact Hrun1|]. split.
  - rewrite HList. cbn [Data]. unfold RepositoryRpmListFromModelToResponse.
    rewrite length_map. reflexivity.
  - cbn [Data]. unfold RepositoryRpmListFromModelToResponse. rewrite map_map.
    cbn [modelToApiFields api_Checksum]. destruct Hs as (S1 & S2 & S3). split.
    + intros p Hp. assert (Hck : In (yum_Checksum p) (map yum_Checksum pkgs))
        by (apply in_map; exact Hp).
      specialize (S1 _ Hck). apply has_checksum_In in S1. destruct S1 as (x & Hx & E).
      apply in_map_iff. exists x. split; [exact E|]. apply rpms_of_repository_In.
      split; [exact Hx|]. apply S3. apply in_map. apply filter_In. split; [exact Hx|].
      unfold named. apply inb_In. rewrite E. exact Hck.
    + intros Hnd item Hitem. apply in_map_iff in Hitem. destruct Hitem as (x & <- & Hx).
      apply rpms_of_repository_In in Hx. destruct Hx as [Hx Hm].
      specialize (S2 _ Hm eq_refl). cbn [RpmUUID] in S2. apply in_map_iff in S2.
      destruct S2 as (y & E & Hy). apply filter_In in Hy. destruct Hy as [Hy Hn].
      assert (y = x)
        by (apply (@NoDup_map_eq _ _ rpm_UUID (rpms (tables db1)) y x Hnd); assumption).
      subst y.
      cbn [modelToApiFields api_Checksum]. apply inb_In. exact Hn.
Qed.

(** ** The properties above on concrete stores *)

Lemma store0_owned : owned "acme" "cfg-1" store0.
Proof.
  exists (mkRepositoryConfiguration "cfg-1" "acme" "R2"). split; [left|]; reflexivity.
Qed.

Lemma store0_has (R : string) :
  In R ["R1"; "R2"] ->
  exists repo, In repo (repositories (tables store0)) /\ repo_UUID repo = R.
Proof.
  intros [<-|[<-|[]]].
  - exists (mkRepository "R1" "http://x" true). split; [left|]; reflexivity.
  - exists (mkRepository "R2" "http://y/" false). split; [right; left|]; reflexivity.
Qed.

Lemma List_total_and_window_witness :
  let '(_, (page, total, err)) := List no_fault (fun e => e) "acme" "cfg-1" 1 0 store0 in
  let '(_, (_, total', _)) := List no_fault (fun e => e) "acme" "cfg-1" 5 1 store0 in
  err = None
  /\ total' = total
  /\ Meta page = mkResponseMetadata total 0 1
  /\ Z.of_nat (List.length (Data page)) <= total
  /\ (0 < 1 -> Z.of_nat (List.length (Data page)) <= 1).
Proof.
  apply (@List_total_and_window (fun e => e) "acme" "cfg-1" 1 0 5 1 store0).
  - discriminate.
  - exact store0_owned.
Defined.

Lemma store_three_owned : owned "acme" "cfg-1" store_three.
Proof.
  exists (mkRepositoryConfiguration "cfg-1" "acme" "R1"). split; [left|]; reflexivity.
Qed.

Lemma List_page_length_witness :
  let '(_, (page, total, err)) :=
    List no_fault (fun e => e) "acme" "cfg-1" 2 2 store_three in
  err = None
  /\ (0 < 2 -> Z.of_nat (List.length (Data page)) = Z.max 0 (Z.min 2 (total - 2)))
  /\ (2 < 0 -> Z.of_nat (List.length (Data page)) = Z.max 0 (total - 2))
  /\ (0 < 2 -> 2 + 2 <= total -> Z.of_nat (List.length (Data page)) = 2)
  /\ (total <= 2 -> Data page = []).
Proof.
  apply (@List_page_length (fun e => e) "acme" "cfg-1" 2 2 store_three).
  - discriminate.
  - exact store_three_owned.
  - lia.
Defined.

Lemma List_returns_repository_packages_witness :
  let page := Data (fst (fst (snd (List no_fault (fun e => e) "acme" "cfg-1" (-1) 0 store0)))) in
  let R := config_repository "cfg-1" (tables store0) in
  (forall item, In item page ->
     exists x, item = modelToApiFields x
               /\ In x (rpms (tables store0))
               /\ In (mkRepositoryRpm R (rpm_UUID x)) (repositories_rpms (tables store0)))
  /\ (-1 < 0 -> 0 <= 0 ->
      forall x, In x (rpms (tables store0)) ->
                In (mkRepositoryRpm R (rpm_UUID x)) (repositories_rpms (tables store0)) ->
                In (modelToApiFields x) page).
Proof.
  apply (@List_returns_repository_packages (fun e => e) "acme" "cfg-1" (-1) 0 store0).
  - discriminate.
  - exact store0_owned.
Defined.

Lemma Search_shows_visible_packages_only_witness :
  exists x repo,
    In x (rpms (tables (store_at "http://x")))
    /\ In repo (repositories (tables (store_at "http://x")))
    /\ In (mkRepositoryRpm (repo_UUID repo) (rpm_UUID x))
          (repositories_rpms (tables (store_at "http://x")))
    /\ mkSearchRpmResponse "demo-lib" "Demo library"
       = mkSearchRpmResponse (rpm_Name x) (rpm_Summary x)
    /\ (repo_Public repo = true
        \/ exists c, In c (repository_configurations (tables (store_at "http://x")))
                     /\ rc_RepositoryUUID c = repo_UUID repo /\ rc_OrgID c = "acme").
Proof.
  apply (@Search_shows_visible_packages_only no_fault "acme"
           (mkSearchRpmRequest ["http://x"] "demo") 10 (store_at "http://x")).
  left. reflexivity.
Defined.

Lemma Search_by_name_prefix_witness :
  let request := mkSearchRpmRequest ["http://x"] "demo" in
  let db := store_at "http://x" in
  let rows := fst (snd (Search no_fault "acme" request (-1) db)) in
  (forall resp, In resp rows ->
     exists rest, PackageName resp = String.append (Search_ request) rest)
  /\ (-1 < 0 ->
      forall x repo rest,
        In x (rpms (tables db)) -> In repo (repositories (tables db)) ->
        In (mkRepositoryRpm (repo_UUID repo) (rpm_UUID x)) (repositories_rpms (tables db)) ->
        rpm_Name x = String.append (Search_ request) rest ->
        In (repo_URL repo) (URLs request) ->
        (repo_Public repo = true
         \/ exists c, In c (repository_configurations (tables db))
                      /\ rc_RepositoryUUID c = repo_UUID repo /\ rc_OrgID c = "acme") ->
        In (rpm_Name x) (map PackageName rows)).
Proof.
  apply (@Search_by_name_prefix "acme" (mkSearchRpmRequest ["http://x"] "demo") (-1)
           (store_at "http://x")).
  - reflexivity.
  - discriminate.
  - discriminate.
Defined.

Lemma Search_urls_as_set_witness :
  Search no_fault "acme" (mkSearchRpmRequest ["http://x"; "http://y"] "demo") 10
         (store_at "http://x")
  = Search no_fault "acme" (mkSearchRpmRequest ["http://y"; "http://x"; "http://x"] "demo") 10
           (store_at "http://x").
Proof.
  apply Search_urls_as_set.
  - reflexivity.
  - intros u. simpl. tauto.
Defined.

Lemma PagedRpmInsert_appends_what_it_counts_witness :
  exists db' e added,
    PagedRpmInsert uuid_nth second_fails (mkRpmDao 1) rows3 store0
      = Done db' (Z.of_nat (List.length added), e)
    /\ tables db' = mkTables (rpms (tables store0) ++ added)
                             (repositories_rpms (tables store0))
                             (repositories (tables store0))
                             (repository_configurations (tables store0))
    /\ (forall x, In x added ->
          has_checksum (rpm_Checksum x) (rpms (tables store0)) = false
          /\ exists p u, In p rows3 /\ x = with_uuid p u)
    /\ NoDup (map rpm_Checksum added)
    /\ (NoDup (map rpm_Checksum (rpms (tables store0))) ->
        NoDup (map rpm_Checksum (rpms (tables db'))))
    /\ (e = None -> forall p, In p rows3 ->
          has_checksum (rpm_Checksum p) (rpms (tables db')) = true).
Proof.
  apply PagedRpmInsert_appends_what_it_counts.
  - apply valid_dao_intro. reflexivity.
  - apply fits_intro. reflexivity.
Defined.

Lemma PagedRpmInsert_statements_witness :
  exists db' n e,
    PagedRpmInsert uuid_nth no_fault (mkRpmDao 2) rows3 store0 = Done db' (n, e)
    /\ (statements db' <= statements store0
          + chunks_of (List.length rows3) (Z.to_nat (pagedRpmInsertsLimit (mkRpmDao 2))))%nat
    /\ (e = None ->
        statements db' = (statements store0
          + chunks_of (List.length rows3) (Z.to_nat (pagedRpmInsertsLimit (mkRpmDao 2))))%nat)
    /\ ((forall k, (statements store0 <= k)%nat -> no_fault k = None) -> e = None).
Proof.
  apply PagedRpmInsert_statements.
  - apply valid_dao_intro. reflexivity.
  - apply fits_intro. reflexivity.
Defined.

Lemma InsertForRepository_contained_witness :
  exists db' e added,
    InsertForRepository uuid_nth second_fails (mkRpmDao 2) "R1" manifest3 store0
      = Done db' (Z.of_nat (List.length added), e)
    /\ NoDup (map rpm_Checksum added)
    /\ (forall x, In x added ->
          In (rpm_Checksum x) (map yum_Checksum manifest3)
          /\ has_checksum (rpm_Checksum x) (rpms (tables store0)) = false
          /\ In x (rpms (tables db')))
    /\ (forall x, In x (rpms (tables db')) -> In x (rpms (tables store0)) \/ In x added)
    /\ (NoDup (map rpm_Checksum (rpms (tables store0))) ->
        NoDup (map rpm_Checksum (rpms (tables db'))))
    /\ (associations_resolve (tables store0) -> associations_resolve (tables db'))
    /\ untouched_elsewhere "R1" (tables store0) (tables db').
Proof.
  apply InsertForRepository_contained.
  - apply valid_dao_intro. reflexivity.
  - apply fits_intro. reflexivity.
Defined.

Lemma InsertForRepository_success_settles_witness :
  exists db' n,
    InsertForRepository uuid_nth no_fault (mkRpmDao 2) "R1" manifest3 store0
      = Done db' (n, None)
    /\ settled "R1" (map yum_Checksum manifest3) (tables db')
    /\ manifest3 <> []
    /\ exists repo, In repo (repositories (tables store0)) /\ repo_UUID repo = "R1".
Proof.
  eexists. eexists. split; [reflexivity|].
  eapply (@InsertForRepository_success_settles uuid_nth no_fault (mkRpmDao 2) "R1"
            manifest3 store0).
  - apply valid_dao_intro. reflexivity.
  - apply fits_intro. reflexivity.
  - reflexivity.
Defined.

Lemma InsertForRepository_counts_new_checksums_witness :
  exists db' added,
    InsertForRepository uuid_nth no_fault (mkRpmDao 2) "R1" manifest3 store0
      = Done db' (Z.of_nat (List.length added), None)
    /\ NoDup (map rpm_Checksum added)
    /\ (forall ck, In ck (map rpm_Checksum added) <->
                   In ck (map yum_Checksum manifest3)
                   /\ has_checksum ck (rpms (tables store0)) = false)
    /\ (forall x, In x added -> In x (rpms (tables db')))
    /\ settled "R1" (map yum_Checksum manifest3) (tables db').
Proof.
  apply InsertForRepository_counts_new_checksums.
  - apply valid_dao_intro. reflexivity.
  - apply fits_intro. reflexivity.
  - discriminate.
  - apply store0_has. left. reflexivity.
Defined.

Lemma InsertForRepository_unknown_repository_witness :
  InsertForRepository uuid_nth no_fault (mkRpmDao 2) "R9" manifest3 store0
  = Done (mkDB (tables store0) (S (statements store0)) (uuids store0))
         (0, Some "failed to fetchRepo: record not found").
Proof.
  apply InsertForRepository_unknown_repository.
  - intros repo [<-|[<-|[]]]; discriminate.
  - reflexivity.
Defined.

Lemma store0_R2_settled : settled "R2" ["SHA1:02"] (tables store0).
Proof.
  unfold settled. split; [|split].
  - intros ck [<-|[]]. reflexivity.
  - intros m [<-|[<-|[<-|[]]]] Hr; try discriminate Hr. left. reflexivity.
  - intros u [<-|[]]. right. right. left. reflexivity.
Qed.

Lemma InsertForRepository_keeps_other_repositories_settled_witness :
  exists db' n e,
    InsertForRepository uuid_nth second_fails (mkRpmDao 2) "R1" manifest3 store0
      = Done db' (n, e)
    /\ settled "R2" ["SHA1:02"] (tables db').
Proof.
  apply InsertForRepository_keeps_other_repositories_settled.
  - apply valid_dao_intro. reflexivity.
  - apply fits_intro. reflexivity.
  - discriminate.
  - exact store0_R2_settled.
Defined.

Lemma InsertForRepository_shares_packages_witness :
  exists db1 n1 db2,
    InsertForRepository uuid_nth no_fault (mkRpmDao 2) "R1" manifest3 store0
      = Done db1 (n1, None)
    /\ InsertForRepository uuid_nth no_fault (mkRpmDao 2) "R2" manifest3 db1
       = Done db2 (0, None)
    /\ (forall x, In x (rpms (tables db2)) -> In x (rpms (tables db1)))
    /\ settled "R1" (map yum_Checksum manifest3) (tables db2)
    /\ settled "R2" (map yum_Checksum manifest3) (tables db2)
    /\ (forall u, In (mkRepositoryRpm "R1" u) (repositories_rpms (tables db2)) <->
                  In (mkRepositoryRpm "R2" u) (repositories_rpms (tables db2))).
Proof.
  apply InsertForRepository_shares_packages.
  - apply valid_dao_intro. reflexivity.
  - apply fits_intro. reflexivity.
  - discriminate.
  - discriminate.
  - apply store0_has. left. reflexivity.
  - apply store0_has. right. left. reflexivity.
Defined.

Lemma InsertForRepository_then_List_witness :
  exists db1 n db2 page,
    InsertForRepository uuid_nth no_fault (mkRpmDao 2) "R2" manifest3 store0
      = Done db1 (n, None)
    /\ List no_fault (fun e => e) "acme" "cfg-1" (-1) 0 db1
       = (db2, (page, Z.of_nat (List.length (Data page)), None))
    /\ (forall p, In p manifest3 -> In (yum_Checksum p) (map api_Checksum (Data page)))
    /\ (NoDup (map rpm_UUID (rpms (tables db1))) ->
        forall item, In item (Data page) ->
                     In (api_Checksum item) (map yum_Checksum manifest3)).
Proof.
  apply InsertForRepository_then_List.
  - apply valid_dao_intro. reflexivity.
  - apply fits_intro. reflexivity.
  - discriminate.
  - discriminate.
  - exact store0_owned.
  - reflexivity.
  - apply store0_has. right. left. reflexivity.
Defined.

